(** * Satellite threat analyzer: a shallow embedding of
      [python_backend/threat_analyzer.py]

    The Python module keeps a bounded per-satellite history of position
    samples and a bounded history of threat events, and derives from them
    velocity, trajectory and proximity events, geographic threat zones and
    inter-satellite communication paths.

    Conventions of the embedding.
    - A Python [float] is a real number of [R]: finite values and exact
      arithmetic, so rounding, infinities and NaN inputs are outside the
      model.  A missing value of pandas (NaN) is [None].  Comparisons of
      reals are decided by [Rlt_dec] and [Rle_dec]: the functions have the
      shape of the code but are reasoned about, not evaluated.
    - A Python [int] is a [Z]; a [str] is a [string]; a [datetime] is a
      number of microseconds since the epoch.
    - A [dict] is an association list in insertion order; its keys are
      unique, which is the invariant [wf_store] for the store.
    - The library routines the module calls (pandas [diff], [mean], [std],
      [mode]; numpy [unique], [where], [radians]; scikit-learn
      [StandardScaler] and [DBSCAN]) are modelled by the functions of
      [Module Np], [Module Pd] and [Module Sk], after the behaviour the
      libraries document.  DBSCAN follows the library's [dbscan_inner]: a
      depth-first expansion from each unlabelled core sample, with the
      neighbours of a sample taken in ascending order of their position.
    - Formatting a float in an f-string is a parameter, [format_float].
    - The attributes [threat_zones], [communication_paths] and
      [anomaly_threshold] of the analyzer are never read by its methods and
      are left out of the state. *)

From Stdlib Require Import String Ascii DecimalString OrderedTypeEx.
From Stdlib Require Import Reals Lra Lia ZArith Bool Arith List Permutation.
From Stdlib Require Import Sorted.
Import ListNotations.

(* ================================================================== *)
(** * Part I: definitions                                              *)
(* ================================================================== *)

(** ** Python built-ins *)

Module Py.

(** [l[-k:]]: the last [k] elements, the whole list when it is shorter. *)
Definition lastn {A : Type} (k : nat) (l : list A) : list A :=
  skipn (length l - k) l.

(** [l[-1]] where the list is not empty. *)
Definition last_opt {A : Type} (l : list A) : option A :=
  match rev l with
  | [] => None
  | x :: _ => Some x
  end.

(** [str(z)] and [f"{z}"] for an [int]. *)
Definition str (z : Z) : string := NilEmpty.string_of_int (Z.to_int z).

(** A [dict] with keys in [Z]: insertion-ordered association list. *)
Definition dict (V : Type) : Type := list (Z * V).

Fixpoint get {V : Type} (d : dict V) (k : Z) : option V :=
  match d with
  | [] => None
  | (k', v) :: d' => if (k' =? k)%Z then Some v else get d' k
  end.

Definition contains {V : Type} (d : dict V) (k : Z) : bool :=
  match get d k with
  | Some _ => true
  | None => false
  end.

(** [d[k] = v]: an existing key keeps its place, a new key goes last. *)
Fixpoint set {V : Type} (d : dict V) (k : Z) (v : V) : dict V :=
  match d with
  | [] => [(k, v)]
  | (k', v') :: d' =>
      if (k' =? k)%Z then (k', v) :: d' else (k', v') :: set d' k v
  end.

Definition keys {V : Type} (d : dict V) : list Z := map fst d.

End Py.

(** ** Floats as reals, numpy and pandas reductions *)

Module Np.

Definition ltb (x y : R) : bool := if Rlt_dec x y then true else false.
Definition leb (x y : R) : bool := if Rle_dec x y then true else false.
Definition gtb (x y : R) : bool := ltb y x.

Fixpoint sum (l : list R) : R :=
  match l with
  | [] => 0%R
  | x :: t => (x + sum t)%R
  end.

Definition mean (l : list R) : R := (sum l / INR (length l))%R.

(** [np.radians]. *)
Definition radians (deg : R) : R := (deg * (PI / 180))%R.

(** Insertion of a label into a strictly increasing list. *)
Fixpoint insert_unique (x : Z) (l : list Z) : list Z :=
  match l with
  | [] => [x]
  | y :: t =>
      if (x <? y)%Z then x :: l
      else if (x =? y)%Z then l
      else y :: insert_unique x t
  end.

(** [np.unique]: the distinct values, ascending. *)
Definition unique (l : list Z) : list Z := fold_right insert_unique [] l.

(** [np.where(a == v)[0]]: the positions holding [v], ascending. *)
Definition where_eq (a : list Z) (v : Z) : list nat :=
  filter (fun i => (nth i a 0 =? v)%Z) (seq 0 (length a)).

(** [frame[mask == v]]: the rows whose label is [v], in order. *)
Definition select {A : Type} (rows : list A) (labels : list Z) (v : Z)
  : list A :=
  map fst (filter (fun rl => (snd rl =? v)%Z) (combine rows labels)).

End Np.

Module Pd.

(** The values of a series that are not missing. *)
Definition valid (s : list (option R)) : list R :=
  flat_map (fun o => match o with Some x => [x] | None => [] end) s.

(** [Series.diff()]: the first entry is missing. *)
Fixpoint diff_from (prev : R) (s : list R) : list (option R) :=
  match s with
  | [] => []
  | x :: t => Some (x - prev)%R :: diff_from x t
  end.

Definition diff (s : list R) : list (option R) :=
  match s with
  | [] => []
  | x :: t => None :: diff_from x t
  end.

(** [Series.mean()], missing values skipped; missing when none is left. *)
Definition mean (s : list (option R)) : option R :=
  match valid s with
  | [] => None
  | v => Some (Np.mean v)
  end.

(** [Series.std()]: sample standard deviation (one degree of freedom
    removed), missing values skipped; missing below two values. *)
Definition std (s : list (option R)) : option R :=
  let v := valid s in
  if (length v <=? 1)%nat then None
  else
    let m := Np.mean v in
    Some (sqrt (Np.sum (map (fun x => ((x - m) ^ 2)%R) v)
                / INR (length v - 1)))%R.

Definition count (k : string) (l : list string) : nat :=
  count_occ string_dec l k.

Definition max_count (l : list string) : nat :=
  fold_right Nat.max 0%nat (map (fun k => count k l) l).

Fixpoint insert_sorted (k : string) (l : list string) : list string :=
  match l with
  | [] => [k]
  | k' :: t =>
      if String.leb k k' then k :: l else k' :: insert_sorted k t
  end.

Definition sort (l : list string) : list string :=
  fold_right insert_sorted [] l.

(** [Series.mode()]: the most frequent values, ascending. *)
Definition mode (l : list string) : list string :=
  sort (nodup string_dec
          (filter (fun k => (count k l =? max_count l)%nat) l)).

End Pd.

(** ** scikit-learn: StandardScaler and DBSCAN *)

Module Sk.

(** Euclidean distance of two feature vectors. *)
Definition euclid (p q : list R) : R :=
  sqrt (Np.sum (map (fun ab => ((fst ab - snd ab) ^ 2)%R) (combine p q))).

(** One column through [StandardScaler.fit_transform]: centred on the
    column mean, divided by the population standard deviation, which is
    replaced by 1 when it is zero. *)
Definition scale_column (col : list R) : list R :=
  let m := Np.mean col in
  let s := sqrt (Np.mean (map (fun x => ((x - m) ^ 2)%R) col)) in
  let s' := if Req_dec_T s 0 then 1%R else s in
  map (fun x => ((x - m) / s')%R) col.

Fixpoint zip3 (a b c : list R) : list (list R) :=
  match a, b, c with
  | x :: a', y :: b', z :: c' => [x; y; z] :: zip3 a' b' c'
  | _, _, _ => []
  end.

Section DbscanInner.

(** [n] samples; [nb i j] holds when sample [j] is within [eps] of
    sample [i]. *)
Variable n : nat.
Variable nb : nat -> nat -> bool.
Variable min_samples : nat.

Definition neighborhood (i : nat) : list nat := filter (nb i) (seq 0 n).

Definition is_core (i : nat) : bool :=
  (min_samples <=? length (neighborhood i))%nat.

Definition label_of (labels : list Z) (i : nat) : Z :=
  nth i labels (-1)%Z.

Fixpoint set_label (labels : list Z) (i : nat) (c : Z) : list Z :=
  match labels, i with
  | [], _ => []
  | _ :: t, O => c :: t
  | x :: t, S i' => x :: set_label t i' c
  end.

Definition unlabelled (labels : list Z) (i : nat) : bool :=
  (label_of labels i =? -1)%Z.

(** The depth-first expansion of one cluster.  The library keeps a
    current sample and a stack; here the current sample is the head of
    the work list.  A sample that is still unlabelled receives the
    label, and when it is a core sample its unlabelled neighbours are
    pushed in order, so that the last one is popped first. *)
Fixpoint expand (fuel : nat) (label_num : Z) (labels : list Z)
         (work : list nat) : list Z :=
  match fuel with
  | O => labels
  | S fuel' =>
      match work with
      | [] => labels
      | i :: stack =>
          if unlabelled labels i then
            let labels' := set_label labels i label_num in
            let stack' :=
              if is_core i
              then rev (filter (unlabelled labels') (neighborhood i))
                   ++ stack
              else stack in
            expand fuel' label_num labels' stack'
          else expand fuel' label_num labels stack
      end
  end.

(** Enough steps for any expansion: every step either labels a sample
    (at most [n] times, pushing at most [n] samples) or pops one. *)
Definition fuel_bound : nat := n * S n + 2.

(** One turn of the outer loop over the samples. *)
Definition visit (st : list Z * Z) (i : nat) : list Z * Z :=
  let (labels, label_num) := st in
  if negb (unlabelled labels i) || negb (is_core i) then st
  else (expand fuel_bound label_num labels [i], (label_num + 1)%Z).

Definition dbscan_inner : list Z :=
  fst (fold_left visit (seq 0 n) (repeat (-1)%Z n, 0%Z)).

End DbscanInner.

(** [DBSCAN(eps=eps, min_samples=m).fit_predict(X)]: a sample's
    neighbourhood holds the samples at distance at most [eps], itself
    included; label [-1] is noise. *)
Definition within (eps : R) (X : list (list R)) (i j : nat) : bool :=
  Np.leb (euclid (nth i X []) (nth j X [])) eps.

Definition DBSCAN (eps : R) (min_samples : nat) (X : list (list R))
  : list Z :=
  dbscan_inner (length X) (within eps X) min_samples.

End Sk.

(** ** The data classes *)

Definition datetime : Type := Z.

(** [int(t.timestamp())]: whole seconds, truncated. *)
Definition epoch_seconds (t : datetime) : Z := Z.quot t 1000000.

Module ThreatEvent.
Record t : Type := mk {
  id : string;
  timestamp : datetime;
  source_lat : R;
  source_lon : R;
  target_lat : R;
  target_lon : R;
  threat_type : string;
  severity : string;
  satellite_id : option Z;
  description : string
}.
End ThreatEvent.
Abbreviation ThreatEvent := ThreatEvent.t.

Module SatellitePosition.
Record t : Type := mk {
  satellite_id : Z;
  latitude : R;
  longitude : R;
  altitude : R;
  velocity : R;
  timestamp : datetime
}.
End SatellitePosition.
Abbreviation SatellitePosition := SatellitePosition.t.

(** The dictionaries returned by [generate_threat_zones]. *)
Module Zone.
Record t : Type := mk {
  id : string;
  center_lat : R;
  center_lon : R;
  radius : Z;
  severity : string;
  threat_count : nat;
  dominant_threat : string
}.
End Zone.

(** The dictionaries returned by [generate_communication_paths]. *)
Module Path.
Record t : Type := mk {
  id : string;
  source_id : Z;
  target_id : Z;
  source_lat : R;
  source_lon : R;
  target_lat : R;
  target_lon : R;
  distance : R;
  quality : string;
  active : bool
}.
End Path.

(** A row of the position frame built by [analyze_satellite_anomalies]. *)
Module Row.
Record t : Type := mk {
  lat : R;
  lon : R;
  alt : R;
  vel : R;
  timestamp : datetime
}.
End Row.

(** A row of the frame built by [generate_threat_zones]. *)
Module TRow.
Record t : Type := mk {
  lat : R;
  lon : R;
  severity : string;
  type : string
}.
End TRow.

(** The state of a [ThreatAnalyzer]: the two attributes its methods read
    and write. *)
Record ThreatAnalyzer : Type := mkAnalyzer {
  threat_events : list ThreatEvent;
  satellite_positions : Py.dict (list SatellitePosition)
}.

(** [ThreatAnalyzer()]. *)
Definition init : ThreatAnalyzer := mkAnalyzer [] [].

(** ** The methods of [ThreatAnalyzer] *)

Section Methods.

(** [f"{x:.kf}"]: the decimal text of a float with [k] fractional
    digits. *)
Variable format_float : nat -> R -> string.

Local Open Scope string_scope.

(** The text of a possibly missing float, [nan] when missing. *)
Definition format_missing (k : nat) (o : option R) : string :=
  match o with
  | Some x => format_float k x
  | None => "nan"
  end.

(** *** Mutators *)

Definition update_satellite_position (self : ThreatAnalyzer)
           (position : SatellitePosition) : ThreatAnalyzer :=
  let sat := SatellitePosition.satellite_id position in
  let d0 := satellite_positions self in
  let d1 := if negb (Py.contains d0 sat) then Py.set d0 sat [] else d0 in
  let d2 :=
    match Py.get d1 sat with
    | Some h => Py.set d1 sat (h ++ [position])%list
    | None => d1
    end in
  let d3 :=
    match Py.get d2 sat with
    | Some h =>
        if (100 <? length h)%nat then Py.set d2 sat (Py.lastn 100 h)
        else d2
    | None => d2
    end in
  mkAnalyzer (threat_events self) d3.

Definition add_threat_event (self : ThreatAnalyzer) (threat : ThreatEvent)
  : ThreatAnalyzer :=
  let l := (threat_events self ++ [threat])%list in
  mkAnalyzer (if (1000 <? length l)%nat then Py.lastn 1000 l else l)
             (satellite_positions self).

(** *** Distance *)

Definition _calculate_3d_distance (pos1 pos2 : SatellitePosition) : R :=
  let R_earth := 6371%R in
  let lat1 := Np.radians (SatellitePosition.latitude pos1) in
  let lon1 := Np.radians (SatellitePosition.longitude pos1) in
  let alt1 := SatellitePosition.altitude pos1 in
  let lat2 := Np.radians (SatellitePosition.latitude pos2) in
  let lon2 := Np.radians (SatellitePosition.longitude pos2) in
  let alt2 := SatellitePosition.altitude pos2 in
  let r1 := (R_earth + alt1)%R in
  let r2 := (R_earth + alt2)%R in
  let x1 := (r1 * cos lat1 * cos lon1)%R in
  let y1 := (r1 * cos lat1 * sin lon1)%R in
  let z1 := (r1 * sin lat1)%R in
  let x2 := (r2 * cos lat2 * cos lon2)%R in
  let y2 := (r2 * cos lat2 * sin lon2)%R in
  let z2 := (r2 * sin lat2)%R in
  sqrt ((x2 - x1) ^ 2 + (y2 - y1) ^ 2 + (z2 - z1) ^ 2)%R.

(** *** Velocity detector *)

(** The mask [abs(change - mean) > 2 * std]; a comparison with a missing
    value is false. *)
Definition velocity_mask (change mean_change std_change : option R)
  : bool :=
  match change, mean_change, std_change with
  | Some c, Some m, Some s => Np.gtb (Rabs (c - m)) (2 * s)
  | _, _, _ => false
  end.

Definition velocity_event (sat_id : Z) (row : Row.t * option R)
  : ThreatEvent :=
  let r := fst row in
  ThreatEvent.mk
    ("VEL_ANOMALY_" ++ Py.str sat_id ++ "_"
       ++ Py.str (epoch_seconds (Row.timestamp r)))
    (Row.timestamp r)
    (Row.lat r) (Row.lon r) (Row.lat r) (Row.lon r)
    "VELOCITY_ANOMALY"
    "MEDIUM"
    (Some sat_id)
    ("Unusual velocity change detected: "
       ++ format_missing 2 (snd row) ++ " km/s").

Definition _detect_velocity_anomalies (df : list Row.t) (sat_id : Z)
  : list ThreatEvent :=
  if (length df <? 5)%nat then []
  else
    let vel_change := Pd.diff (map Row.vel df) in
    let mean_change := Pd.mean vel_change in
    let std_change := Pd.std vel_change in
    let anomalies :=
      filter (fun row => velocity_mask (snd row) mean_change std_change)
             (combine df vel_change) in
    map (velocity_event sat_id) anomalies.

(** *** Trajectory detector *)

Definition trajectory_event (sat_id : Z) (r : Row.t) : ThreatEvent :=
  ThreatEvent.mk
    ("TRAJ_ANOMALY_" ++ Py.str sat_id ++ "_"
       ++ Py.str (epoch_seconds (Row.timestamp r)))
    (Row.timestamp r)
    (Row.lat r) (Row.lon r) (Row.lat r) (Row.lon r)
    "TRAJECTORY_ANOMALY"
    "HIGH"
    (Some sat_id)
    ("Anomalous trajectory detected at position ("
       ++ format_float 2 (Row.lat r) ++ ", "
       ++ format_float 2 (Row.lon r) ++ ")").

Definition _detect_trajectory_anomalies (df : list Row.t) (sat_id : Z)
  : list ThreatEvent :=
  if (length df <? 10)%nat then []
  else
    let features_scaled :=
      Sk.zip3 (Sk.scale_column (map Row.lat df))
              (Sk.scale_column (map Row.lon df))
              (Sk.scale_column (map Row.alt df)) in
    let clusters := Sk.DBSCAN (1 / 2) 3 features_scaled in
    let anomaly_indices := Np.where_eq clusters (-1) in
    flat_map
      (fun idx =>
         match nth_error df idx with
         | Some row => [trajectory_event sat_id row]
         | None => []
         end)
      anomaly_indices.

(** *** Proximity detector *)

Definition proximity_event (sat_id other_sat_id : Z)
           (current_pos other_pos : SatellitePosition) (distance : R)
  : ThreatEvent :=
  ThreatEvent.mk
    ("PROXIMITY_THREAT_" ++ Py.str sat_id ++ "_" ++ Py.str other_sat_id
       ++ "_"
       ++ Py.str (epoch_seconds (SatellitePosition.timestamp current_pos)))
    (SatellitePosition.timestamp current_pos)
    (SatellitePosition.latitude current_pos)
    (SatellitePosition.longitude current_pos)
    (SatellitePosition.latitude other_pos)
    (SatellitePosition.longitude other_pos)
    "PROXIMITY_THREAT"
    "CRITICAL"
    (Some sat_id)
    ("Collision risk with satellite " ++ Py.str other_sat_id ++ ": "
       ++ format_float 1 distance ++ "km separation").

(** The body of the loop over the other satellites. *)
Definition proximity_step (sat_id : Z) (current_pos : SatellitePosition)
           (threats : list ThreatEvent)
           (item : Z * list SatellitePosition) : list ThreatEvent :=
  let (other_sat_id, pos_history) := item in
  if (other_sat_id =? sat_id)%Z then threats
  else
    match Py.last_opt pos_history with
    | None => threats
    | Some other_pos =>
        let distance := _calculate_3d_distance current_pos other_pos in
        if Np.ltb distance 100
        then (threats
                ++ [proximity_event sat_id other_sat_id current_pos
                      other_pos distance])%list
        else threats
    end.

Definition _detect_proximity_threats (self : ThreatAnalyzer) (sat_id : Z)
           (current_pos : SatellitePosition) : list ThreatEvent :=
  fold_left (proximity_step sat_id current_pos)
            (satellite_positions self) [].

(** *** Orchestrator *)

Definition row_of_pos (pos : SatellitePosition) : Row.t :=
  Row.mk (SatellitePosition.latitude pos)
         (SatellitePosition.longitude pos)
         (SatellitePosition.altitude pos)
         (SatellitePosition.velocity pos)
         (SatellitePosition.timestamp pos).

(** The body of the loop over the stored satellites. *)
Definition analyze_step (self : ThreatAnalyzer)
           (threats : list ThreatEvent)
           (item : Z * list SatellitePosition) : list ThreatEvent :=
  let (sat_id, pos_history) := item in
  if (length pos_history <? 10)%nat then threats
  else
    let df := map row_of_pos (Py.lastn 50 pos_history) in
    let threats1 :=
      (threats ++ _detect_velocity_anomalies df sat_id)%list in
    let threats2 :=
      (threats1 ++ _detect_trajectory_anomalies df sat_id)%list in
    match Py.last_opt pos_history with
    | Some current_pos =>
        (threats2 ++ _detect_proximity_threats self sat_id current_pos)%list
    | None => threats2
    end.

(** The argument [positions] is not read by the body. *)
Definition analyze_satellite_anomalies (self : ThreatAnalyzer)
           (positions : list SatellitePosition) : list ThreatEvent :=
  fold_left (analyze_step self) (satellite_positions self) [].

(** *** Threat zones *)

Definition trow_of_event (e : ThreatEvent) : TRow.t :=
  TRow.mk (ThreatEvent.source_lat e) (ThreatEvent.source_lon e)
          (ThreatEvent.severity e) (ThreatEvent.threat_type e).

(** The dictionary [severity_scores]. *)
Definition severity_scores (s : string) : option R :=
  if String.eqb s "LOW" then Some 1%R
  else if String.eqb s "MEDIUM" then Some 2%R
  else if String.eqb s "HIGH" then Some 3%R
  else if String.eqb s "CRITICAL" then Some 4%R
  else None.

(** The chained conditional on [avg_severity]; every comparison with a
    missing average is false. *)
Definition zone_severity (avg_severity : option R) : string :=
  match avg_severity with
  | Some a =>
      if Np.ltb a (3 / 2) then "LOW"
      else if Np.ltb a (5 / 2) then "MEDIUM"
      else if Np.ltb a (7 / 2) then "HIGH"
      else "CRITICAL"
  | None => "CRITICAL"
  end.

Definition make_zone (cluster_id : Z) (cluster_threats : list TRow.t)
  : Zone.t :=
  let center_lat := Np.mean (map TRow.lat cluster_threats) in
  let center_lon := Np.mean (map TRow.lon cluster_threats) in
  let avg_severity :=
    Pd.mean (map (fun r => severity_scores (TRow.severity r))
                 cluster_threats) in
  Zone.mk ("ZONE_" ++ Py.str cluster_id)
          center_lat center_lon
          500
          (zone_severity avg_severity)
          (length cluster_threats)
          (hd "" (Pd.mode (map TRow.type cluster_threats))).

(** The body of the loop over the cluster labels. *)
Definition zone_step (threat_df : list TRow.t) (clusters : list Z)
           (zones : list Zone.t) (cluster_id : Z) : list Zone.t :=
  if (cluster_id =? -1)%Z then zones
  else
    (zones ++ [make_zone cluster_id
                 (Np.select threat_df clusters cluster_id)])%list.

Definition zone_features (threat_df : list TRow.t) : list (list R) :=
  map (fun r => [TRow.lat r; TRow.lon r]) threat_df.

Definition generate_threat_zones (self : ThreatAnalyzer) : list Zone.t :=
  let threat_df :=
    map trow_of_event (Py.lastn 100 (threat_events self)) in
  if (length threat_df <? 3)%nat then []
  else
    let clusters := Sk.DBSCAN 5 3 (zone_features threat_df) in
    fold_left (zone_step threat_df clusters) (Np.unique clusters) [].

(** *** Communication paths *)

(** The latest sample of every satellite that has one. *)
Definition current_positions (self : ThreatAnalyzer)
  : Py.dict SatellitePosition :=
  fold_left
    (fun cur (item : Z * list SatellitePosition) =>
       match Py.last_opt (snd item) with
       | Some p => Py.set cur (fst item) p
       | None => cur
       end)
    (satellite_positions self) [].

Definition link_quality (distance : R) : string :=
  if Np.ltb distance 500 then "EXCELLENT"
  else if Np.ltb distance 1000 then "GOOD"
  else "POOR".

Definition make_path (sat1_id sat2_id : Z) (pos1 pos2 : SatellitePosition)
           (distance : R) : Path.t :=
  Path.mk ("LINK_" ++ Py.str sat1_id ++ "_" ++ Py.str sat2_id)
          sat1_id sat2_id
          (SatellitePosition.latitude pos1)
          (SatellitePosition.longitude pos1)
          (SatellitePosition.latitude pos2)
          (SatellitePosition.longitude pos2)
          distance
          (link_quality distance)
          true.

(** The body of the inner loop, for the positions [i < j] of the key
    list. *)
Definition path_step (cur : Py.dict SatellitePosition) (sat_ids : list Z)
           (i : nat) (paths : list Path.t) (j : nat) : list Path.t :=
  let sat1_id := nth i sat_ids 0%Z in
  let sat2_id := nth j sat_ids 0%Z in
  match Py.get cur sat1_id, Py.get cur sat2_id with
  | Some pos1, Some pos2 =>
      let distance := _calculate_3d_distance pos1 pos2 in
      if Np.ltb distance 2000
      then (paths ++ [make_path sat1_id sat2_id pos1 pos2 distance])%list
      else paths
  | _, _ => paths
  end.

Definition generate_communication_paths (self : ThreatAnalyzer)
  : list Path.t :=
  let cur := current_positions self in
  let sat_ids := Py.keys cur in
  let n := length sat_ids in
  fold_left
    (fun paths i =>
       fold_left (path_step cur sat_ids i) (seq (i + 1) (n - (i + 1)))
                 paths)
    (seq 0 n) [].

End Methods.

(* ================================================================== *)
(** * Part I, continued: the vocabulary of the statements             *)
(* ================================================================== *)

(** ** The store *)

(** The operations that write to the store. *)
Inductive record_op : Type :=
| RecordPosition (position : SatellitePosition)
| RecordEvent (threat : ThreatEvent).

Definition record (self : ThreatAnalyzer) (op : record_op) : ThreatAnalyzer :=
  match op with
  | RecordPosition position => update_satellite_position self position
  | RecordEvent threat => add_threat_event self threat
  end.

(** The stored history of a satellite, empty when it is unknown. *)
Definition history (self : ThreatAnalyzer) (sat_id : Z)
  : list SatellitePosition :=
  match Py.get (satellite_positions self) sat_id with
  | Some h => h
  | None => []
  end.

Definition bounded (self : ThreatAnalyzer) : Prop :=
  (length (threat_events self) <= 1000)%nat /\
  forall sat_id h,
    In (sat_id, h) (satellite_positions self) -> (length h <= 100)%nat.

Definition wf_store (self : ThreatAnalyzer) : Prop :=
  NoDup (Py.keys (satellite_positions self)).

(** The latest stored sample of a satellite. *)
Definition latest (self : ThreatAnalyzer) (sat_id : Z)
  : option SatellitePosition :=
  match Py.get (satellite_positions self) sat_id with
  | Some h => Py.last_opt h
  | None => None
  end.

(** ** Communication paths *)

(** The entries of [current_positions] for a store with unique keys. *)
Definition latest_entries (d : Py.dict (list SatellitePosition))
  : Py.dict SatellitePosition :=
  flat_map (fun item : Z * list SatellitePosition =>
              match Py.last_opt (snd item) with
              | Some p => [(fst item, p)]
              | None => []
              end) d.

(** The path of an ordered pair of entries, when they are in range. *)
Definition path_of (e1 e2 : Z * SatellitePosition) : list Path.t :=
  let distance := _calculate_3d_distance (snd e1) (snd e2) in
  if Np.ltb distance 2000
  then [make_path (fst e1) (fst e2) (snd e1) (snd e2) distance]
  else [].

(** Every entry paired with each later entry. *)
Fixpoint pairs_paths (cur : Py.dict SatellitePosition) : list Path.t :=
  match cur with
  | [] => []
  | e1 :: rest => flat_map (path_of e1) rest ++ pairs_paths rest
  end.

(** The path joins satellites [a] and [b], in either direction. *)
Definition links (a b : Z) (p : Path.t) : bool :=
  ((Path.source_id p =? a)%Z && (Path.target_id p =? b)%Z)
  || ((Path.source_id p =? b)%Z && (Path.target_id p =? a)%Z).

(** ** The detectors *)

(** The events of the proximity detector for one other satellite. *)
Definition proximity_item (format_float : nat -> R -> string) (sat_id : Z)
           (current_pos : SatellitePosition)
           (item : Z * list SatellitePosition) : list ThreatEvent :=
  if (fst item =? sat_id)%Z then []
  else
    match Py.last_opt (snd item) with
    | None => []
    | Some other_pos =>
        let distance := _calculate_3d_distance current_pos other_pos in
        if Np.ltb distance 100
        then [proximity_event format_float sat_id (fst item) current_pos
                other_pos distance]
        else []
    end.

(** The last 50 samples of a history, as rows. *)
Definition window (pos_history : list SatellitePosition) : list Row.t :=
  map row_of_pos (Py.lastn 50 pos_history).

(** The events of the three detectors for one stored satellite. *)
Definition detectors_for (format_float : nat -> R -> string)
           (self : ThreatAnalyzer) (item : Z * list SatellitePosition)
  : list ThreatEvent :=
  if (length (snd item) <? 10)%nat then []
  else
    _detect_velocity_anomalies format_float (window (snd item)) (fst item)
    ++ _detect_trajectory_anomalies format_float (window (snd item))
         (fst item)
    ++ match Py.last_opt (snd item) with
       | Some current_pos =>
           _detect_proximity_threats format_float self (fst item)
             current_pos
       | None => []
       end.

(** What a proximity event of [a] against [b] carries. *)
Definition proximity_report (format_float : nat -> R -> string) (a b : Z)
           (pa pb : SatellitePosition) (e : ThreatEvent) : Prop :=
  ThreatEvent.threat_type e = "PROXIMITY_THREAT"%string /\
  ThreatEvent.severity e = "CRITICAL"%string /\
  ThreatEvent.satellite_id e = Some a /\
  ThreatEvent.source_lat e = SatellitePosition.latitude pa /\
  ThreatEvent.source_lon e = SatellitePosition.longitude pa /\
  ThreatEvent.target_lat e = SatellitePosition.latitude pb /\
  ThreatEvent.target_lon e = SatellitePosition.longitude pb /\
  ThreatEvent.description e =
  ("Collision risk with satellite " ++ Py.str b ++ ": "
     ++ format_float 1%nat (_calculate_3d_distance pa pb)
     ++ "km separation")%string.

(** A VELOCITY_ANOMALY event of the given satellite. *)
Definition velocity_anomaly_of (sat_id : Z) (e : ThreatEvent) : bool :=
  String.eqb (ThreatEvent.threat_type e) "VELOCITY_ANOMALY"
  && match ThreatEvent.satellite_id e with
     | Some s => (s =? sat_id)%Z
     | None => false
     end.

(** The event carries the coordinate of the sample as source and target. *)
Definition refers_to (e : ThreatEvent) (p : SatellitePosition) : Prop :=
  ThreatEvent.source_lat e = SatellitePosition.latitude p /\
  ThreatEvent.source_lon e = SatellitePosition.longitude p /\
  ThreatEvent.target_lat e = SatellitePosition.latitude p /\
  ThreatEvent.target_lon e = SatellitePosition.longitude p.

(** Twelve speeds at 7.5 km/s except the sixth at 9.0 km/s. *)
Definition spike_speeds : list R :=
  [15 / 2; 15 / 2; 15 / 2; 15 / 2; 15 / 2; 9;
   15 / 2; 15 / 2; 15 / 2; 15 / 2; 15 / 2; 15 / 2]%R.

Definition spike_changes : list (option R) :=
  [None; Some 0; Some 0; Some 0; Some 0; Some (3 / 2); Some (- (3 / 2));
   Some 0; Some 0; Some 0; Some 0; Some 0]%R.

(** ** Clusters and zones *)

(** The number of samples that carry a label. *)
Definition cluster_size (labels : list Z) (c : Z) : nat :=
  length (filter (fun l => (l =? c)%Z) labels).

(** The positions that carry a label. *)
Definition members (labels : list Z) (c : Z) : list nat :=
  filter (fun j => (Sk.label_of labels j =? c)%Z) (seq 0 (length labels)).

(** The state of the cluster expansion of DBSCAN, for [n] samples and a
    neighbour test [nb], with a minimum neighbourhood size of 3. *)
Section DbscanState.

Variable n : nat.
Variable nb : nat -> nat -> bool.

Local Abbreviation N := (Sk.neighborhood n nb).
Local Abbreviation core := (Sk.is_core n nb 3).
Local Abbreviation lab := Sk.label_of.
Local Abbreviation noise := (-1)%Z.

(** A labelled core sample has every neighbour labelled or awaiting on
    the work list. *)
Definition closed (labels : list Z) (work : list nat) : Prop :=
  forall u v,
    (u < n)%nat -> lab labels u <> noise -> core u = true ->
    In v (N u) ->
    lab labels v <> noise \/ In v work.

(** A sample that is not a core sample is near a labelled core sample. *)
Definition near_core (labels : list Z) (v : nat) : Prop :=
  core v = false ->
  exists u, (u < n)%nat /\ core u = true /\ nb u v = true /\
            lab labels u <> noise.

Definition supported (labels : list Z) : Prop :=
  forall v, (v < n)%nat -> lab labels v <> noise -> near_core labels v.

Definition work_ok (labels : list Z) (work : list nat) : Prop :=
  forall v, In v work -> (v < n)%nat /\ near_core labels v.

Definition loop_inv (labels : list Z) (work : list nat) : Prop :=
  length labels = n /\ closed labels work /\ supported labels /\
  work_ok labels work.

(** The work list after labelling sample [i]. *)
Definition pushed (labels' : list Z) (i : nat) (stack : list nat)
  : list nat :=
  if core i
  then rev (filter (Sk.unlabelled labels') (N i)) ++ stack
  else stack.

(** Steps left: a labelling removes one unlabelled sample and pushes at
    most [n]; any other step pops one. *)
Definition steps_left (labels : list Z) (work : list nat) : nat :=
  cluster_size labels noise * S n + length work.

Definition outer_inv (st : list Z * Z) : Prop :=
  let (labels, k) := st in
  length labels = n /\ (0 <= k)%Z /\
  (forall j, lab labels j = noise \/ (0 <= lab labels j < k)%Z) /\
  closed labels [] /\ supported labels /\
  forall c, (0 <= c < k)%Z -> (3 <= cluster_size labels c)%nat.

(** Labels only change from noise to [c]. *)
Definition extends (c : Z) (l l' : list Z) : Prop :=
  length l' = length l /\
  forall j, lab l' j = lab l j \/ (lab l j = noise /\ lab l' j = c).

End DbscanState.

(** The zone of one cluster label. *)
Definition zone_of (threat_df : list TRow.t) (clusters : list Z)
           (cluster_id : Z) : list Zone.t :=
  if (cluster_id =? -1)%Z then []
  else [make_zone cluster_id (Np.select threat_df clusters cluster_id)].

(** The frame and the labels that [generate_threat_zones] works on. *)
Definition threat_frame (self : ThreatAnalyzer) : list TRow.t :=
  map trow_of_event (Py.lastn 100 (threat_events self)).

Definition zone_clusters (self : ThreatAnalyzer) : list Z :=
  Sk.DBSCAN 5 3 (zone_features (threat_frame self)).

(** The rows of the cluster with label [c]. *)
Definition cluster_rows (self : ThreatAnalyzer) (c : Z) : list TRow.t :=
  Np.select (threat_frame self) (zone_clusters self) c.




(** The zone summary in the words of the specification. *)
Module Spec.

Inductive Severity : Type := LOW | MEDIUM | HIGH | CRITICAL.

Definition name (s : Severity) : string :=
  match s with
  | LOW => "LOW"
  | MEDIUM => "MEDIUM"
  | HIGH => "HIGH"
  | CRITICAL => "CRITICAL"
  end.

(** The rank table: LOW = 1 up to CRITICAL = 4. *)
Definition rank (s : Severity) : R :=
  match s with
  | LOW => 1
  | MEDIUM => 2
  | HIGH => 3
  | CRITICAL => 4
  end.

(** LOW below 1.5, MEDIUM below 2.5, HIGH below 3.5, else CRITICAL. *)
Definition bucket (avg : R) : Severity :=
  if Rlt_dec avg (3 / 2) then LOW
  else if Rlt_dec avg (5 / 2) then MEDIUM
  else if Rlt_dec avg (7 / 2) then HIGH
  else CRITICAL.

(** The kind [k] is the most frequent of [kinds]; among the kinds that
    are as frequent it comes first in ascending order of the names. *)
Definition dominant (kinds : list string) (k : string) : Prop :=
  In k kinds /\
  (forall k', (Pd.count k' kinds <= Pd.count k kinds)%nat) /\
  (forall k', Pd.count k' kinds = Pd.count k kinds ->
              String.leb k k' = true).


(** The zone [z] summarizes the member events, whose severities are
    [sevs]: the centre is the mean of their source coordinates. *)
Definition summarizes (members : list ThreatEvent) (sevs : list Severity)
           (z : Zone.t) : Prop :=
  Zone.center_lat z = Np.mean (map ThreatEvent.source_lat members) /\
  Zone.center_lon z = Np.mean (map ThreatEvent.source_lon members) /\
  Zone.severity z = name (bucket (Np.mean (map rank sevs))) /\
  dominant (map ThreatEvent.threat_type members) (Zone.dominant_threat z) /\
  Zone.radius z = 500%Z /\
  Zone.threat_count z = length members.

End Spec.

(** ** Concrete stores *)

(** A formatter for the concrete instances below: the text it produces
    plays no part in any statement. *)
Definition plain_format (k : nat) (x : R) : string := "#"%string.

Definition steady_row (t : Z) : Row.t := Row.mk 10 20 500 (15 / 2) t.

Definition steady_window : list Row.t := map steady_row [1; 2; 3; 4; 5; 6]%Z.

Definition one_event : ThreatEvent :=
  ThreatEvent.mk "SIM_1" 1%Z 10 20 30 40 "DEBRIS_FIELD" "LOW" (Some 1%Z) "".

Definition tick (sat_id : Z) (i : nat) : SatellitePosition :=
  SatellitePosition.mk sat_id 0 (INR i) 500 (15 / 2) (Z.of_nat i).

Definition above_origin (sat_id : Z) (alt : R) (t : Z) : SatellitePosition :=
  SatellitePosition.mk sat_id 0 0 alt (15 / 2) t.

Definition two_far_apart : ThreatAnalyzer :=
  mkAnalyzer [] [(1%Z, [above_origin 1 500 1]);
                 (2%Z, [above_origin 2 2000 1])].

Definition ten_ticks : list Z := [1; 2; 3; 4; 5; 6; 7; 8; 9; 10]%Z.

(** Satellite 1 with ten samples and satellite 2 with one sample, 50 km
    above it. *)
Definition crowded : ThreatAnalyzer :=
  mkAnalyzer [] [(1%Z, map (above_origin 1 500) ten_ticks);
                 (2%Z, [above_origin 2 550 10])].

(** Two satellites with one sample each, 50 km apart. *)
Definition two_close : ThreatAnalyzer :=
  mkAnalyzer [] [(1%Z, [above_origin 1 500 10]);
                 (2%Z, [above_origin 2 550 10])].

Definition spike_history : list SatellitePosition :=
  map (fun tv : Z * R =>
         SatellitePosition.mk 7 0 (IZR (fst tv)) 500 (snd tv) (fst tv))
      (combine [1; 2; 3; 4; 5; 6; 7; 8; 9; 10; 11; 12]%Z spike_speeds).

Definition spike_store : ThreatAnalyzer :=
  mkAnalyzer [] [(7%Z, spike_history)].

(** Three events at the same place, of three kinds and three severities. *)
Definition hot_spot : ThreatAnalyzer :=
  mkAnalyzer
    [ThreatEvent.mk "SIM_1" 1%Z 10 20 30 40 "VELOCITY_ANOMALY" "LOW"
                    (Some 1%Z) "";
     ThreatEvent.mk "SIM_2" 2%Z 10 20 31 41 "DEBRIS_FIELD" "HIGH"
                    (Some 2%Z) "";
     ThreatEvent.mk "SIM_3" 3%Z 10 20 32 42 "PROXIMITY_THREAT" "CRITICAL"
                    (Some 3%Z) ""]
    [].

(* ================================================================== *)
(** * Part I, continued: the other functions of the source            *)
(* ================================================================== *)

(** ** A [dict] with [str] keys *)

Module PyStr.

Definition dict (V : Type) : Type := list (string * V).

Fixpoint get {V : Type} (d : dict V) (k : string) : option V :=
  match d with
  | [] => None
  | (k', v) :: d' => if String.eqb k' k then Some v else get d' k
  end.

Definition contains {V : Type} (d : dict V) (k : string) : bool :=
  match get d k with
  | Some _ => true
  | None => false
  end.

(** [d[k] = v]: an existing key keeps its place, a new key goes last. *)
Fixpoint set {V : Type} (d : dict V) (k : string) (v : V) : dict V :=
  match d with
  | [] => [(k, v)]
  | (k', v') :: d' =>
      if String.eqb k' k then (k', v) :: d' else (k', v') :: set d' k v
  end.

Definition keys {V : Type} (d : dict V) : list string := map fst d.

Definition values {V : Type} (d : dict V) : list V := map snd d.

End PyStr.

(** ** Recent threats and statistics *)

(** The exceptions these two methods raise, and the outcome of a call. *)
Inductive exception : Type := OverflowError | TypeError.

Inductive result (A : Type) : Type :=
| Return (value : A)
| Raise (e : exception).

Arguments Return {A} value.
Arguments Raise {A} e.

(** [datetime.min] (year 1) and [datetime.max] (the last microsecond of
    year 9999), in microseconds since the epoch. *)
Definition datetime_min : datetime := (-62135596800000000)%Z.

Definition datetime_max : datetime := 253402300799999999%Z.

(** [timedelta(hours=hours)], in microseconds: the constructor raises when
    the number of whole days is beyond 999999999 either way. *)
Definition timedelta_hours (hours : Z) : result Z :=
  let microseconds := (hours * 3600000000)%Z in
  let days := (microseconds / 86400000000)%Z in
  if andb (-999999999 <=? days)%Z (days <=? 999999999)%Z
  then Return microseconds
  else Raise OverflowError.

(** [t - delta] on a [datetime]: the result has to be a [datetime]. *)
Definition datetime_sub (t : datetime) (delta : Z) : result datetime :=
  let r := (t - delta)%Z in
  if andb (datetime_min <=? r)%Z (r <=? datetime_max)%Z
  then Return r
  else Raise OverflowError.

(** The comprehension [[t for t in self.threat_events if t.timestamp >=
    cutoff_time]].  The cutoff is naive, as [datetime.now()] is.  Whether
    a stored timestamp carries a UTC offset is not part of the number of
    microseconds that stands for it: [aware t] holds when the timestamp of
    [t] does, and comparing it with the cutoff raises. *)
Fixpoint recent_from (aware : ThreatEvent -> bool) (cutoff_time : datetime)
         (threat_events : list ThreatEvent) : result (list ThreatEvent) :=
  match threat_events with
  | [] => Return []
  | t :: rest =>
      if aware t then Raise TypeError
      else
        match recent_from aware cutoff_time rest with
        | Return kept =>
            Return (if (cutoff_time <=? ThreatEvent.timestamp t)%Z
                    then t :: kept else kept)
        | Raise e => Raise e
        end
  end.

(** [get_recent_threats]; [now] is the value of [datetime.now()]. *)
Definition get_recent_threats (aware : ThreatEvent -> bool)
           (now : datetime) (self : ThreatAnalyzer) (hours : Z)
  : result (list ThreatEvent) :=
  match timedelta_hours hours with
  | Raise e => Raise e
  | Return delta =>
      match datetime_sub now delta with
      | Raise e => Raise e
      | Return cutoff_time =>
          recent_from aware cutoff_time (threat_events self)
      end
  end.

(** The dictionary returned by [get_threat_statistics]. *)
Module Stats.
Record t : Type := mk {
  total_threats_24h : nat;
  critical_threats : nat;
  high_threats : nat;
  medium_threats : nat;
  low_threats : nat;
  threat_by_type : PyStr.dict nat;
  active_satellites : nat;
  threat_zones : nat;
  communication_links : nat
}.
End Stats.

(** [len([t for t in recent_threats if t.severity == name])]. *)
Definition count_severity (name : string) (recent_threats : list ThreatEvent)
  : nat :=
  length (filter (fun t => String.eqb (ThreatEvent.severity t) name)
                 recent_threats).

(** The body of the loop that counts by threat type. *)
Definition count_type_step (by_type : PyStr.dict nat) (threat : ThreatEvent)
  : PyStr.dict nat :=
  let threat_type := ThreatEvent.threat_type threat in
  let d :=
    if negb (PyStr.contains by_type threat_type)
    then PyStr.set by_type threat_type 0%nat
    else by_type in
  match PyStr.get d threat_type with
  | Some c => PyStr.set d threat_type (c + 1)%nat
  | None => d
  end.

(** [get_threat_statistics]: the call of [get_recent_threats] comes
    first, and what it raises is raised. *)
Definition get_threat_statistics (aware : ThreatEvent -> bool)
           (now : datetime) (self : ThreatAnalyzer) : result Stats.t :=
  match get_recent_threats aware now self 24 with
  | Raise e => Raise e
  | Return recent_threats =>
      Return
        (Stats.mk (length recent_threats)
                  (count_severity "CRITICAL" recent_threats)
                  (count_severity "HIGH" recent_threats)
                  (count_severity "MEDIUM" recent_threats)
                  (count_severity "LOW" recent_threats)
                  (fold_left count_type_step recent_threats [])
                  (length (satellite_positions self))
                  (length (generate_threat_zones self))
                  (length (generate_communication_paths self)))
  end.

(** ** The position endpoint of [threat_api.py] *)

(** [update_satellite_position] of the API, without the broadcast: the
    sample is stored, the analysis runs, every event it returns is added
    to the store, and their number is reported. *)
Definition post_satellite_position (format_float : nat -> R -> string)
           (self : ThreatAnalyzer) (position : SatellitePosition)
  : ThreatAnalyzer * nat :=
  let self1 := update_satellite_position self position in
  let new_threats :=
    analyze_satellite_anomalies format_float self1 [position] in
  let self2 := fold_left add_threat_event new_threats self1 in
  (self2, length new_threats).

(** ** The connection manager of [threat_api.py] *)

(** Connections are told apart by a number; [fails c] holds when sending
    to [c] raises.  No other coroutine changes the list while a broadcast
    runs. *)
Module ConnectionManager.

(** [l.remove(x)]: the first occurrence goes; [None] stands for the
    [ValueError] raised when there is none. *)
Fixpoint remove (l : list nat) (x : nat) : option (list nat) :=
  match l with
  | [] => None
  | y :: t =>
      if (y =? x)%nat then Some t
      else match remove t x with
           | Some t' => Some (y :: t')
           | None => None
           end
  end.

(** [connect], after the handshake. *)
Definition connect (active_connections : list nat) (websocket : nat)
  : list nat :=
  active_connections ++ [websocket].

Definition disconnect (active_connections : list nat) (websocket : nat)
  : option (list nat) :=
  remove active_connections websocket.

(** The loop of [broadcast] from position [i] of the list: the list
    iterator reads position [i] of the list as it is now and moves on, also
    after a removal.  The result is the list that is left and the
    connections that received the message, in order. *)
Fixpoint broadcast_from (fails : nat -> bool) (fuel i : nat)
         (active_connections sent : list nat) : list nat * list nat :=
  match fuel with
  | O => (active_connections, sent)
  | S fuel' =>
      match nth_error active_connections i with
      | None => (active_connections, sent)
      | Some connection =>
          if fails connection
          then
            let rest :=
              match remove active_connections connection with
              | Some l => l
              | None => active_connections
              end in
            broadcast_from fails fuel' (S i) rest sent
          else
            broadcast_from fails fuel' (S i) active_connections
                           (sent ++ [connection])
      end
  end.

Definition broadcast (fails : nat -> bool) (active_connections : list nat)
  : list nat * list nat :=
  broadcast_from fails (length active_connections) 0 active_connections [].

End ConnectionManager.

(** ** The vocabulary of the further properties *)

(** Every stored history is non-empty and holds only samples of the
    satellite it is filed under. *)
Definition filed (self : ThreatAnalyzer) : Prop :=
  forall sat_id h,
    In (sat_id, h) (satellite_positions self) ->
    h <> [] /\
    forall p, In p h -> SatellitePosition.satellite_id p = sat_id.

(** The number of samples within [eps] of sample [i], itself included. *)
Definition crowd (eps : R) (X : list (list R)) (i : nat) : nat :=
  length (Sk.neighborhood (length X) (Sk.within eps X) i).

(** The standardized features and the labels the detector works on. *)
Definition trajectory_features (df : list Row.t) : list (list R) :=
  Sk.zip3 (Sk.scale_column (map Row.lat df))
          (Sk.scale_column (map Row.lon df))
          (Sk.scale_column (map Row.alt df)).

Definition trajectory_clusters (df : list Row.t) : list Z :=
  Sk.DBSCAN (1 / 2) 3 (trajectory_features df).

Definition ten_rows : list Row.t :=
  map row_of_pos (map (above_origin 1 500) ten_ticks).

(** The ranks of the rows whose severity is one of the four names. *)
Definition known_ranks (rows : list TRow.t) : list R :=
  flat_map (fun r => match severity_scores (TRow.severity r) with
                     | Some x => [x]
                     | None => []
                     end) rows.

(** Three events at one place whose severities are not among the four
    names. *)
Definition unrated_spot : ThreatAnalyzer :=
  mkAnalyzer
    [ThreatEvent.mk "EXT_1" 1%Z 10 20 10 20 "DEBRIS_FIELD" "SEVERE"
                    None "";
     ThreatEvent.mk "EXT_2" 2%Z 10 20 10 20 "DEBRIS_FIELD" "SEVERE"
                    None "";
     ThreatEvent.mk "EXT_3" 3%Z 10 20 10 20 "DEBRIS_FIELD" "severe"
                    None ""]
    [].

(** The number of events of one threat type. *)
Definition count_type (k : string) (l : list ThreatEvent) : nat :=
  length (filter (fun t => String.eqb (ThreatEvent.threat_type t) k) l).

(** The severity is one of the four names. *)
Definition rated (e : ThreatEvent) : Prop :=
  In (ThreatEvent.severity e) ["CRITICAL"; "HIGH"; "MEDIUM"; "LOW"]%string.

(** What the counting loop has built after the events [done]. *)
Definition histogram_of (d : PyStr.dict nat) (done : list ThreatEvent)
  : Prop :=
  (forall k,
      PyStr.get d k =
      if (count_type k done =? 0)%nat then None
      else Some (count_type k done)) /\
  list_sum (PyStr.values d) = length done /\
  NoDup (PyStr.keys d).

(** The window of [hours] before [now] can be computed: the hours make a
    [timedelta] and the cutoff is a [datetime]. *)
Definition window_ok (now : datetime) (hours : Z) : Prop :=
  (-999999999 <= hours / 24 <= 999999999)%Z /\
  (datetime_min <= now - hours * 3600000000 <= datetime_max)%Z.

(** The stored events at or after the cutoff, [hours] before [now]. *)
Definition since (now : datetime) (hours : Z) (l : list ThreatEvent)
  : list ThreatEvent :=
  filter (fun t => (now - hours * 3600000000
                    <=? ThreatEvent.timestamp t)%Z) l.

(** No stored timestamp carries a UTC offset. *)
Definition all_naive (aware : ThreatEvent -> bool) (self : ThreatAnalyzer)
  : Prop :=
  forall e, In e (threat_events self) -> aware e = false.

(** A timestamp with a UTC offset on the second event only. *)
Definition second_aware (e : ThreatEvent) : bool :=
  String.eqb (ThreatEvent.id e) "SIM_2".

(** The list that is left when [connection], read from the list, fails. *)
Definition dropped (active_connections : list nat) (connection : nat)
  : list nat :=
  match ConnectionManager.remove active_connections connection with
  | Some l => l
  | None => active_connections
  end.

(* ================================================================== *)
(** * Part II: properties                                              *)
(* ================================================================== *)

(** ** Comparisons and reductions on reals *)

Lemma ltb_true (x y : R) : Np.ltb x y = true <-> (x < y)%R.
Proof.
  unfold Np.ltb. destruct (Rlt_dec x y); split; intro H;
    try reflexivity; try assumption; try discriminate; contradiction.
Qed.

Lemma ltb_false (x y : R) : Np.ltb x y = false <-> (y <= x)%R.
Proof.
  unfold Np.ltb. destruct (Rlt_dec x y); split; intro H;
    try reflexivity; try discriminate; lra.
Qed.

Lemma leb_true (x y : R) : Np.leb x y = true <-> (x <= y)%R.
Proof.
  unfold Np.leb. destruct (Rle_dec x y); split; intro H;
    try reflexivity; try assumption; try discriminate; contradiction.
Qed.

Lemma sum_zeros (l : list R) :
  Forall (fun x => x = 0%R) l -> Np.sum l = 0%R.
Proof.
  induction 1 as [|x l Hx _ IH]; simpl; [reflexivity|].
  rewrite Hx, IH. lra.
Qed.

Lemma mean_zeros (l : list R) :
  Forall (fun x => x = 0%R) l -> Np.mean l = 0%R.
Proof.
  intro H. unfold Np.mean. rewrite (sum_zeros _ H). unfold Rdiv. lra.
Qed.

(** ** The 3D distance *)

(** The sum of the squared coordinate differences is the same in both
    directions. *)
Lemma squares_swap (x1 y1 z1 x2 y2 z2 : R) :
  ((x2 - x1) ^ 2 + (y2 - y1) ^ 2 + (z2 - z1) ^ 2 =
   (x1 - x2) ^ 2 + (y1 - y2) ^ 2 + (z1 - z2) ^ 2)%R.
Proof. ring. Qed.

Lemma distance_swap (pos1 pos2 : SatellitePosition) :
  _calculate_3d_distance pos1 pos2 = _calculate_3d_distance pos2 pos1.
Proof.
  unfold _calculate_3d_distance. cbv zeta. apply (f_equal sqrt).
  apply squares_swap.
Qed.

(** C9. The computed 3D distance does not depend on the order of its two
    samples: [distance(A, B) = distance(B, A)] for any latitudes,
    longitudes and altitudes. *)
Theorem distance_symmetric (pos1 pos2 : SatellitePosition) :
  _calculate_3d_distance pos1 pos2 = _calculate_3d_distance pos2 pos1.
Proof.
  unfold _calculate_3d_distance. cbv zeta.
  rewrite (squares_swap _ _ _ _ _ _). reflexivity.
Qed.

Lemma distance_nonneg (pos1 pos2 : SatellitePosition) :
  (0 <= _calculate_3d_distance pos1 pos2)%R.
Proof. unfold _calculate_3d_distance. cbv zeta. apply sqrt_pos. Qed.

(** ** Constant speed series *)

Lemma diff_from_constant (v : R) (s : list R) :
  Forall (fun x => x = v) s ->
  Forall (fun c => c = Some 0%R) (Pd.diff_from v s).
Proof.
  induction 1 as [|x s Hx _ IH]; simpl; constructor.
  - subst x. f_equal. lra.
  - subst x. exact IH.
Qed.

Lemma diff_constant (v : R) (s : list R) :
  Forall (fun x => x = v) s ->
  Forall (fun c => c = None \/ c = Some 0%R) (Pd.diff s).
Proof.
  intro H. destruct H as [|x s Hx Hs]; simpl; constructor.
  - left. reflexivity.
  - subst x. eapply Forall_impl; [|apply (diff_from_constant _ _ Hs)].
    intros c Hc. right. exact Hc.
Qed.

Lemma valid_zeros (s : list (option R)) :
  Forall (fun c => c = None \/ c = Some 0%R) s ->
  Forall (fun x => x = 0%R) (Pd.valid s).
Proof.
  induction 1 as [|c s Hc _ IH]; simpl; [constructor|].
  destruct Hc as [-> | ->]; simpl; [exact IH|]. constructor; [reflexivity|exact IH].
Qed.

Lemma mean_of_zeros (s : list (option R)) (m : R) :
  Forall (fun c => c = None \/ c = Some 0%R) s ->
  Pd.mean s = Some m -> m = 0%R.
Proof.
  intros H. unfold Pd.mean. pose proof (valid_zeros _ H) as Hz.
  destruct (Pd.valid s) as [|x v] eqn:E; [discriminate|].
  intro Hm. injection Hm as <-. apply mean_zeros. exact Hz.
Qed.

Lemma std_of_zeros (s : list (option R)) (d : R) :
  Forall (fun c => c = None \/ c = Some 0%R) s ->
  Pd.std s = Some d -> d = 0%R.
Proof.
  intros H. unfold Pd.std. pose proof (valid_zeros _ H) as Hz.
  destruct (length (Pd.valid s) <=? 1)%nat; [discriminate|].
  intro Hd. injection Hd as <-.
  rewrite (mean_zeros _ Hz).
  rewrite sum_zeros.
  - unfold Rdiv. rewrite Rmult_0_l. apply sqrt_0.
  - apply Forall_map. eapply Forall_impl; [|exact Hz].
    intros x ->. simpl. lra.
Qed.

Lemma std_nonneg (s : list (option R)) (d : R) :
  Pd.std s = Some d -> (0 <= d)%R.
Proof.
  unfold Pd.std. destruct (length (Pd.valid s) <=? 1)%nat; [discriminate|].
  intro Hd. injection Hd as <-. apply sqrt_pos.
Qed.

Lemma mask_of_zeros (s : list (option R)) (c : option R) :
  Forall (fun c => c = None \/ c = Some 0%R) s ->
  (c = None \/ c = Some 0%R) ->
  velocity_mask c (Pd.mean s) (Pd.std s) = false.
Proof.
  intros Hs Hc. unfold velocity_mask.
  destruct Hc as [-> | ->]; [reflexivity|].
  destruct (Pd.mean s) as [m|] eqn:Em; [|reflexivity].
  destruct (Pd.std s) as [d|] eqn:Ed; [|reflexivity].
  rewrite (mean_of_zeros _ _ Hs Em), (std_of_zeros _ _ Hs Ed).
  unfold Np.gtb. apply ltb_false.
  rewrite Rminus_diag, Rabs_R0. lra.
Qed.

Lemma filter_none {A : Type} (f : A -> bool) (l : list A) :
  (forall x, In x l -> f x = false) -> filter f l = [].
Proof.
  induction l as [|x l IH]; simpl; intro H; [reflexivity|].
  rewrite (H x (or_introl eq_refl)). apply IH.
  intros y Hy. apply H. right. exact Hy.
Qed.

(** C8. A window whose speed values are all equal gives no
    VELOCITY_ANOMALY event: every first difference that is present is zero,
    the standard deviation of the differences, when it is defined, is zero,
    and the detector returns the empty list. *)
Theorem constant_speed_no_velocity_anomaly
        (format_float : nat -> R -> string) (df : list Row.t) (sat_id : Z)
        (v : R) :
  (forall row, In row df -> Row.vel row = v) ->
  Forall (fun c => c = 0%R) (Pd.valid (Pd.diff (map Row.vel df))) /\
  (forall d, Pd.std (Pd.diff (map Row.vel df)) = Some d -> d = 0%R) /\
  _detect_velocity_anomalies format_float df sat_id = [].
Proof.
  intro Hconst.
  assert (Hs : Forall (fun c => c = None \/ c = Some 0%R)
                      (Pd.diff (map Row.vel df))).
  { apply diff_constant with (v := v). apply Forall_map.
    apply Forall_forall. exact Hconst. }
  split; [apply valid_zeros; exact Hs|].
  split; [intros d Hd; apply (std_of_zeros _ _ Hs Hd)|].
  unfold _detect_velocity_anomalies.
  destruct (length df <? 5)%nat; [reflexivity|].
  cbv zeta. rewrite filter_none; [reflexivity|].
  intros [row c] Hin. simpl. apply mask_of_zeros; [exact Hs|].
  apply in_combine_r in Hin.
  rewrite Forall_forall in Hs. apply Hs. exact Hin.
Qed.

Lemma constant_speed_no_velocity_anomaly_witness :
  _detect_velocity_anomalies plain_format steady_window 7 = [].
Proof.
  apply (constant_speed_no_velocity_anomaly plain_format steady_window 7
           (15 / 2)%R).
  intros row Hin. unfold steady_window in Hin. apply in_map_iff in Hin.
  destruct Hin as [t [<- _]]. reflexivity.
Defined.

(** ** Inputs below the minimum count *)

(** C5. Below their minimum count the operations return the empty list:
    the velocity detector under 5 rows, the trajectory detector under 10
    rows, and zone generation when the window of the last 100 events holds
    under 3 events. *)
Theorem below_minimum_returns_empty (format_float : nat -> R -> string) :
  (forall df sat_id,
      (length df < 5)%nat ->
      _detect_velocity_anomalies format_float df sat_id = []) /\
  (forall df sat_id,
      (length df < 10)%nat ->
      _detect_trajectory_anomalies format_float df sat_id = []) /\
  (forall self,
      (length (Py.lastn 100 (threat_events self)) < 3)%nat ->
      generate_threat_zones self = []).
Proof.
  split; [|split].
  - intros df sat_id H. unfold _detect_velocity_anomalies.
    apply Nat.ltb_lt in H. rewrite H. reflexivity.
  - intros df sat_id H. unfold _detect_trajectory_anomalies.
    apply Nat.ltb_lt in H. rewrite H. reflexivity.
  - intros self H. unfold generate_threat_zones.
    rewrite length_map. apply Nat.ltb_lt in H. rewrite H. reflexivity.
Qed.

Lemma below_minimum_returns_empty_witness :
  _detect_velocity_anomalies plain_format (firstn 4 steady_window) 7 = [] /\
  _detect_trajectory_anomalies plain_format steady_window 7 = [] /\
  generate_threat_zones (mkAnalyzer [one_event; one_event] []) = [].
Proof.
  destruct (below_minimum_returns_empty plain_format) as (Hv & Ht & Hz).
  split; [|split].
  - apply Hv. simpl. lia.
  - apply Ht. simpl. lia.
  - apply Hz. simpl. lia.
Defined.

(** ** The bounded store *)

Lemma lastn_length {A : Type} (k : nat) (l : list A) :
  length (Py.lastn k l) = Nat.min k (length l).
Proof. unfold Py.lastn. rewrite length_skipn. lia. Qed.

Lemma lastn_all {A : Type} (k : nat) (l : list A) :
  (length l <= k)%nat -> Py.lastn k l = l.
Proof.
  intro H. unfold Py.lastn.
  replace (length l - k)%nat with 0%nat by lia. reflexivity.
Qed.

Lemma lastn_app_ge {A : Type} (k : nat) (l m : list A) :
  (k <= length m)%nat -> Py.lastn k (l ++ m) = Py.lastn k m.
Proof.
  intro H. unfold Py.lastn. rewrite length_app, skipn_app.
  rewrite skipn_all2 by lia. simpl. f_equal. lia.
Qed.

Lemma lastn_lastn_app {A : Type} (k : nat) (l m : list A) :
  Py.lastn k (Py.lastn k l ++ m) = Py.lastn k (l ++ m).
Proof.
  destruct (Nat.le_gt_cases (length l) k) as [Hle | Hgt].
  - rewrite (lastn_all _ l Hle). reflexivity.
  - pose proof (lastn_length k l) as Hlen.
    rewrite <- (firstn_skipn (length l - k) l) at 2.
    fold (Py.lastn k l). rewrite <- app_assoc.
    rewrite (@lastn_app_ge A k (firstn (length l - k) l)
                           (Py.lastn k l ++ m));
      [reflexivity|].
    rewrite length_app. lia.
Qed.

Lemma get_set_same {V : Type} (d : Py.dict V) (k : Z) (v : V) :
  Py.get (Py.set d k v) k = Some v.
Proof.
  induction d as [|[k' v'] d IH]; simpl.
  - rewrite Z.eqb_refl. reflexivity.
  - destruct (k' =? k)%Z eqn:E; simpl; rewrite E; [reflexivity|exact IH].
Qed.

Lemma get_set_other {V : Type} (d : Py.dict V) (k k' : Z) (v : V) :
  k <> k' -> Py.get (Py.set d k v) k' = Py.get d k'.
Proof.
  intro Hne. induction d as [|[k0 v0] d IH]; simpl.
  - destruct (k =? k')%Z eqn:E; [apply Z.eqb_eq in E; contradiction|].
    reflexivity.
  - destruct (k0 =? k)%Z eqn:E; simpl.
    + apply Z.eqb_eq in E. subst k0.
      destruct (k =? k')%Z eqn:E'; [apply Z.eqb_eq in E'; contradiction|].
      reflexivity.
    + destruct (k0 =? k')%Z; [reflexivity|exact IH].
Qed.

Lemma set_set {V : Type} (d : Py.dict V) (k : Z) (v v' : V) :
  Py.set (Py.set d k v) k v' = Py.set d k v'.
Proof.
  induction d as [|[k0 v0] d IH]; simpl.
  - rewrite Z.eqb_refl. reflexivity.
  - destruct (k0 =? k)%Z eqn:E; simpl; rewrite E; [reflexivity|].
    f_equal. exact IH.
Qed.

Lemma in_set {V : Type} (d : Py.dict V) (k k' : Z) (v v' : V) :
  In (k', v') (Py.set d k v) -> In (k', v') d \/ (k' = k /\ v' = v).
Proof.
  induction d as [|[k0 v0] d IH]; simpl.
  - intros [H | []]. injection H as <- <-. right. split; reflexivity.
  - destruct (k0 =? k)%Z eqn:E; simpl.
    + intros [H | H].
      * injection H as <- <-. apply Z.eqb_eq in E. right. split; auto.
      * left. right. exact H.
    + intros [H | H]; [left; left; exact H|].
      destruct (IH H) as [H' | H']; [left; right; exact H'|right; exact H'].
Qed.

Lemma keys_set_present {V : Type} (d : Py.dict V) (k : Z) (v : V) :
  Py.contains d k = true -> Py.keys (Py.set d k v) = Py.keys d.
Proof.
  unfold Py.contains, Py.keys.
  induction d as [|[k0 v0] d IH]; simpl; [discriminate|].
  destruct (k0 =? k)%Z eqn:E; simpl; [reflexivity|].
  intro H. f_equal. apply IH. exact H.
Qed.

Lemma keys_set_absent {V : Type} (d : Py.dict V) (k : Z) (v : V) :
  Py.contains d k = false -> Py.keys (Py.set d k v) = Py.keys d ++ [k].
Proof.
  unfold Py.contains, Py.keys.
  induction d as [|[k0 v0] d IH]; simpl; [reflexivity|].
  destruct (k0 =? k)%Z eqn:E; simpl; [discriminate|].
  intro H. f_equal. apply IH. exact H.
Qed.

(** What [update_satellite_position] leaves in the dictionary: the entry of
    the sample's satellite becomes the last 100 samples of its former
    history followed by the new sample. *)
Lemma update_satellite_position_spec (self : ThreatAnalyzer)
      (position : SatellitePosition) :
  satellite_positions (update_satellite_position self position) =
  Py.set (satellite_positions self)
         (SatellitePosition.satellite_id position)
         (Py.lastn 100
            (history self (SatellitePosition.satellite_id position)
               ++ [position])).
Proof.
  unfold update_satellite_position, history, Py.contains. cbv zeta. simpl.
  set (sat := SatellitePosition.satellite_id position).
  set (d0 := satellite_positions self).
  destruct (Py.get d0 sat) as [h|] eqn:Eg; simpl.
  - rewrite Eg, get_set_same.
    destruct (100 <? length (h ++ [position]))%nat eqn:El.
    + rewrite set_set. reflexivity.
    + apply Nat.ltb_ge in El. rewrite (lastn_all _ _ El). reflexivity.
  - rewrite get_set_same. simpl. rewrite set_set, get_set_same. simpl.
    reflexivity.
Qed.

Lemma update_history_same (self : ThreatAnalyzer)
      (position : SatellitePosition) :
  history (update_satellite_position self position)
          (SatellitePosition.satellite_id position) =
  Py.lastn 100
    (history self (SatellitePosition.satellite_id position) ++ [position]).
Proof.
  unfold history at 1. rewrite update_satellite_position_spec, get_set_same.
  reflexivity.
Qed.

Lemma update_history_other (self : ThreatAnalyzer)
      (position : SatellitePosition) (sat_id : Z) :
  SatellitePosition.satellite_id position <> sat_id ->
  Py.get (satellite_positions (update_satellite_position self position))
         sat_id =
  Py.get (satellite_positions self) sat_id.
Proof.
  intro H. rewrite update_satellite_position_spec.
  apply get_set_other. exact H.
Qed.

Lemma add_threat_event_spec (self : ThreatAnalyzer) (threat : ThreatEvent) :
  threat_events (add_threat_event self threat) =
  Py.lastn 1000 (threat_events self ++ [threat]).
Proof.
  unfold add_threat_event. simpl.
  destruct (1000 <? length (threat_events self ++ [threat]))%nat eqn:E;
    [reflexivity|].
  apply Nat.ltb_ge in E. symmetry. apply lastn_all. exact E.
Qed.

Lemma record_bounded (self : ThreatAnalyzer) (op : record_op) :
  bounded self -> bounded (record self op).
Proof.
  intros [He Hp]. destruct op as [position | threat]; simpl; split.
  - exact He.
  - intros sat_id h Hin. rewrite update_satellite_position_spec in Hin.
    apply in_set in Hin. destruct Hin as [Hin | [_ ->]].
    + apply (Hp _ _ Hin).
    + rewrite lastn_length. lia.
  - rewrite add_threat_event_spec, lastn_length. lia.
  - exact Hp.
Qed.

Lemma run_bounded (ops : list record_op) (self : ThreatAnalyzer) :
  bounded self -> bounded (fold_left record ops self).
Proof.
  revert self. induction ops as [|op ops IH]; simpl; intros self H;
    [exact H|].
  apply IH. apply record_bounded. exact H.
Qed.

Lemma record_positions_history (ps : list SatellitePosition)
      (self : ThreatAnalyzer) (sat_id : Z) :
  ps <> [] ->
  (forall p, In p ps -> SatellitePosition.satellite_id p = sat_id) ->
  history (fold_left update_satellite_position ps self) sat_id =
  Py.lastn 100 (history self sat_id ++ ps).
Proof.
  revert self. induction ps as [|p ps IH]; intros self Hne Hsat;
    [contradiction|].
  simpl. pose proof (Hsat p (or_introl eq_refl)) as Hp.
  destruct ps as [|q ps'].
  - simpl. rewrite <- Hp. apply update_history_same.
  - rewrite IH; [|discriminate|intros r Hr; apply Hsat; right; exact Hr].
    rewrite <- Hp at 1. rewrite update_history_same, Hp.
    rewrite lastn_lastn_app, <- app_assoc. reflexivity.
Qed.

(** C7. After any sequence of record operations on a new analyzer every
    position history holds at most 100 samples and the event history at
    most 1000 events.  Both are trimmed from the front: recording a sample
    leaves the last 100 of the former history followed by the sample,
    recording an event leaves the last 1000 of the former events followed
    by the event.  After 105 samples of one satellite recorded in a row, its
    history is the last 100 of them, in recording order. *)
Theorem store_bounded_fifo :
  (forall ops, bounded (fold_left record ops init)) /\
  (forall self position,
      history (update_satellite_position self position)
              (SatellitePosition.satellite_id position) =
      Py.lastn 100
        (history self (SatellitePosition.satellite_id position)
           ++ [position])) /\
  (forall self threat,
      threat_events (add_threat_event self threat) =
      Py.lastn 1000 (threat_events self ++ [threat])) /\
  (forall self sat_id ps,
      length ps = 105%nat ->
      (forall p, In p ps -> SatellitePosition.satellite_id p = sat_id) ->
      history (fold_left update_satellite_position ps self) sat_id =
      skipn 5 ps /\
      length (skipn 5 ps) = 100%nat).
Proof.
  split; [|split; [|split]].
  - intro ops. apply run_bounded. split; simpl; [lia|].
    intros sat_id h [].
  - apply update_history_same.
  - apply add_threat_event_spec.
  - intros self sat_id ps Hlen Hsat. split.
    + rewrite record_positions_history; [|destruct ps; [discriminate|discriminate]|exact Hsat].
      rewrite lastn_app_ge by lia. unfold Py.lastn. rewrite Hlen.
      reflexivity.
    + rewrite length_skipn. lia.
Qed.

Lemma store_bounded_fifo_witness :
  history (fold_left update_satellite_position (map (tick 7) (seq 0 105))
                     init) 7 =
  skipn 5 (map (tick 7) (seq 0 105)).
Proof.
  destruct store_bounded_fifo as (_ & _ & _ & H).
  apply (H init 7%Z (map (tick 7) (seq 0 105))).
  - rewrite length_map, length_seq. reflexivity.
  - intros p Hin. apply in_map_iff in Hin. destruct Hin as [i [<- _]].
    reflexivity.
Defined.

(** ** Loops that append *)

(** A loop whose body appends to the accumulator some list computed from
    the current element returns the concatenation of those lists. *)
Lemma fold_left_append {A B : Type} (f : list B -> A -> list B)
      (g : A -> list B) (l : list A) (acc : list B) :
  (forall acc x, In x l -> f acc x = acc ++ g x) ->
  fold_left f l acc = acc ++ flat_map g l.
Proof.
  revert acc. induction l as [|x l IH]; intros acc H; simpl.
  - rewrite app_nil_r. reflexivity.
  - rewrite (H acc x (or_introl eq_refl)).
    rewrite IH; [rewrite <- app_assoc; reflexivity|].
    intros acc' y Hy. apply H. right. exact Hy.
Qed.

Lemma flat_map_ext_in {A B : Type} (f g : A -> list B) (l : list A) :
  (forall x, In x l -> f x = g x) -> flat_map f l = flat_map g l.
Proof.
  induction l as [|x l IH]; simpl; intro H; [reflexivity|].
  rewrite (H x (or_introl eq_refl)). f_equal.
  apply IH. intros y Hy. apply H. right. exact Hy.
Qed.

Lemma flat_map_nth_error_seq {A B : Type} (h : A -> list B) (l : list A)
      (a : nat) :
  flat_map (fun j => match nth_error l j with
                     | Some e => h e
                     | None => []
                     end)
           (seq a (length l - a)) =
  flat_map h (skipn a l).
Proof.
  revert a. induction l as [|x l IH]; intro a.
  - simpl. rewrite skipn_nil. reflexivity.
  - destruct a as [|a].
    + simpl. f_equal. rewrite <- seq_shift, flat_map_concat_map, map_map.
      rewrite <- flat_map_concat_map.
      specialize (IH 0%nat). rewrite Nat.sub_0_r in IH. exact IH.
    + simpl. rewrite <- seq_shift, flat_map_concat_map, map_map.
      rewrite <- flat_map_concat_map. apply IH.
Qed.

(** ** Dictionaries with unique keys *)

Lemma contains_keys {V : Type} (d : Py.dict V) (k : Z) :
  Py.contains d k = true <-> In k (Py.keys d).
Proof.
  unfold Py.contains, Py.keys.
  induction d as [|[k0 v0] d IH]; simpl.
  - split; [discriminate|intros []].
  - destruct (k0 =? k)%Z eqn:E.
    + apply Z.eqb_eq in E. split; auto.
    + apply Z.eqb_neq in E. rewrite IH. split; [auto|].
      intros [H | H]; [contradiction|exact H].
Qed.

Lemma get_in {V : Type} (d : Py.dict V) (k : Z) (v : V) :
  Py.get d k = Some v -> In (k, v) d.
Proof.
  induction d as [|[k0 v0] d IH]; simpl; [discriminate|].
  destruct (k0 =? k)%Z eqn:E.
  - apply Z.eqb_eq in E. intro H. injection H as <-. subst k0. left.
    reflexivity.
  - intro H. right. apply IH. exact H.
Qed.

Lemma in_get {V : Type} (d : Py.dict V) (k : Z) (v : V) :
  NoDup (Py.keys d) -> In (k, v) d -> Py.get d k = Some v.
Proof.
  unfold Py.keys. induction d as [|[k0 v0] d IH]; simpl; [intros _ []|].
  intros Hnd Hin. inversion Hnd as [|? ? Hni Hnd']; subst.
  destruct Hin as [Heq | Hin].
  - injection Heq as -> ->. rewrite Z.eqb_refl. reflexivity.
  - destruct (k0 =? k)%Z eqn:E.
    + apply Z.eqb_eq in E. subst k0. exfalso. apply Hni.
      apply in_map_iff. exists (k, v). split; [reflexivity|exact Hin].
    + apply IH; assumption.
Qed.

Lemma set_absent {V : Type} (d : Py.dict V) (k : Z) (v : V) :
  ~ In k (Py.keys d) -> Py.set d k v = d ++ [(k, v)].
Proof.
  unfold Py.keys. induction d as [|[k0 v0] d IH]; simpl; intro H;
    [reflexivity|].
  destruct (k0 =? k)%Z eqn:E.
  - apply Z.eqb_eq in E. exfalso. apply H. left. exact E.
  - f_equal. apply IH. intro Hin. apply H. right. exact Hin.
Qed.

Lemma init_wf : wf_store init.
Proof. constructor. Qed.

Lemma record_wf (self : ThreatAnalyzer) (op : record_op) :
  wf_store self -> wf_store (record self op).
Proof.
  unfold wf_store. intro H. destruct op as [position | threat];
    unfold record; [|exact H].
  rewrite update_satellite_position_spec.
  destruct (Py.contains (satellite_positions self)
                        (SatellitePosition.satellite_id position)) eqn:E.
  - rewrite keys_set_present by exact E. exact H.
  - rewrite keys_set_absent by exact E.
    apply NoDup_app; [exact H|constructor; [intros []|constructor]|].
    intros k Hk [<- | []].
    apply contains_keys in Hk. congruence.
Qed.

(** ** Communication paths *)

Lemma keys_latest_entries (d : Py.dict (list SatellitePosition)) (k : Z) :
  In k (Py.keys (latest_entries d)) -> In k (Py.keys d).
Proof.
  unfold Py.keys. induction d as [|[k0 h0] d IH]; simpl; [intros []|].
  rewrite map_app, in_app_iff. intros [H | H].
  - destruct (Py.last_opt h0); simpl in H; [|destruct H].
    destruct H as [<- | []]. left. reflexivity.
  - right. apply IH. exact H.
Qed.

Lemma latest_entries_nodup (d : Py.dict (list SatellitePosition)) :
  NoDup (Py.keys d) -> NoDup (Py.keys (latest_entries d)).
Proof.
  unfold Py.keys at 1. induction d as [|[k0 h0] d IH]; simpl; intro H.
  - constructor.
  - inversion H as [|? ? Hni Hnd]; subst.
    unfold Py.keys. rewrite map_app. fold (Py.keys (latest_entries d)).
    apply NoDup_app; [|apply IH; exact Hnd|].
    + destruct (Py.last_opt h0); simpl; constructor;
        [intros []|constructor].
    + intros k Hk Hk'. apply keys_latest_entries in Hk'.
      destruct (Py.last_opt h0); simpl in Hk; [|destruct Hk].
      destruct Hk as [<- | []]. apply Hni. exact Hk'.
Qed.

Lemma current_positions_fold (d : Py.dict (list SatellitePosition))
      (acc : Py.dict SatellitePosition) :
  NoDup (Py.keys acc ++ Py.keys d) ->
  fold_left
    (fun cur (item : Z * list SatellitePosition) =>
       match Py.last_opt (snd item) with
       | Some p => Py.set cur (fst item) p
       | None => cur
       end) d acc =
  acc ++ latest_entries d.
Proof.
  revert acc. induction d as [|[k0 h0] d IH]; intros acc H; simpl.
  - rewrite app_nil_r. reflexivity.
  - simpl in H. destruct (Py.last_opt h0) as [p|] eqn:El; simpl.
    + rewrite set_absent.
      * rewrite IH; [rewrite <- app_assoc; reflexivity|].
        unfold Py.keys. rewrite map_app. simpl. rewrite <- app_assoc.
        exact H.
      * apply NoDup_remove_2 in H. intro Hin. apply H.
        apply in_or_app. left. exact Hin.
    + apply IH. apply NoDup_remove_1 in H. exact H.
Qed.

Lemma current_positions_wf (self : ThreatAnalyzer) :
  wf_store self ->
  current_positions self = latest_entries (satellite_positions self).
Proof.
  intro H. unfold current_positions.
  rewrite current_positions_fold; [reflexivity|exact H].
Qed.

Lemma latest_in_entries (d : Py.dict (list SatellitePosition)) (k : Z)
      (h : list SatellitePosition) (p : SatellitePosition) :
  In (k, h) d -> Py.last_opt h = Some p -> In (k, p) (latest_entries d).
Proof.
  intros Hin Hl. unfold latest_entries. apply in_flat_map.
  exists (k, h). split; [exact Hin|]. simpl. rewrite Hl. left. reflexivity.
Qed.

Lemma nth_error_keys {V : Type} (d : Py.dict V) (i : nat) (k : Z) (v : V) :
  nth_error d i = Some (k, v) -> nth i (Py.keys d) 0%Z = k.
Proof.
  unfold Py.keys. intro H.
  apply (map_nth_error fst) in H. simpl in H.
  apply nth_error_nth. exact H.
Qed.

Lemma path_step_at (cur : Py.dict SatellitePosition) (i j : nat)
      (e1 e2 : Z * SatellitePosition) (paths : list Path.t) :
  NoDup (Py.keys cur) ->
  nth_error cur i = Some e1 ->
  nth_error cur j = Some e2 ->
  path_step cur (Py.keys cur) i paths j = paths ++ path_of e1 e2.
Proof.
  intros Hnd H1 H2. destruct e1 as [k1 p1], e2 as [k2 p2].
  unfold path_step, path_of.
  rewrite (@nth_error_keys _ cur i k1 p1 H1).
  rewrite (@nth_error_keys _ cur j k2 p2 H2).
  rewrite (@in_get _ cur k1 p1 Hnd (nth_error_In _ _ H1)).
  rewrite (@in_get _ cur k2 p2 Hnd (nth_error_In _ _ H2)).
  simpl. destruct (Np.ltb (_calculate_3d_distance p1 p2) 2000);
    [reflexivity|rewrite app_nil_r; reflexivity].
Qed.

Lemma inner_loop_paths (cur : Py.dict SatellitePosition) (i : nat)
      (e1 : Z * SatellitePosition) (paths : list Path.t) :
  NoDup (Py.keys cur) ->
  nth_error cur i = Some e1 ->
  fold_left (path_step cur (Py.keys cur) i)
            (seq (i + 1) (length cur - (i + 1))) paths =
  paths ++ flat_map (path_of e1) (skipn (S i) cur).
Proof.
  intros Hnd H1.
  rewrite (fold_left_append
             (path_step cur (Py.keys cur) i)
             (fun j => match nth_error cur j with
                       | Some e2 => path_of e1 e2
                       | None => []
                       end)).
  - f_equal. replace (i + 1)%nat with (S i) by lia.
    apply flat_map_nth_error_seq.
  - intros acc j Hj. apply in_seq in Hj.
    destruct (nth_error cur j) as [e2|] eqn:E2.
    + apply path_step_at; assumption.
    + apply nth_error_None in E2. lia.
Qed.

Lemma outer_loop_paths (cur : Py.dict SatellitePosition) (m k : nat)
      (paths : list Path.t) :
  NoDup (Py.keys cur) ->
  (k + m = length cur)%nat ->
  fold_left
    (fun paths i =>
       fold_left (path_step cur (Py.keys cur) i)
                 (seq (i + 1) (length cur - (i + 1))) paths)
    (seq k m) paths =
  paths ++ pairs_paths (skipn k cur).
Proof.
  intro Hnd. revert k paths. induction m as [|m IH]; intros k paths Hk.
  - simpl. rewrite skipn_all2 by lia. rewrite app_nil_r. reflexivity.
  - destruct (nth_error cur k) as [e1|] eqn:E1;
      [|apply nth_error_None in E1; lia].
    simpl. rewrite (@inner_loop_paths cur k e1 _ Hnd E1).
    rewrite IH by lia.
    rewrite <- app_assoc. f_equal.
    assert (Hs : skipn k cur = e1 :: skipn (S k) cur).
    { rewrite <- (@firstn_skipn_middle _ k cur e1 E1) at 1.
      rewrite skipn_app, skipn_all2 by (rewrite length_firstn; lia).
      rewrite length_firstn.
      replace (k - Nat.min k (length cur))%nat with 0%nat by lia.
      reflexivity. }
    rewrite Hs. reflexivity.
Qed.

(** The nested index loops visit every entry of [current_positions] with
    each later entry. *)
Lemma generate_communication_paths_pairs (self : ThreatAnalyzer) :
  wf_store self ->
  generate_communication_paths self =
  pairs_paths (latest_entries (satellite_positions self)).
Proof.
  intro Hwf. unfold generate_communication_paths. cbv zeta.
  rewrite (current_positions_wf _ Hwf).
  set (cur := latest_entries (satellite_positions self)).
  assert (Hnd : NoDup (Py.keys cur)) by (apply latest_entries_nodup; exact Hwf).
  replace (length (Py.keys cur)) with (length cur)
    by (unfold Py.keys; rewrite length_map; reflexivity).
  rewrite (@outer_loop_paths cur (length cur) 0 [] Hnd eq_refl).
  reflexivity.
Qed.

Lemma in_path_of (e1 e2 : Z * SatellitePosition) (p : Path.t) :
  In p (path_of e1 e2) ->
  Path.source_id p = fst e1 /\ Path.target_id p = fst e2.
Proof.
  unfold path_of. cbv zeta.
  destruct (Np.ltb _ 2000); [|intros []].
  intros [<- | []]. split; reflexivity.
Qed.

Lemma in_pairs_paths (cur : Py.dict SatellitePosition) (p : Path.t) :
  In p (pairs_paths cur) ->
  In (Path.source_id p) (Py.keys cur) /\ In (Path.target_id p) (Py.keys cur).
Proof.
  unfold Py.keys. induction cur as [|e1 rest IH]; simpl; [intros []|].
  rewrite in_app_iff. intros [H | H].
  - apply in_flat_map in H. destruct H as [e2 [He2 Hp]].
    apply in_path_of in Hp. destruct Hp as [-> ->]. split; [left; reflexivity|].
    right. apply in_map. exact He2.
  - destruct (IH H) as [Hs Ht]. split; right; assumption.
Qed.

Lemma links_true (a b : Z) (p : Path.t) :
  links a b p = true <->
  (Path.source_id p = a /\ Path.target_id p = b) \/
  (Path.source_id p = b /\ Path.target_id p = a).
Proof.
  unfold links. rewrite orb_true_iff, !andb_true_iff, !Z.eqb_eq. tauto.
Qed.

Lemma links_false (a b : Z) (p : Path.t) :
  Path.source_id p <> a -> Path.source_id p <> b -> links a b p = false.
Proof.
  intros Ha Hb. unfold links.
  apply Z.eqb_neq in Ha, Hb. rewrite Ha, Hb. reflexivity.
Qed.

(** Paths out of [e1] towards the entries of [rest], when [b] is the key of
    at most one of them. *)
Lemma filter_links_row (a b : Z) (pa : SatellitePosition)
      (rest : Py.dict SatellitePosition) :
  a <> b ->
  NoDup (Py.keys rest) ->
  ~ In a (Py.keys rest) ->
  filter (links a b) (flat_map (path_of (a, pa)) rest) =
  match Py.get rest b with
  | Some pb => path_of (a, pa) (b, pb)
  | None => []
  end.
Proof.
  intros Hab. unfold Py.keys.
  induction rest as [|[k p] rest IH]; simpl; intros Hnd Hna;
    [reflexivity|].
  inversion Hnd as [|? ? Hni Hnd']; subst.
  rewrite filter_app. rewrite IH; [|exact Hnd'|tauto].
  destruct (k =? b)%Z eqn:E.
  - apply Z.eqb_eq in E. subst k.
    assert (Hg : Py.get rest b = None).
    { destruct (Py.get rest b) as [q|] eqn:Eg; [|reflexivity].
      exfalso. apply Hni. apply get_in in Eg.
      apply in_map_iff. exists (b, q). split; [reflexivity|exact Eg]. }
    rewrite Hg, app_nil_r.
    unfold path_of. cbv zeta. simpl.
    destruct (Np.ltb _ 2000); [|reflexivity].
    simpl. unfold links. simpl. rewrite !Z.eqb_refl. reflexivity.
  - apply Z.eqb_neq in E.
    replace (filter (links a b) (path_of (a, pa) (k, p))) with (@nil Path.t);
      [reflexivity|].
    symmetry. apply filter_none. intros q Hq. apply in_path_of in Hq.
    simpl in Hq. destruct Hq as [Hs Ht]. unfold links. rewrite Hs, Ht.
    rewrite Z.eqb_refl. simpl.
    apply Z.eqb_neq in E. rewrite E. simpl.
    apply Z.eqb_neq in Hab. rewrite Hab. reflexivity.
Qed.

Lemma links_comm (a b : Z) (p : Path.t) : links a b p = links b a p.
Proof. unfold links. apply orb_comm. Qed.

(** Among all the paths, those that join [a] and [b]: the single path of
    the pair, from whichever comes first in the dictionary. *)
Lemma filter_links_pairs (a b : Z) (pa pb : SatellitePosition)
      (cur : Py.dict SatellitePosition) :
  a <> b ->
  NoDup (Py.keys cur) ->
  In (a, pa) cur ->
  In (b, pb) cur ->
  filter (links a b) (pairs_paths cur) = path_of (a, pa) (b, pb) \/
  filter (links a b) (pairs_paths cur) = path_of (b, pb) (a, pa).
Proof.
  intros Hab. induction cur as [|[k p] rest IH]; simpl;
    intros Hnd Ha Hb; [destruct Ha|].
  inversion Hnd as [|? ? Hni Hnd']; subst.
  fold (Py.keys rest) in Hni, Hnd'.
  assert (Hkey : forall k' q, In (k', q) rest -> In k' (Py.keys rest)).
  { intros k' q Hin. unfold Py.keys. apply in_map_iff.
    exists (k', q). split; [reflexivity|exact Hin]. }
  assert (Hrest : forall c, ~ In c (Py.keys rest) ->
            forall d, filter (links c d) (pairs_paths rest) = []).
  { intros c Hc d. apply filter_none. intros q Hq.
    apply in_pairs_paths in Hq. destruct Hq as [Hs Ht].
    destruct (links c d q) eqn:El; [|reflexivity].
    apply links_true in El. destruct El as [[E _] | [_ E]];
      exfalso; apply Hc; rewrite <- E; assumption. }
  rewrite filter_app.
  destruct Ha as [Ha | Ha]; destruct Hb as [Hb | Hb].
  - exfalso. apply Hab. congruence.
  - injection Ha as -> ->. left.
    rewrite (@filter_links_row a b pa rest Hab Hnd' Hni).
    rewrite (@in_get _ rest b pb Hnd' Hb).
    rewrite (Hrest a Hni b), app_nil_r. reflexivity.
  - injection Hb as -> ->. right.
    rewrite (filter_ext (links a b) (links b a) (links_comm a b)).
    rewrite (filter_ext (links a b) (links b a) (links_comm a b)
               (pairs_paths rest)).
    rewrite (@filter_links_row b a pb rest (not_eq_sym Hab) Hnd' Hni).
    rewrite (@in_get _ rest a pa Hnd' Ha).
    rewrite (Hrest b Hni a), app_nil_r. reflexivity.
  - replace (filter (links a b) (flat_map (path_of (k, p)) rest))
      with (@nil Path.t).
    + simpl. apply IH; assumption.
    + symmetry. apply filter_none. intros q Hq.
      apply in_flat_map in Hq. destruct Hq as [e2 [_ Hq]].
      apply in_path_of in Hq. simpl in Hq. destruct Hq as [Hs _].
      apply links_false; rewrite Hs; intro E; apply Hni; rewrite E;
        eapply Hkey; eassumption.
Qed.

(** Two samples above the same ground point are separated by the
    difference of their altitudes. *)
Lemma distance_radial (pos1 pos2 : SatellitePosition) :
  SatellitePosition.latitude pos1 = SatellitePosition.latitude pos2 ->
  SatellitePosition.longitude pos1 = SatellitePosition.longitude pos2 ->
  _calculate_3d_distance pos1 pos2 =
  Rabs (SatellitePosition.altitude pos2 - SatellitePosition.altitude pos1).
Proof.
  intros Hlat Hlon. unfold _calculate_3d_distance. cbv zeta.
  rewrite Hlat, Hlon.
  set (c := cos (Np.radians (SatellitePosition.latitude pos2))).
  set (t := sin (Np.radians (SatellitePosition.latitude pos2))).
  set (k := cos (Np.radians (SatellitePosition.longitude pos2))).
  set (s := sin (Np.radians (SatellitePosition.longitude pos2))).
  set (h := (SatellitePosition.altitude pos2
             - SatellitePosition.altitude pos1)%R).
  assert (Hct : (t * t + c * c = 1)%R)
    by (unfold t, c; apply (sin2_cos2 (Np.radians _))).
  assert (Hks : (s * s + k * k = 1)%R)
    by (unfold s, k; apply (sin2_cos2 (Np.radians _))).
  rewrite <- sqrt_Rsqr_abs. f_equal. unfold Rsqr.
  transitivity (h * h * (c * c * (s * s + k * k) + t * t))%R.
  - unfold h. ring.
  - rewrite Hks. replace (c * c * 1 + t * t)%R with (t * t + c * c)%R by ring.
    rewrite Hct. ring.
Qed.

Lemma latest_entry (self : ThreatAnalyzer) (sat_id : Z)
      (p : SatellitePosition) :
  latest self sat_id = Some p ->
  In (sat_id, p) (latest_entries (satellite_positions self)).
Proof.
  unfold latest.
  destruct (Py.get (satellite_positions self) sat_id) as [h|] eqn:Eg;
    [|discriminate].
  intro Hl. apply get_in in Eg.
  apply (latest_in_entries _ _ _ _ Eg Hl).
Qed.

(** The paths of one pair: one path when the distance is below 2000, none
    otherwise. *)
Lemma found_paths (self : ThreatAnalyzer) (a b : Z)
      (pa pb : SatellitePosition) :
  wf_store self ->
  a <> b ->
  latest self a = Some pa ->
  latest self b = Some pb ->
  let d := _calculate_3d_distance pa pb in
  let found := filter (links a b) (generate_communication_paths self) in
  ((d < 2000)%R ->
   exists p, found = [p] /\ Path.active p = true /\ Path.distance p = d /\
             Path.quality p = link_quality d) /\
  ((2000 <= d)%R -> found = []).
Proof.
  intros Hwf Hab Ha Hb d found. unfold found.
  rewrite (generate_communication_paths_pairs _ Hwf).
  destruct (@filter_links_pairs a b pa pb
              (latest_entries (satellite_positions self)) Hab
              (latest_entries_nodup _ Hwf)
              (latest_entry _ _ _ Ha) (latest_entry _ _ _ Hb)) as [-> | ->];
    unfold path_of; cbv zeta; simpl;
    try rewrite (distance_swap pb pa); fold d.
  - split; intro Hd.
    + apply ltb_true in Hd. rewrite Hd. eexists. split; [reflexivity|].
      simpl. auto.
    + apply ltb_false in Hd. rewrite Hd. reflexivity.
  - split; intro Hd.
    + apply ltb_true in Hd. rewrite Hd. eexists. split; [reflexivity|].
      simpl. auto.
    + apply ltb_false in Hd. rewrite Hd. reflexivity.
Qed.

Lemma link_quality_tiers (d : R) :
  ((d < 500)%R -> link_quality d = "EXCELLENT"%string) /\
  ((500 <= d < 1000)%R -> link_quality d = "GOOD"%string) /\
  ((1000 <= d)%R -> link_quality d = "POOR"%string).
Proof.
  unfold link_quality. split; [|split]; intro H.
  - apply ltb_true in H. rewrite H. reflexivity.
  - destruct H as [H1 H2]. apply ltb_false in H1. apply ltb_true in H2.
    rewrite H1, H2. reflexivity.
  - assert (H1 : (500 <= d)%R) by lra.
    apply ltb_false in H1. apply ltb_false in H. rewrite H1, H.
    reflexivity.
Qed.

(** C6. For two distinct satellites that both have a latest sample, whose
    computed 3D distance is [d]: an active path joining them is produced if
    and only if [d < 2000]; there is then exactly one, with quality
    EXCELLENT below 500, GOOD from 500 to below 1000 and POOR from 1000 to
    below 2000.  At [d = 1500] the one path is POOR and active; at
    [d = 2500] there is none. *)
Theorem communication_paths_by_distance (self : ThreatAnalyzer) (a b : Z)
        (pa pb : SatellitePosition) :
  wf_store self ->
  a <> b ->
  latest self a = Some pa ->
  latest self b = Some pb ->
  let d := _calculate_3d_distance pa pb in
  let found := filter (links a b) (generate_communication_paths self) in
  ((exists p, In p (generate_communication_paths self) /\
              links a b p = true /\ Path.active p = true) <->
   (d < 2000)%R) /\
  ((d < 2000)%R ->
   exists p, found = [p] /\ Path.active p = true /\ Path.distance p = d /\
             ((d < 500)%R -> Path.quality p = "EXCELLENT"%string) /\
             ((500 <= d < 1000)%R -> Path.quality p = "GOOD"%string) /\
             ((1000 <= d)%R -> Path.quality p = "POOR"%string)) /\
  ((2000 <= d)%R -> found = []) /\
  (d = 1500%R ->
   exists p, found = [p] /\ Path.quality p = "POOR"%string /\
             Path.active p = true) /\
  (d = 2500%R -> found = []).
Proof.
  intros Hwf Hab Ha Hb d found.
  destruct (found_paths _ _ _ _ _ Hwf Hab Ha Hb) as [Hin Hout].
  fold d in Hin, Hout. fold found in Hin, Hout.
  destruct (link_quality_tiers d) as (Q1 & Q2 & Q3).
  split; [|split; [|split; [|split]]].
  - split.
    + intros [p (Hp & Hl & _)].
      destruct (Rlt_dec d 2000) as [Hd | Hd]; [exact Hd|].
      exfalso. assert (Hge : (2000 <= d)%R) by lra.
      specialize (Hout Hge).
      assert (Hf : In p found) by (apply filter_In; split; assumption).
      rewrite Hout in Hf. destruct Hf.
    + intro Hd. destruct (Hin Hd) as [p (Hf & Hact & _)].
      assert (Hp : In p found) by (rewrite Hf; left; reflexivity).
      apply filter_In in Hp. destruct Hp as [Hp Hl].
      exists p. auto.
  - intro Hd. destruct (Hin Hd) as [p (Hf & Hact & Hdist & Hq)].
    exists p. rewrite Hq. auto 7.
  - exact Hout.
  - intro Hd. assert (Hlt : (d < 2000)%R) by lra.
    destruct (Hin Hlt) as [p (Hf & Hact & _ & Hq)].
    exists p. rewrite Hq. split; [exact Hf|]. split; [|exact Hact].
    apply Q3. lra.
  - intro Hd. apply Hout. lra.
Qed.

Lemma communication_paths_by_distance_witness :
  exists p,
    filter (links 1 2) (generate_communication_paths two_far_apart) = [p] /\
    Path.quality p = "POOR"%string /\ Path.active p = true.
Proof.
  assert (Hwf : wf_store two_far_apart).
  { unfold wf_store. simpl. constructor; [|constructor; [|constructor]].
    - intros [H | []]. discriminate.
    - intros []. }
  assert (Hab : 1%Z <> 2%Z) by discriminate.
  destruct (communication_paths_by_distance two_far_apart 1 2
              (above_origin 1 500 1) (above_origin 2 2000 1)
              Hwf Hab eq_refl eq_refl) as (_ & _ & _ & H & _).
  apply H. rewrite distance_radial by reflexivity. simpl.
  replace (2000 - 500)%R with 1500%R by lra.
  apply Rabs_pos_eq. lra.
Defined.

(** ** The orchestrator *)

Lemma detect_proximity_threats_items (format_float : nat -> R -> string)
      (self : ThreatAnalyzer) (sat_id : Z) (current_pos : SatellitePosition) :
  _detect_proximity_threats format_float self sat_id current_pos =
  flat_map (proximity_item format_float sat_id current_pos)
           (satellite_positions self).
Proof.
  unfold _detect_proximity_threats.
  rewrite (fold_left_append _
             (proximity_item format_float sat_id current_pos));
    [reflexivity|].
  intros acc [other h] _. unfold proximity_step, proximity_item. simpl.
  destruct (other =? sat_id)%Z; [rewrite app_nil_r; reflexivity|].
  destruct (Py.last_opt h) as [other_pos|]; [|rewrite app_nil_r; reflexivity].
  cbv zeta.
  destruct (Np.ltb _ 100); [reflexivity|rewrite app_nil_r; reflexivity].
Qed.

Lemma analyze_items (format_float : nat -> R -> string)
      (self : ThreatAnalyzer) (positions : list SatellitePosition) :
  analyze_satellite_anomalies format_float self positions =
  flat_map (detectors_for format_float self) (satellite_positions self).
Proof.
  unfold analyze_satellite_anomalies.
  rewrite (fold_left_append _ (detectors_for format_float self));
    [reflexivity|].
  intros acc [sat_id h] _. unfold analyze_step, detectors_for, window. simpl.
  destruct (length h <? 10)%nat; [rewrite app_nil_r; reflexivity|].
  cbv zeta. destruct (Py.last_opt h) as [current_pos|].
  - rewrite <- !app_assoc. reflexivity.
  - rewrite app_nil_r, <- app_assoc. reflexivity.
Qed.

Lemma last_opt_some {A : Type} (l : list A) :
  l <> [] -> exists x, Py.last_opt l = Some x.
Proof.
  intro H. unfold Py.last_opt. destruct (rev l) as [|x r] eqn:E.
  - exfalso. apply H. apply (f_equal (@rev A)) in E.
    rewrite rev_involutive in E. exact E.
  - exists x. reflexivity.
Qed.

(** C1 (as amended).  [analyze] does not read its batch.  It returns, for
    the stored satellites in dictionary order, the concatenation of the
    events of the three detectors.  A stored satellite with fewer than 10
    samples contributes no event, whether or not it is in the batch; one
    with at least 10 samples contributes the events of the velocity and
    trajectory detectors on its last 50 samples, then those of the
    proximity detector on its latest sample against the latest sample of
    every other stored satellite. *)
Theorem analyze_covers_every_stored_satellite
        (format_float : nat -> R -> string) (self : ThreatAnalyzer)
        (positions : list SatellitePosition) :
  analyze_satellite_anomalies format_float self positions =
  analyze_satellite_anomalies format_float self [] /\
  analyze_satellite_anomalies format_float self positions =
  flat_map (detectors_for format_float self) (satellite_positions self) /\
  (forall sat_id h,
      (length h < 10)%nat ->
      detectors_for format_float self (sat_id, h) = []) /\
  (forall sat_id h,
      (10 <= length h)%nat ->
      exists current_pos,
        Py.last_opt h = Some current_pos /\
        detectors_for format_float self (sat_id, h) =
        _detect_velocity_anomalies format_float
          (map row_of_pos (Py.lastn 50 h)) sat_id
        ++ _detect_trajectory_anomalies format_float
             (map row_of_pos (Py.lastn 50 h)) sat_id
        ++ flat_map (proximity_item format_float sat_id current_pos)
             (satellite_positions self)).
Proof.
  split; [reflexivity|]. split; [apply analyze_items|]. split.
  - intros sat_id h H. unfold detectors_for. simpl.
    apply Nat.ltb_lt in H. rewrite H. reflexivity.
  - intros sat_id h H.
    destruct (last_opt_some h) as [current_pos Hl].
    { intro E. subst h. simpl in H. lia. }
    exists current_pos. split; [exact Hl|].
    unfold detectors_for, window. simpl.
    apply Nat.ltb_ge in H. rewrite H, Hl.
    rewrite detect_proximity_threats_items. reflexivity.
Qed.

Lemma analyze_covers_every_stored_satellite_witness :
  detectors_for plain_format crowded (2%Z, [above_origin 2 550 10]) = [] /\
  exists current_pos,
    Py.last_opt (map (above_origin 1 500) ten_ticks) = Some current_pos.
Proof.
  destruct (analyze_covers_every_stored_satellite plain_format crowded [])
    as (_ & _ & Hshort & Hlong).
  split.
  - apply Hshort. simpl. lia.
  - destruct (Hlong 1%Z (map (above_origin 1 500) ten_ticks)) as [p [Hp _]].
    + simpl. lia.
    + exists p. exact Hp.
Defined.

(** ** Proximity events *)

Lemma proximity_in_analyze (format_float : nat -> R -> string)
      (self : ThreatAnalyzer) (positions : list SatellitePosition)
      (a b : Z) (ha hb : list SatellitePosition)
      (pa pb : SatellitePosition) :
  In (a, ha) (satellite_positions self) ->
  In (b, hb) (satellite_positions self) ->
  a <> b ->
  (10 <= length ha)%nat ->
  Py.last_opt ha = Some pa ->
  Py.last_opt hb = Some pb ->
  (_calculate_3d_distance pa pb < 100)%R ->
  In (proximity_event format_float a b pa pb (_calculate_3d_distance pa pb))
     (analyze_satellite_anomalies format_float self positions).
Proof.
  intros Ha Hb Hab Hlen Hpa Hpb Hd.
  rewrite analyze_items. apply in_flat_map. exists (a, ha).
  split; [exact Ha|].
  unfold detectors_for. simpl.
  apply Nat.ltb_ge in Hlen. rewrite Hlen, Hpa.
  apply in_or_app. right. apply in_or_app. right.
  rewrite detect_proximity_threats_items. apply in_flat_map.
  exists (b, hb). split; [exact Hb|].
  unfold proximity_item. simpl.
  assert (Hne : (b =? a)%Z = false) by (apply Z.eqb_neq; auto).
  rewrite Hne, Hpb. cbv zeta.
  apply ltb_true in Hd. rewrite Hd. left. reflexivity.
Qed.

Lemma proximity_event_report (format_float : nat -> R -> string) (a b : Z)
      (pa pb : SatellitePosition) :
  proximity_report format_float a b pa pb
    (proximity_event format_float a b pa pb (_calculate_3d_distance pa pb)).
Proof. unfold proximity_report. simpl. repeat split. Qed.

Lemma crowded_distance :
  _calculate_3d_distance (above_origin 1 500 10) (above_origin 2 550 10) =
  50%R.
Proof.
  rewrite distance_radial by reflexivity. simpl.
  replace (550 - 500)%R with 50%R by lra. apply Rabs_pos_eq. lra.
Qed.

(** C1, counterexample.  With the empty batch, [analyze] on a store that
    holds satellite 1 with ten samples and satellite 2 close to it still
    returns an event of satellite 1. *)
Lemma analyze_reports_satellite_outside_batch :
  exists e,
    In e (analyze_satellite_anomalies plain_format crowded []) /\
    ThreatEvent.satellite_id e = Some 1%Z.
Proof.
  eexists. split.
  - apply (proximity_in_analyze plain_format crowded [] 1 2
             (map (above_origin 1 500) ten_ticks) [above_origin 2 550 10]
             (above_origin 1 500 10) (above_origin 2 550 10)).
    + left. reflexivity.
    + right. left. reflexivity.
    + discriminate.
    + simpl. lia.
    + reflexivity.
    + reflexivity.
    + rewrite crowded_distance. lra.
  - reflexivity.
Qed.

(** C3 (as amended).  For two distinct stored satellites whose latest
    samples are at a computed 3D distance below 100 km (50 km in
    particular), [analyze] returns, for each of the two that has at least
    10 stored samples, a PROXIMITY_THREAT event of severity CRITICAL whose
    source is that satellite's latest coordinate, whose target is the
    other's latest coordinate and whose description names the other's
    id. *)
Theorem proximity_threat_when_close
        (format_float : nat -> R -> string) (self : ThreatAnalyzer)
        (positions : list SatellitePosition) (a b : Z)
        (ha hb : list SatellitePosition) (pa pb : SatellitePosition) :
  a <> b ->
  Py.get (satellite_positions self) a = Some ha ->
  Py.get (satellite_positions self) b = Some hb ->
  Py.last_opt ha = Some pa ->
  Py.last_opt hb = Some pb ->
  (_calculate_3d_distance pa pb < 100)%R ->
  ((10 <= length ha)%nat ->
   exists e,
     In e (analyze_satellite_anomalies format_float self positions) /\
     proximity_report format_float a b pa pb e) /\
  ((10 <= length hb)%nat ->
   exists e,
     In e (analyze_satellite_anomalies format_float self positions) /\
     proximity_report format_float b a pb pa e).
Proof.
  intros Hab Ha Hb Hpa Hpb Hd.
  apply get_in in Ha. apply get_in in Hb. split; intro Hlen.
  - eexists. split; [|apply proximity_event_report].
    apply (proximity_in_analyze format_float self positions a b ha hb);
      assumption.
  - eexists. split; [|apply proximity_event_report].
    apply (proximity_in_analyze format_float self positions b a hb ha);
      try assumption; [auto|].
    rewrite distance_swap. exact Hd.
Qed.

Lemma proximity_threat_when_close_witness :
  exists e,
    In e (analyze_satellite_anomalies plain_format crowded
            [above_origin 1 500 10]) /\
    proximity_report plain_format 1 2
      (above_origin 1 500 10) (above_origin 2 550 10) e.
Proof.
  destruct (proximity_threat_when_close plain_format crowded
              [above_origin 1 500 10] 1 2
              (map (above_origin 1 500) ten_ticks) [above_origin 2 550 10]
              (above_origin 1 500 10) (above_origin 2 550 10))
    as [H _].
  - discriminate.
  - reflexivity.
  - reflexivity.
  - reflexivity.
  - reflexivity.
  - rewrite crowded_distance. lra.
  - apply H. simpl. lia.
Defined.

(** C3, counterexample.  Both satellites have a recorded sample and their
    distance is 50 km, yet [analyze] for the sample of either returns no
    event: neither has 10 samples. *)
Lemma no_proximity_threat_below_ten_samples :
  _calculate_3d_distance (above_origin 1 500 10) (above_origin 2 550 10) =
  50%R /\
  analyze_satellite_anomalies plain_format two_close
    [above_origin 1 500 10] = [] /\
  analyze_satellite_anomalies plain_format two_close
    [above_origin 2 550 10] = [].
Proof.
  split; [apply crowded_distance|]. split; reflexivity.
Qed.

(** ** A velocity spike *)

Lemma spike_diff : Pd.diff spike_speeds = spike_changes.
Proof.
  unfold spike_speeds, spike_changes. simpl.
  repeat (f_equal; try (f_equal; lra)).
Qed.

Lemma spike_mean : Pd.mean spike_changes = Some 0%R.
Proof.
  unfold Pd.mean, spike_changes, Np.mean. simpl. f_equal. lra.
Qed.

Lemma spike_std : Pd.std spike_changes = Some (sqrt (9 / 20)).
Proof.
  unfold Pd.std, spike_changes, Np.mean. simpl. f_equal. f_equal. lra.
Qed.

Lemma spike_threshold : (2 * sqrt (9 / 20) < 3 / 2)%R.
Proof.
  assert (H : (sqrt (9 / 20) < sqrt ((3 / 4) * (3 / 4)))%R)
    by (apply sqrt_lt_1_alt; lra).
  rewrite sqrt_square in H by lra. lra.
Qed.

Lemma spike_mask_steady :
  velocity_mask (Some 0%R) (Some 0%R) (Some (sqrt (9 / 20))) = false.
Proof.
  unfold velocity_mask, Np.gtb. apply ltb_false.
  rewrite Rminus_diag, Rabs_R0.
  pose proof (sqrt_pos (9 / 20)). lra.
Qed.

Lemma spike_mask_up :
  velocity_mask (Some (3 / 2)%R) (Some 0%R) (Some (sqrt (9 / 20))) = true.
Proof.
  unfold velocity_mask, Np.gtb. apply ltb_true.
  rewrite Rminus_0_r, Rabs_pos_eq by lra. apply spike_threshold.
Qed.

Lemma spike_mask_down :
  velocity_mask (Some (- (3 / 2))%R) (Some 0%R) (Some (sqrt (9 / 20))) = true.
Proof.
  unfold velocity_mask, Np.gtb. apply ltb_true.
  rewrite Rminus_0_r, Rabs_Ropp, Rabs_pos_eq by lra. apply spike_threshold.
Qed.

(** The velocity detector on a window with the spike: the sixth row, where
    the speed rises, and the seventh, where it falls back. *)
Lemma spike_velocity_events (format_float : nat -> R -> string)
      (df : list Row.t) (sat_id : Z) :
  map Row.vel df = spike_speeds ->
  exists r6 r7,
    nth_error df 5 = Some r6 /\ nth_error df 6 = Some r7 /\
    _detect_velocity_anomalies format_float df sat_id =
    [velocity_event format_float sat_id (r6, Some (3 / 2)%R);
     velocity_event format_float sat_id (r7, Some (- (3 / 2))%R)].
Proof.
  intro Hv. unfold _detect_velocity_anomalies.
  rewrite Hv, spike_diff, spike_mean, spike_std.
  do 12 (destruct df as [|? df]; [discriminate|]).
  destruct df; [|discriminate].
  do 2 eexists. split; [reflexivity|]. split; [reflexivity|].
  unfold spike_changes.
  cbn [length Nat.ltb Nat.leb combine filter snd].
  rewrite spike_mask_steady, spike_mask_up, spike_mask_down.
  reflexivity.
Qed.

Lemma filter_flat_map {A B : Type} (f : B -> bool) (g : A -> list B)
      (l : list A) :
  filter f (flat_map g l) = flat_map (fun x => filter f (g x)) l.
Proof.
  induction l as [|x l IH]; simpl; [reflexivity|].
  rewrite filter_app, IH. reflexivity.
Qed.

Lemma filter_all {A : Type} (f : A -> bool) (l : list A) :
  (forall x, In x l -> f x = true) -> filter f l = l.
Proof.
  induction l as [|x l IH]; simpl; intro H; [reflexivity|].
  rewrite (H x (or_introl eq_refl)). f_equal. apply IH.
  intros y Hy. apply H. right. exact Hy.
Qed.

Lemma velocity_events_kind (format_float : nat -> R -> string)
      (df : list Row.t) (sat_id : Z) (e : ThreatEvent) :
  In e (_detect_velocity_anomalies format_float df sat_id) ->
  ThreatEvent.threat_type e = "VELOCITY_ANOMALY"%string /\
  ThreatEvent.satellite_id e = Some sat_id.
Proof.
  unfold _detect_velocity_anomalies.
  destruct (length df <? 5)%nat; [intros []|].
  cbv zeta. intro H. apply in_map_iff in H. destruct H as [row [<- _]].
  split; reflexivity.
Qed.

Lemma trajectory_events_kind (format_float : nat -> R -> string)
      (df : list Row.t) (sat_id : Z) (e : ThreatEvent) :
  In e (_detect_trajectory_anomalies format_float df sat_id) ->
  ThreatEvent.threat_type e = "TRAJECTORY_ANOMALY"%string.
Proof.
  unfold _detect_trajectory_anomalies.
  destruct (length df <? 10)%nat; [intros []|].
  cbv zeta. intro H. apply in_flat_map in H. destruct H as [idx [_ H]].
  destruct (nth_error df idx); [|destruct H].
  destruct H as [<- | []]. reflexivity.
Qed.

Lemma proximity_events_kind (format_float : nat -> R -> string)
      (self : ThreatAnalyzer) (sat_id : Z) (current_pos : SatellitePosition)
      (e : ThreatEvent) :
  In e (_detect_proximity_threats format_float self sat_id current_pos) ->
  ThreatEvent.threat_type e = "PROXIMITY_THREAT"%string.
Proof.
  rewrite detect_proximity_threats_items. intro H.
  apply in_flat_map in H. destruct H as [[other h] [_ H]].
  unfold proximity_item in H. simpl in H.
  destruct (other =? sat_id)%Z; [destruct H|].
  destruct (Py.last_opt h); [|destruct H].
  cbv zeta in H. destruct (Np.ltb _ 100); [|destruct H].
  destruct H as [<- | []]. reflexivity.
Qed.

(** Among the events of one stored satellite, the velocity anomalies of
    [sat_id]. *)
Lemma filter_detectors (format_float : nat -> R -> string)
      (self : ThreatAnalyzer) (sat_id : Z)
      (item : Z * list SatellitePosition) :
  filter (velocity_anomaly_of sat_id) (detectors_for format_float self item) =
  if (fst item =? sat_id)%Z
  then if (length (snd item) <? 10)%nat then []
       else _detect_velocity_anomalies format_float (window (snd item))
              sat_id
  else [].
Proof.
  destruct item as [k h]. unfold detectors_for. simpl.
  destruct (length h <? 10)%nat.
  { destruct (k =? sat_id)%Z; reflexivity. }
  rewrite !filter_app.
  replace (filter (velocity_anomaly_of sat_id)
             (_detect_trajectory_anomalies format_float (window h) k))
    with (@nil ThreatEvent).
  2:{ symmetry. apply filter_none. intros e He.
      apply trajectory_events_kind in He. unfold velocity_anomaly_of.
      rewrite He. reflexivity. }
  replace (filter (velocity_anomaly_of sat_id)
             match Py.last_opt h with
             | Some current_pos =>
                 _detect_proximity_threats format_float self k current_pos
             | None => []
             end)
    with (@nil ThreatEvent).
  2:{ symmetry. apply filter_none. intros e He.
      destruct (Py.last_opt h); [|destruct He].
      apply proximity_events_kind in He. unfold velocity_anomaly_of.
      rewrite He. reflexivity. }
  rewrite !app_nil_r.
  destruct (k =? sat_id)%Z eqn:E.
  - apply Z.eqb_eq in E. subst k. apply filter_all. intros e He.
    apply velocity_events_kind in He. destruct He as [Ht Hs].
    unfold velocity_anomaly_of. rewrite Ht, Hs, Z.eqb_refl. reflexivity.
  - apply filter_none. intros e He.
    apply velocity_events_kind in He. destruct He as [Ht Hs].
    unfold velocity_anomaly_of. rewrite Ht, Hs, E. reflexivity.
Qed.

Lemma flat_map_single_key {V B : Type} (d : Py.dict V) (k : Z) (v : V)
      (G : V -> list B) :
  NoDup (Py.keys d) ->
  Py.get d k = Some v ->
  flat_map (fun item : Z * V =>
              if (fst item =? k)%Z then G (snd item) else []) d =
  G v.
Proof.
  unfold Py.keys. induction d as [|[k0 v0] d IH]; simpl; [discriminate|].
  intros Hnd Hg. inversion Hnd as [|? ? Hni Hnd']; subst.
  destruct (k0 =? k)%Z eqn:E.
  - injection Hg as ->. apply Z.eqb_eq in E. subst k0.
    replace (flat_map _ d) with (@nil B); [apply app_nil_r|].
    symmetry.
    assert (H : forall item, In item d ->
                (if (fst item =? k)%Z then G (snd item) else []) = [])
      .
    { intros [k1 v1] Hin. simpl. destruct (k1 =? k)%Z eqn:E1; [|reflexivity].
      apply Z.eqb_eq in E1. subst k1. exfalso. apply Hni.
      apply in_map_iff. exists (k, v1). split; [reflexivity|exact Hin]. }
    rewrite (flat_map_ext_in _ (fun _ => []) d H).
    clear. induction d; simpl; auto.
  - simpl. apply IH; assumption.
Qed.

(** The velocity anomalies that [analyze] returns for a satellite whose
    stored speeds are the spike series. *)
Lemma spike_analysis (format_float : nat -> R -> string)
      (self : ThreatAnalyzer) (positions : list SatellitePosition)
      (sat_id : Z) (h : list SatellitePosition) :
  wf_store self ->
  Py.get (satellite_positions self) sat_id = Some h ->
  map SatellitePosition.velocity h = spike_speeds ->
  exists p6 p7,
    nth_error h 5 = Some p6 /\ nth_error h 6 = Some p7 /\
    filter (velocity_anomaly_of sat_id)
           (analyze_satellite_anomalies format_float self positions) =
    [velocity_event format_float sat_id (row_of_pos p6, Some (3 / 2)%R);
     velocity_event format_float sat_id
       (row_of_pos p7, Some (- (3 / 2))%R)].
Proof.
  intros Hwf Hg Hv.
  assert (Hlen : length h = 12%nat).
  { rewrite <- (length_map SatellitePosition.velocity), Hv. reflexivity. }
  rewrite analyze_items, filter_flat_map.
  rewrite (flat_map_ext _ _ (filter_detectors format_float self sat_id)).
  rewrite (flat_map_single_key (satellite_positions self) sat_id h
             (fun h0 => if (length h0 <? 10)%nat then []
                        else _detect_velocity_anomalies format_float
                               (window h0) sat_id) Hwf Hg).
  rewrite Hlen. simpl Nat.ltb. cbv iota.
  unfold window. rewrite lastn_all by lia.
  destruct (spike_velocity_events format_float (map row_of_pos h) sat_id)
    as (r6 & r7 & H6 & H7 & Hev).
  { rewrite map_map. exact Hv. }
  rewrite nth_error_map in H6, H7.
  destruct (nth_error h 5) as [p6|]; [|discriminate].
  destruct (nth_error h 6) as [p7|]; [|discriminate].
  simpl in H6, H7. injection H6 as <-. injection H7 as <-.
  exists p6, p7. split; [reflexivity|]. split; [reflexivity|]. exact Hev.
Qed.

(** C2 (as amended).  When the stored history of a satellite (satellite 7
    in particular) is 12 samples at 7.5 km/s except the sixth at 9.0 km/s,
    [analyze] returns exactly two VELOCITY_ANOMALY events for it: the first
    carries the coordinates of the sixth sample, where the speed rises by
    1.5, the second those of the seventh, where it falls by 1.5. *)
Theorem spike_gives_two_velocity_anomalies
        (format_float : nat -> R -> string) (self : ThreatAnalyzer)
        (positions : list SatellitePosition) (sat_id : Z)
        (h : list SatellitePosition) :
  wf_store self ->
  Py.get (satellite_positions self) sat_id = Some h ->
  map SatellitePosition.velocity h = spike_speeds ->
  exists p6 p7 e6 e7,
    nth_error h 5 = Some p6 /\ nth_error h 6 = Some p7 /\
    filter (velocity_anomaly_of sat_id)
           (analyze_satellite_anomalies format_float self positions) =
    [e6; e7] /\
    refers_to e6 p6 /\ refers_to e7 p7.
Proof.
  intros Hwf Hg Hv.
  destruct (spike_analysis format_float self positions sat_id h Hwf Hg Hv)
    as (p6 & p7 & H6 & H7 & Hev).
  exists p6, p7. do 2 eexists.
  split; [exact H6|]. split; [exact H7|]. split; [exact Hev|].
  split; unfold refers_to; simpl; auto.
Qed.

Lemma spike_store_wf : wf_store spike_store.
Proof.
  unfold wf_store. simpl. constructor; [intros []|constructor].
Qed.

Lemma spike_gives_two_velocity_anomalies_witness :
  exists e6 e7,
    filter (velocity_anomaly_of 7)
           (analyze_satellite_anomalies plain_format spike_store []) =
    [e6; e7].
Proof.
  destruct (spike_gives_two_velocity_anomalies plain_format spike_store []
              7%Z spike_history spike_store_wf eq_refl eq_refl)
    as (p6 & p7 & e6 & e7 & _ & _ & H & _).
  exists e6, e7. exact H.
Defined.

(** C2, counterexample.  Satellite 7 holds exactly the 12 samples of the
    scenario, and [analyze] returns two VELOCITY_ANOMALY events for it, not
    one. *)
Lemma spike_not_a_single_anomaly :
  map SatellitePosition.velocity spike_history = spike_speeds /\
  length (filter (velocity_anomaly_of 7)
                 (analyze_satellite_anomalies plain_format spike_store
                    spike_history)) = 2%nat.
Proof.
  split; [reflexivity|].
  destruct (spike_analysis plain_format spike_store spike_history 7%Z
              spike_history spike_store_wf eq_refl eq_refl)
    as (p6 & p7 & _ & _ & H).
  rewrite H. reflexivity.
Qed.

(** ** DBSCAN: every cluster has at least three members *)

Lemma cluster_size_members (labels : list Z) (c : Z) :
  cluster_size labels c = length (members labels c).
Proof.
  unfold cluster_size, members.
  induction labels as [|x l IH]; [reflexivity|].
  cbn [length seq filter]. rewrite <- seq_shift, filter_map_swap.
  unfold Sk.label_of at 1. cbn [nth].
  destruct (x =? c)%Z; cbn [length]; rewrite length_map; rewrite IH;
    reflexivity.
Qed.

Lemma set_label_length (labels : list Z) (i : nat) (c : Z) :
  length (Sk.set_label labels i c) = length labels.
Proof.
  revert i. induction labels as [|x l IH]; intro i; [reflexivity|].
  destruct i; simpl; [reflexivity|]. rewrite IH. reflexivity.
Qed.

Lemma label_set_same (labels : list Z) (i : nat) (c : Z) :
  (i < length labels)%nat -> Sk.label_of (Sk.set_label labels i c) i = c.
Proof.
  unfold Sk.label_of. revert i.
  induction labels as [|x l IH]; intros i H; simpl in H; [lia|].
  destruct i; simpl; [reflexivity|]. apply IH. lia.
Qed.

Lemma label_set_other (labels : list Z) (i j : nat) (c : Z) :
  i <> j -> Sk.label_of (Sk.set_label labels i c) j = Sk.label_of labels j.
Proof.
  unfold Sk.label_of. revert i j.
  induction labels as [|x l IH]; intros i j H; [reflexivity|].
  destruct i, j; simpl; try reflexivity; [contradiction|].
  apply IH. lia.
Qed.

Lemma label_out_of_range (labels : list Z) (j : nat) :
  (length labels <= j)%nat -> Sk.label_of labels j = (-1)%Z.
Proof. intro H. unfold Sk.label_of. apply nth_overflow. exact H. Qed.

Lemma cluster_size_set (labels : list Z) (i : nat) (c : Z) :
  (i < length labels)%nat ->
  Sk.label_of labels i = (-1)%Z ->
  c <> (-1)%Z ->
  S (cluster_size (Sk.set_label labels i c) (-1)) = cluster_size labels (-1).
Proof.
  unfold cluster_size, Sk.label_of. revert i.
  induction labels as [|x l IH]; intros i Hi Hl Hc; simpl in Hi; [lia|].
  destruct i; simpl in *.
  - subst x. simpl. apply Z.eqb_neq in Hc. rewrite Hc. reflexivity.
  - destruct (x =? -1)%Z; simpl; rewrite <- (IH i); auto; lia.
Qed.

Lemma cluster_size_bound (labels : list Z) (c : Z) :
  (cluster_size labels c <= length labels)%nat.
Proof. unfold cluster_size. apply filter_length_le. Qed.

Section DbscanClusters.

Variable n : nat.
Variable nb : nat -> nat -> bool.

Hypothesis nb_refl : forall i, (i < n)%nat -> nb i i = true.
Hypothesis nb_sym : forall i j, nb i j = nb j i.

Local Abbreviation N := (Sk.neighborhood n nb).
Local Abbreviation core := (Sk.is_core n nb 3).
Local Abbreviation lab := Sk.label_of.
Local Abbreviation noise := (-1)%Z.
Local Abbreviation closed := (closed n nb).
Local Abbreviation near_core := (near_core n nb).
Local Abbreviation supported := (supported n nb).
Local Abbreviation work_ok := (work_ok n nb).
Local Abbreviation loop_inv := (loop_inv n nb).
Local Abbreviation pushed := (pushed n nb).
Local Abbreviation steps_left := (steps_left n).
Local Abbreviation outer_inv := (outer_inv n nb).

Lemma in_neighborhood (i j : nat) :
  In j (N i) <-> (j < n)%nat /\ nb i j = true.
Proof.
  unfold Sk.neighborhood. rewrite filter_In, in_seq. intuition lia.
Qed.

Lemma neighborhood_nodup (i : nat) : NoDup (N i).
Proof. apply NoDup_filter, seq_NoDup. Qed.

Lemma neighborhood_length (i : nat) : (length (N i) <= n)%nat.
Proof.
  unfold Sk.neighborhood.
  rewrite <- (length_seq n 0) at 2. apply filter_length_le.
Qed.

Lemma core_length (i : nat) : core i = true <-> (3 <= length (N i))%nat.
Proof. unfold Sk.is_core. apply Nat.leb_le. Qed.

(** Three distinct samples around [v] make it a core sample. *)
Lemma core_of_three (v u w : nat) :
  (v < n)%nat -> (u < n)%nat -> (w < n)%nat ->
  nb v u = true -> nb v w = true ->
  v <> u -> v <> w -> u <> w ->
  core v = true.
Proof using nb_refl.
  intros Hv Hu Hw Hvu Hvw H1 H2 H3. apply core_length.
  assert (Hnd : NoDup [v; u; w]).
  { constructor; [simpl; intuition|].
    constructor; [simpl; intuition|].
    constructor; [intros []|constructor]. }
  assert (Hincl : incl [v; u; w] (N v)).
  { intros x [<- | [<- | [<- | []]]]; apply in_neighborhood; auto. }
  apply (NoDup_incl_length Hnd Hincl).
Qed.

(** *** The state of one expansion *)

Lemma extends_refl (c : Z) (l : list Z) : extends c l l.
Proof. split; [reflexivity|]. intro j. left. reflexivity. Qed.

Lemma extends_trans (c : Z) (l1 l2 l3 : list Z) :
  extends c l1 l2 -> extends c l2 l3 -> extends c l1 l3.
Proof.
  intros [L12 H12] [L23 H23]. split; [congruence|].
  intro j. destruct (H12 j) as [E12 | [E12 E12']];
    destruct (H23 j) as [E23 | [E23 E23']].
  - left. congruence.
  - right. split; congruence.
  - right. split; congruence.
  - right. split; congruence.
Qed.

Lemma extends_set (c : Z) (l : list Z) (i : nat) :
  lab l i = noise -> extends c l (Sk.set_label l i c).
Proof.
  intro Hi. split; [apply set_label_length|].
  intro j. destruct (Nat.eq_dec i j) as [<- | Hne].
  - destruct (Nat.lt_ge_cases i (length l)) as [Hlt | Hge].
    + right. split; [exact Hi|]. apply label_set_same. exact Hlt.
    + left. rewrite !label_out_of_range;
        [reflexivity|exact Hge|rewrite set_label_length; exact Hge].
  - left. apply label_set_other. exact Hne.
Qed.

Lemma extends_labelled (c : Z) (l l' : list Z) (j : nat) :
  extends c l l' -> lab l j <> noise -> lab l' j = lab l j.
Proof.
  intros [_ H] Hj. destruct (H j) as [E | [E _]]; [exact E|contradiction].
Qed.

Lemma extends_keeps (c : Z) (l l' : list Z) (j : nat) :
  c <> noise -> extends c l l' -> lab l j <> noise -> lab l' j <> noise.
Proof.
  intros Hc He Hj. rewrite (extends_labelled c l l' j He Hj). exact Hj.
Qed.

Lemma near_core_extends (c : Z) (l l' : list Z) (v : nat) :
  c <> noise -> extends c l l' -> near_core l v -> near_core l' v.
Proof.
  intros Hc He H Hv. destruct (H Hv) as [u (Hu & Hcu & Hnb & Hl)].
  exists u. repeat split; try assumption.
  apply (extends_keeps c l l' u Hc He Hl).
Qed.

Lemma unlabelled_true (labels : list Z) (i : nat) :
  Sk.unlabelled labels i = true <-> lab labels i = noise.
Proof. unfold Sk.unlabelled. apply Z.eqb_eq. Qed.

Lemma unlabelled_false (labels : list Z) (i : nat) :
  Sk.unlabelled labels i = false <-> lab labels i <> noise.
Proof. unfold Sk.unlabelled. apply Z.eqb_neq. Qed.

Lemma in_pushed (labels' : list Z) (i : nat) (stack : list nat) (v : nat) :
  In v (pushed labels' i stack) <->
  (core i = true /\ In v (N i) /\ lab labels' v = noise) \/ In v stack.
Proof.
  unfold pushed. destruct (core i).
  - rewrite in_app_iff, <- in_rev, filter_In, unlabelled_true.
    intuition.
  - intuition discriminate.
Qed.

Lemma pushed_length (labels' : list Z) (i : nat) (stack : list nat) :
  (length (pushed labels' i stack) <= n + length stack)%nat.
Proof.
  unfold pushed. destruct (core i); [|lia].
  rewrite length_app, length_rev.
  pose proof (filter_length_le (Sk.unlabelled labels') (N i)).
  pose proof (neighborhood_length i). lia.
Qed.

Lemma inv_skip (labels : list Z) (i : nat) (stack : list nat) :
  loop_inv labels (i :: stack) ->
  lab labels i <> noise ->
  loop_inv labels stack.
Proof.
  intros (Hlen & Hcl & Hsup & Hwk) Hi. repeat split; try assumption.
  - intros u v Hu Hlu Hcu Hv.
    destruct (Hcl u v Hu Hlu Hcu Hv) as [H | [<- | H]]; auto.
  - apply Hwk. right. exact H.
  - apply Hwk. right. exact H.
Qed.

Lemma inv_label (c : Z) (labels : list Z) (i : nat) (stack : list nat) :
  c <> noise ->
  loop_inv labels (i :: stack) ->
  lab labels i = noise ->
  loop_inv (Sk.set_label labels i c)
           (pushed (Sk.set_label labels i c) i stack).
Proof using nb_refl nb_sym.
  intros Hc (Hlen & Hcl & Hsup & Hwk) Hi.
  set (labels' := Sk.set_label labels i c).
  assert (Hext : extends c labels labels') by (apply extends_set; exact Hi).
  destruct (Hwk i (or_introl eq_refl)) as [Hin Hnear].
  assert (Hli : lab labels' i = c)
    by (apply label_set_same; rewrite Hlen; exact Hin).
  repeat split.
  - unfold labels'. rewrite set_label_length. exact Hlen.
  - intros u v Hu Hlu Hcu Hv.
    destruct (Z.eq_dec (lab labels' v) noise) as [Hnv | Hnv];
      [|left; exact Hnv].
    right. apply in_pushed.
    destruct (Nat.eq_dec u i) as [-> | Hne]; [left; auto|].
    right.
    assert (Hlu' : lab labels u <> noise).
    { unfold labels' in Hlu. rewrite label_set_other in Hlu by auto.
      exact Hlu. }
    destruct (Hcl u v Hu Hlu' Hcu Hv) as [H | [<- | H]].
    + exfalso. apply (extends_keeps c labels labels' v Hc Hext H Hnv).
    + exfalso. rewrite Hli in Hnv. contradiction.
    + exact H.
  - intros v Hv Hlv.
    destruct (Nat.eq_dec v i) as [-> | Hne].
    + apply (near_core_extends c labels labels' i Hc Hext Hnear).
    + apply (near_core_extends c labels labels' v Hc Hext).
      apply Hsup; [exact Hv|].
      unfold labels' in Hlv. rewrite label_set_other in Hlv by auto.
      exact Hlv.
  - apply in_pushed in H.
    destruct H as [(_ & Hv & _) | H];
      [apply in_neighborhood in Hv; tauto|apply Hwk; right; exact H].
  - apply in_pushed in H. destruct H as [(Hci & Hv & _) | H].
    + intros _. exists i. apply in_neighborhood in Hv.
      repeat split; try tauto. rewrite Hli. exact Hc.
    + apply (near_core_extends c labels labels' v Hc Hext).
      apply Hwk. right. exact H.
Qed.

Lemma steps_left_label (c : Z) (labels : list Z) (i : nat)
      (stack : list nat) :
  c <> noise ->
  (i < length labels)%nat ->
  lab labels i = noise ->
  (steps_left (Sk.set_label labels i c)
              (pushed (Sk.set_label labels i c) i stack)
   < steps_left labels (i :: stack))%nat.
Proof.
  intros Hc Hi Hl. unfold steps_left.
  pose proof (cluster_size_set labels i c Hi Hl Hc) as Hs.
  pose proof (pushed_length (Sk.set_label labels i c) i stack) as Hp.
  rewrite <- Hs. simpl length. lia.
Qed.

(** *** One expansion *)

Lemma expand_spec (c : Z) (claim : list nat) :
  c <> noise ->
  forall fuel labels work,
    (steps_left labels work < fuel)%nat ->
    loop_inv labels work ->
    (forall v, In v claim ->
               lab labels v = c \/ (lab labels v = noise /\ In v work)) ->
    let result := Sk.expand n nb 3 fuel c labels work in
    extends c labels result /\ loop_inv result [] /\
    forall v, In v claim -> lab result v = c.
Proof using nb_refl nb_sym.
  intro Hc. induction fuel as [|fuel IH]; intros labels work Hfuel Hinv Hcl;
    [lia|].
  destruct work as [|i stack].
  - simpl. split; [apply extends_refl|]. split; [exact Hinv|].
    intros v Hv. destruct (Hcl v Hv) as [H | [_ []]]. exact H.
  - cbn [Sk.expand].
    destruct (Sk.unlabelled labels i) eqn:Hu.
    + apply unlabelled_true in Hu.
      assert (Hi : (i < length labels)%nat).
      { destruct Hinv as (Hlen & _ & _ & Hwk). rewrite Hlen.
        apply Hwk. left. reflexivity. }
      fold (pushed (Sk.set_label labels i c) i stack).
      destruct (IH (Sk.set_label labels i c)
                   (pushed (Sk.set_label labels i c) i stack))
        as (He & Hinv' & Hcl').
      * pose proof (steps_left_label c labels i stack Hc Hi Hu). lia.
      * apply inv_label; assumption.
      * intros v Hv. destruct (Nat.eq_dec v i) as [-> | Hne].
        { left. apply label_set_same. exact Hi. }
        rewrite label_set_other by auto.
        destruct (Hcl v Hv) as [H | [H [H' | H']]].
        { left. exact H. }
        { exfalso. auto. }
        { right. split; [exact H|]. apply in_pushed. right. exact H'. }
      * split; [|split; assumption].
        apply (extends_trans c labels (Sk.set_label labels i c));
          [apply extends_set; exact Hu|exact He].
    + apply unlabelled_false in Hu.
      apply IH.
      * unfold steps_left in *. simpl length in Hfuel. lia.
      * apply (inv_skip labels i stack Hinv Hu).
      * intros v Hv. destruct (Hcl v Hv) as [H | [H [<- | H']]]; auto.
        contradiction.
Qed.

(** Any supply of steps above [steps_left] gives the same labels: the
    expansion ends on the empty work list, not on the step count. *)
Lemma expand_enough_fuel (c : Z) :
  c <> noise ->
  forall fuel1 fuel2 labels work,
    (steps_left labels work < fuel1)%nat ->
    (steps_left labels work < fuel2)%nat ->
    loop_inv labels work ->
    Sk.expand n nb 3 fuel1 c labels work =
    Sk.expand n nb 3 fuel2 c labels work.
Proof using nb_refl nb_sym.
  intro Hc. induction fuel1 as [|fuel1 IH];
    intros fuel2 labels work H1 H2 Hinv; [lia|].
  destruct fuel2 as [|fuel2]; [lia|].
  destruct work as [|i stack]; [reflexivity|].
  cbn [Sk.expand].
  destruct (Sk.unlabelled labels i) eqn:Hu.
  - apply unlabelled_true in Hu.
    assert (Hi : (i < length labels)%nat).
    { destruct Hinv as (Hlen & _ & _ & Hwk). rewrite Hlen.
      apply Hwk. left. reflexivity. }
    pose proof (steps_left_label c labels i stack Hc Hi Hu) as Hlt.
    fold (pushed (Sk.set_label labels i c) i stack).
    apply IH; [lia|lia|]. apply inv_label; assumption.
  - apply unlabelled_false in Hu.
    apply IH.
    + unfold steps_left in *. simpl length in H1. lia.
    + unfold steps_left in *. simpl length in H2. lia.
    + apply (inv_skip labels i stack Hinv Hu).
Qed.

(** *** The loop over the samples *)

Lemma in_members (labels : list Z) (c : Z) (j : nat) :
  In j (members labels c) <->
  (j < length labels)%nat /\ lab labels j = c.
Proof.
  unfold members. rewrite filter_In, in_seq, Z.eqb_eq. intuition lia.
Qed.

Lemma members_nodup (labels : list Z) (c : Z) : NoDup (members labels c).
Proof. apply NoDup_filter, seq_NoDup. Qed.

Lemma cluster_size_extends (k c : Z) (l l' : list Z) :
  extends k l l' -> c <> noise ->
  (cluster_size l c <= cluster_size l' c)%nat.
Proof.
  intros He Hc. rewrite !cluster_size_members.
  apply NoDup_incl_length; [apply members_nodup|].
  intros j Hj. apply in_members in Hj. destruct Hj as [Hlt Hl].
  apply in_members. destruct He as [Hlen He]. split; [lia|].
  destruct (He j) as [E | [E _]]; congruence.
Qed.

Lemma cluster_size_claim (labels : list Z) (c : Z) (claim : list nat) :
  NoDup claim ->
  (forall v, In v claim -> (v < length labels)%nat /\ lab labels v = c) ->
  (length claim <= cluster_size labels c)%nat.
Proof.
  intros Hnd H. rewrite cluster_size_members.
  apply NoDup_incl_length; [exact Hnd|].
  intros v Hv. apply in_members. apply H. exact Hv.
Qed.

(** Around an unlabelled core sample nothing is labelled yet. *)
Lemma fresh_neighborhood (labels : list Z) (i v : nat) :
  length labels = n -> closed labels [] -> supported labels ->
  (i < n)%nat -> lab labels i = noise -> core i = true ->
  In v (N i) -> lab labels v = noise.
Proof using nb_refl nb_sym.
  intros Hlen Hcl Hsup Hi Hli Hci Hv.
  apply in_neighborhood in Hv. destruct Hv as [Hvn Hnb].
  destruct (Z.eq_dec (lab labels v) noise) as [E | Hlv]; [exact E|].
  exfalso.
  destruct (core v) eqn:Hcv.
  - destruct (Hcl v i Hvn Hlv Hcv) as [H | []].
    + apply in_neighborhood. split; [exact Hi|].
      rewrite nb_sym. exact Hnb.
    + contradiction.
  - destruct (Hsup v Hvn Hlv Hcv) as [u (Hun & Hcu & Hnbu & Hlu)].
    assert (Hcore : core v = true).
    { apply (core_of_three v u i); try assumption.
      - rewrite nb_sym. exact Hnbu.
      - rewrite nb_sym. exact Hnb.
      - intro E. subst u. congruence.
      - intro E. subst v. contradiction.
      - intro E. subst u. contradiction. }
    congruence.
Qed.

Lemma visit_inv (st : list Z * Z) (i : nat) :
  (i < n)%nat -> outer_inv st -> outer_inv (Sk.visit n nb 3 st i).
Proof using nb_refl nb_sym.
  destruct st as [labels k].
  intros Hi (Hlen & Hk & Hrange & Hcl & Hsup & Hsize).
  unfold Sk.visit.
  destruct (Sk.unlabelled labels i) eqn:Hu; simpl negb;
    [|split; [exact Hlen|]; auto].
  destruct (core i) eqn:Hci; simpl negb; simpl orb;
    [|split; [exact Hlen|]; auto].
  apply unlabelled_true in Hu.
  assert (Hc : k <> noise) by lia.
  assert (Hfresh : forall v, In v (N i) -> lab labels v = noise).
  { intros v Hv.
    apply (fresh_neighborhood labels i v); assumption. }
  set (labels' := Sk.set_label labels i k).
  assert (Hstep : Sk.expand n nb 3 (Sk.fuel_bound n) k labels [i] =
                  Sk.expand n nb 3 (n * S n + 1) k labels'
                            (pushed labels' i [])).
  { unfold Sk.fuel_bound.
    replace (n * S n + 2)%nat with (S (n * S n + 1)) by lia.
    cbn [Sk.expand].
    assert (Hu' : Sk.unlabelled labels i = true)
      by (apply unlabelled_true; exact Hu).
    rewrite Hu'. reflexivity. }
  rewrite Hstep.
  assert (Hinv0 : loop_inv labels [i]).
  { repeat split; try assumption.
    - intros u v Hun Hlu Hcu Hv. left.
      destruct (Hcl u v Hun Hlu Hcu Hv) as [H | []]. exact H.
    - destruct H as [<- | []]. exact Hi.
    - destruct H as [<- | []]. intro E. congruence. }
  assert (Hli : (i < length labels)%nat) by (rewrite Hlen; exact Hi).
  destruct (expand_spec k (N i) Hc (n * S n + 1)%nat labels'
                        (pushed labels' i []))
    as (Hext & (Hlen' & Hcl' & Hsup' & _) & Hclaim).
  - pose proof (steps_left_label k labels i [] Hc Hli Hu) as Hlt.
    fold labels' in Hlt. unfold steps_left in *. simpl length in Hlt.
    pose proof (cluster_size_bound labels noise) as Hb.
    rewrite Hlen in Hb.
    assert (cluster_size labels noise * S n <= n * S n)%nat
      by (apply Nat.mul_le_mono_r; exact Hb).
    lia.
  - apply inv_label; assumption.
  - intros v Hv. destruct (Nat.eq_dec v i) as [-> | Hne].
    + left. apply label_set_same. exact Hli.
    + right. unfold labels'. rewrite label_set_other by auto.
      split; [apply Hfresh; exact Hv|].
      apply in_pushed. left. split; [exact Hci|]. split; [exact Hv|].
      rewrite label_set_other by auto. apply Hfresh. exact Hv.
  - set (result := Sk.expand n nb 3 (n * S n + 1) k labels'
                             (pushed labels' i [])) in *.
    assert (Hall : extends k labels result).
    { apply (extends_trans k labels labels');
        [apply extends_set; exact Hu|exact Hext]. }
    split; [exact Hlen'|]. split; [lia|]. split; [|split; [|split]].
    + intro j. destruct Hall as [_ Hall].
      destruct (Hall j) as [E | [_ E]]; rewrite E.
      * destruct (Hrange j) as [H | H]; [left; exact H|right; lia].
      * right. lia.
    + exact Hcl'.
    + exact Hsup'.
    + intros c Hcr.
      destruct (Z.eq_dec c k) as [-> | Hne].
      * apply Nat.le_trans with (length (N i));
          [apply core_length; exact Hci|].
        apply cluster_size_claim; [apply neighborhood_nodup|].
        intros v Hv. split; [|apply Hclaim; exact Hv].
        rewrite Hlen'. apply in_neighborhood in Hv. tauto.
      * apply Nat.le_trans with (cluster_size labels c);
          [apply Hsize; lia|].
        apply (cluster_size_extends k c labels result Hall). lia.
Qed.

Lemma fold_visit_inv (l : list nat) (st : list Z * Z) :
  (forall i, In i l -> (i < n)%nat) ->
  outer_inv st -> outer_inv (fold_left (Sk.visit n nb 3) l st).
Proof using nb_refl nb_sym.
  revert st. induction l as [|i l IH]; intros st Hl Hst; [exact Hst|].
  simpl. apply IH; [intros j Hj; apply Hl; right; exact Hj|].
  apply visit_inv; [apply Hl; left; reflexivity|exact Hst].
Qed.

Lemma label_repeat (j : nat) : lab (repeat noise n) j = noise.
Proof. unfold Sk.label_of. apply nth_repeat. Qed.

Lemma initial_inv : outer_inv (repeat noise n, 0%Z).
Proof.
  split; [apply repeat_length|]. split; [lia|]. split; [|split; [|split]].
  - intro j. left. apply label_repeat.
  - intros u v _ Hl. exfalso. apply Hl. apply label_repeat.
  - intros v _ Hl. exfalso. apply Hl. apply label_repeat.
  - intros c Hc. lia.
Qed.

(** The labels of [dbscan_inner]: one per sample, and every label other
    than noise is carried by at least three samples. *)
Lemma dbscan_inner_clusters :
  length (Sk.dbscan_inner n nb 3) = n /\
  forall c, In c (Sk.dbscan_inner n nb 3) -> c <> noise ->
            (3 <= cluster_size (Sk.dbscan_inner n nb 3) c)%nat.
Proof using nb_refl nb_sym.
  unfold Sk.dbscan_inner.
  pose proof (fold_visit_inv (seq 0 n) (repeat noise n, 0%Z)) as H.
  destruct (fold_left (Sk.visit n nb 3) (seq 0 n) (repeat noise n, 0%Z))
    as [labels k].
  destruct H as (Hlen & _ & Hrange & _ & _ & Hsize).
  - intros i Hin. apply in_seq in Hin. lia.
  - apply initial_inv.
  - simpl. split; [exact Hlen|].
    intros c Hin Hc. apply Hsize.
    destruct (In_nth labels c noise Hin) as [j [_ Hj]].
    destruct (Hrange j) as [E | E]; unfold Sk.label_of in E;
      rewrite Hj in E; [contradiction|exact E].
Qed.

End DbscanClusters.

(** Four samples on a line, the first three within reach of one another
    and the fourth alone: one cluster and one noise sample. *)
Example dbscan_inner_three_and_one :
  Sk.dbscan_inner 4 (fun i j => (i <? 3)%nat && (j <? 3)%nat || (i =? j)%nat)
                  3 =
  [0; 0; 0; -1]%Z.
Proof. reflexivity. Qed.

(** Seven samples in a row, each within reach of the next only: every
    sample but the two ends is a core sample, and one cluster takes them
    all. *)
Example dbscan_inner_chain :
  Sk.dbscan_inner 7 (fun i j => (i - j <=? 1)%nat && (j - i <=? 1)%nat) 3 =
  [0; 0; 0; 0; 0; 0; 0]%Z.
Proof. reflexivity. Qed.

(** Two groups of three, far apart: two clusters, numbered in the order of
    their first sample. *)
Example dbscan_inner_two_groups :
  Sk.dbscan_inner 6 (fun i j => (i / 3 =? j / 3)%nat) 3 =
  [0; 0; 0; 1; 1; 1]%Z.
Proof. reflexivity. Qed.

(** ** DBSCAN on feature vectors *)

Lemma euclid_self (p : list R) : Sk.euclid p p = 0%R.
Proof.
  unfold Sk.euclid. rewrite sum_zeros; [apply sqrt_0|].
  apply Forall_map. apply Forall_forall. intros [a b] Hin.
  assert (E : a = b).
  { clear -Hin. induction p as [|x p IH]; simpl in Hin; [destruct Hin|].
    destruct Hin as [H | H]; [congruence|apply IH; exact H]. }
  simpl. subst b. ring.
Qed.

Lemma euclid_sym (p q : list R) : Sk.euclid p q = Sk.euclid q p.
Proof.
  unfold Sk.euclid. apply (f_equal sqrt). revert q.
  induction p as [|x p IH]; intros [|y q];
    cbn [combine map Np.sum fst snd]; try reflexivity.
  rewrite IH. ring.
Qed.

Lemma within_refl (eps : R) (X : list (list R)) (i : nat) :
  (0 <= eps)%R -> Sk.within eps X i i = true.
Proof.
  intro H. unfold Sk.within. apply leb_true. rewrite euclid_self. exact H.
Qed.

Lemma within_sym (eps : R) (X : list (list R)) (i j : nat) :
  Sk.within eps X i j = Sk.within eps X j i.
Proof. unfold Sk.within. rewrite euclid_sym. reflexivity. Qed.

Lemma DBSCAN_clusters (eps : R) (X : list (list R)) :
  (0 <= eps)%R ->
  length (Sk.DBSCAN eps 3 X) = length X /\
  forall c, In c (Sk.DBSCAN eps 3 X) -> c <> (-1)%Z ->
            (3 <= cluster_size (Sk.DBSCAN eps 3 X) c)%nat.
Proof.
  intro H. unfold Sk.DBSCAN. apply dbscan_inner_clusters.
  - intros i _. apply within_refl. exact H.
  - apply within_sym.
Qed.

(** ** Threat zones *)

Lemma insert_unique_in (x y : Z) (l : list Z) :
  In y (Np.insert_unique x l) <-> y = x \/ In y l.
Proof.
  induction l as [|z l IH]; simpl; [intuition|].
  destruct (x <? z)%Z eqn:E1; simpl; [intuition|].
  destruct (x =? z)%Z eqn:E2; simpl.
  - apply Z.eqb_eq in E2. subst z. intuition.
  - rewrite IH. intuition.
Qed.

Lemma unique_in (l : list Z) (c : Z) : In c (Np.unique l) <-> In c l.
Proof.
  unfold Np.unique. induction l as [|x l IH]; simpl; [reflexivity|].
  rewrite insert_unique_in, IH. intuition.
Qed.

Lemma select_length {A : Type} (rows : list A) (labels : list Z) (c : Z) :
  length rows = length labels ->
  length (Np.select rows labels c) = cluster_size labels c.
Proof.
  unfold Np.select, cluster_size. rewrite length_map. revert labels.
  induction rows as [|r rows IH]; intros [|l labels] H; simpl in *;
    try discriminate; [reflexivity|].
  destruct (l =? c)%Z; simpl; rewrite IH; auto.
Qed.

Lemma generate_threat_zones_items (self : ThreatAnalyzer) :
  generate_threat_zones self =
  if (length (threat_frame self) <? 3)%nat then []
  else flat_map (zone_of (threat_frame self) (zone_clusters self))
                (Np.unique (zone_clusters self)).
Proof.
  unfold generate_threat_zones. fold (threat_frame self).
  destruct (length (threat_frame self) <? 3)%nat; [reflexivity|].
  cbv zeta. fold (zone_clusters self).
  rewrite (fold_left_append _
             (zone_of (threat_frame self) (zone_clusters self)));
    [reflexivity|].
  intros acc c _. unfold zone_step, zone_of.
  destruct (c =? -1)%Z; [rewrite app_nil_r|]; reflexivity.
Qed.

Lemma zone_clusters_spec (self : ThreatAnalyzer) :
  length (zone_clusters self) = length (threat_frame self) /\
  forall c, In c (zone_clusters self) -> c <> (-1)%Z ->
            (3 <= cluster_size (zone_clusters self) c)%nat.
Proof.
  unfold zone_clusters.
  destruct (DBSCAN_clusters 5 (zone_features (threat_frame self)))
    as [Hlen Hsize]; [lra|].
  split; [|exact Hsize].
  rewrite Hlen. unfold zone_features. apply length_map.
Qed.

(** A returned zone is the zone of a cluster label that is not noise. *)
Lemma in_generate_threat_zones (self : ThreatAnalyzer) (z : Zone.t) :
  In z (generate_threat_zones self) <->
  (3 <= length (threat_frame self))%nat /\
  exists c, In c (zone_clusters self) /\ c <> (-1)%Z /\
            z = make_zone c
                  (Np.select (threat_frame self) (zone_clusters self) c).
Proof.
  rewrite generate_threat_zones_items.
  destruct (length (threat_frame self) <? 3)%nat eqn:E.
  - apply Nat.ltb_lt in E. split; [intros []|]. intros [H _]. lia.
  - apply Nat.ltb_ge in E. rewrite in_flat_map. split.
    + intros [c [Hc Hz]]. split; [exact E|]. exists c.
      apply (proj1 (unique_in _ _)) in Hc. unfold zone_of in Hz.
      destruct (c =? -1)%Z eqn:Ec; [destruct Hz|].
      apply Z.eqb_neq in Ec. destruct Hz as [<- | []]. auto.
    + intros [_ [c (Hc & Hne & ->)]]. exists c.
      split; [apply unique_in; exact Hc|].
      unfold zone_of. apply Z.eqb_neq in Hne. rewrite Hne.
      left. reflexivity.
Qed.

(** The labels depend on the neighbour test only through its values on the
    samples. *)
Lemma neighborhood_ext (n : nat) (nb nb' : nat -> nat -> bool) (i : nat) :
  (forall i j, (j < n)%nat -> nb i j = nb' i j) ->
  Sk.neighborhood n nb i = Sk.neighborhood n nb' i.
Proof.
  intro H. unfold Sk.neighborhood. apply filter_ext_in.
  intros j Hj. apply in_seq in Hj. apply H. lia.
Qed.

Lemma expand_ext (n : nat) (nb nb' : nat -> nat -> bool) (m : nat) :
  (forall i j, (j < n)%nat -> nb i j = nb' i j) ->
  forall fuel c labels work,
    Sk.expand n nb m fuel c labels work =
    Sk.expand n nb' m fuel c labels work.
Proof.
  intro H. induction fuel as [|fuel IH]; intros c labels work;
    [reflexivity|].
  destruct work as [|i stack]; [reflexivity|].
  cbn [Sk.expand]. unfold Sk.is_core.
  rewrite (neighborhood_ext n nb nb' i H), !IH. reflexivity.
Qed.

Lemma dbscan_inner_ext (n : nat) (nb nb' : nat -> nat -> bool) (m : nat) :
  (forall i j, (j < n)%nat -> nb i j = nb' i j) ->
  Sk.dbscan_inner n nb m = Sk.dbscan_inner n nb' m.
Proof.
  intro H. unfold Sk.dbscan_inner. f_equal.
  generalize (repeat (-1)%Z n, 0%Z). generalize (seq 0 n).
  intro l. induction l as [|i l IH]; intro st; [reflexivity|].
  simpl. rewrite <- IH. f_equal.
  destruct st as [labels k]. unfold Sk.visit, Sk.is_core.
  rewrite (neighborhood_ext n nb nb' i H), (expand_ext n nb nb' m H).
  reflexivity.
Qed.

(** Samples that coincide are all within reach of each other. *)
Lemma within_coincident (eps : R) (X : list (list R)) (x : list R)
      (i j : nat) :
  (0 <= eps)%R -> (forall p, In p X -> p = x) ->
  Sk.within eps X i j = true.
Proof.
  intros Heps HX. unfold Sk.within. apply leb_true.
  assert (Hn : forall k, nth k X [] = x \/ nth k X [] = []).
  { intro k. destruct (nth_in_or_default k X []) as [H | H]; auto. }
  destruct (Hn i) as [-> | ->], (Hn j) as [-> | ->].
  - rewrite euclid_self. exact Heps.
  - unfold Sk.euclid. rewrite combine_nil. simpl. rewrite sqrt_0. exact Heps.
  - unfold Sk.euclid. simpl. rewrite sqrt_0. exact Heps.
  - rewrite euclid_self. exact Heps.
Qed.

Lemma hot_spot_clusters : zone_clusters hot_spot = [0; 0; 0]%Z.
Proof.
  unfold zone_clusters, Sk.DBSCAN.
  rewrite (dbscan_inner_ext _ _ (fun _ _ => true)).
  - reflexivity.
  - intros i j _. apply (within_coincident 5 _ [10; 20]%R); [lra|].
    intros p Hp. simpl in Hp. intuition.
Qed.

Lemma hot_spot_zones :
  generate_threat_zones hot_spot =
  [make_zone 0 (threat_frame hot_spot)].
Proof.
  rewrite generate_threat_zones_items, hot_spot_clusters. reflexivity.
Qed.

(** C10. Every zone returned by [generate_threat_zones] counts at least 3
    events: with a minimum neighbourhood size of 3, every cluster of DBSCAN
    holds at least 3 samples. *)
Theorem zones_count_at_least_three (self : ThreatAnalyzer) (z : Zone.t) :
  In z (generate_threat_zones self) -> (3 <= Zone.threat_count z)%nat.
Proof.
  intro H. apply in_generate_threat_zones in H.
  destruct H as [_ [c (Hc & Hne & ->)]].
  destruct (zone_clusters_spec self) as [Hlen Hsize].
  simpl. rewrite select_length by (symmetry; exact Hlen).
  apply Hsize; assumption.
Qed.

Lemma zones_count_at_least_three_witness :
  (3 <= Zone.threat_count (make_zone 0 (threat_frame hot_spot)))%nat.
Proof.
  apply (zones_count_at_least_three hot_spot).
  rewrite hot_spot_zones. left. reflexivity.
Defined.

(** ** What a zone summarizes *)

(** *** Ascending order of names *)

Lemma leb_spec (a b : string) :
  String.leb a b = true <-> a = b \/ String_as_OT.lt a b.
Proof.
  unfold String.leb. rewrite <- String_as_OT.cmp_lt, <- String_as_OT.cmp_eq.
  unfold String_as_OT.cmp.
  destruct (String.compare a b); intuition discriminate.
Qed.

Lemma leb_refl (a : string) : String.leb a a = true.
Proof. apply leb_spec. left. reflexivity. Qed.

Lemma leb_trans (a b c : string) :
  String.leb a b = true -> String.leb b c = true -> String.leb a c = true.
Proof.
  rewrite !leb_spec. intros [-> | Hab] [-> | Hbc]; auto.
  right. apply (String_as_OT.lt_trans _ _ _ Hab Hbc).
Qed.

Lemma insert_sorted_in (k x : string) (l : list string) :
  In x (Pd.insert_sorted k l) <-> x = k \/ In x l.
Proof.
  induction l as [|y l IH]; simpl; [intuition|].
  destruct (String.leb k y); simpl; [intuition|].
  rewrite IH. intuition.
Qed.

Lemma sort_in (x : string) (l : list string) :
  In x (Pd.sort l) <-> In x l.
Proof.
  unfold Pd.sort. induction l as [|y l IH]; simpl; [reflexivity|].
  rewrite insert_sorted_in, IH. intuition.
Qed.

Lemma hd_insert_sorted (k : string) (s : list string) :
  hd ""%string (Pd.insert_sorted k s) =
  match s with
  | [] => k
  | y :: _ => if String.leb k y then k else y
  end.
Proof.
  destruct s as [|y s]; simpl; [reflexivity|].
  destruct (String.leb k y); reflexivity.
Qed.

(** The head of the sorted list is below every element. *)
Lemma hd_sort_least (l : list string) (x : string) :
  In x l -> String.leb (hd ""%string (Pd.sort l)) x = true.
Proof.
  revert x. induction l as [|a l IH]; intros x Hx; [destruct Hx|].
  change (Pd.sort (a :: l)) with (Pd.insert_sorted a (Pd.sort l)).
  rewrite hd_insert_sorted.
  destruct (Pd.sort l) as [|y s] eqn:Es.
  - assert (Hl : l = []).
    { destruct l as [|b l']; [reflexivity|].
      assert (Hb : In b (Pd.sort (b :: l'))) by (apply sort_in; left; reflexivity).
      rewrite Es in Hb. destruct Hb. }
    subst l. destruct Hx as [<- | []]. apply leb_refl.
  - simpl in IH.
    destruct (String.leb a y) eqn:Eay.
    + destruct Hx as [<- | Hx]; [apply leb_refl|].
      apply (leb_trans a y x Eay). apply IH. exact Hx.
    + destruct Hx as [<- | Hx]; [|apply IH; exact Hx].
      destruct (String.leb_total a y) as [H | H]; [congruence|exact H].
Qed.

Lemma hd_sort_in (l : list string) :
  l <> [] -> In (hd ""%string (Pd.sort l)) l.
Proof.
  intro H. apply sort_in.
  destruct (Pd.sort l) as [|y s] eqn:Es; [|left; reflexivity].
  exfalso. destruct l as [|a l]; [contradiction|].
  assert (Ha : In a (Pd.sort (a :: l))) by (apply sort_in; left; reflexivity).
  rewrite Es in Ha. destruct Ha.
Qed.

(** *** The most frequent kind *)

Lemma max_bound {A : Type} (f : A -> nat) (l : list A) (x : A) :
  In x l -> (f x <= fold_right Nat.max 0%nat (map f l))%nat.
Proof.
  induction l as [|y l IH]; simpl; [intros []|].
  intros [-> | H]; [lia|]. specialize (IH H). lia.
Qed.

Lemma max_attained {A : Type} (f : A -> nat) (l : list A) :
  l <> [] -> exists x, In x l /\ f x = fold_right Nat.max 0%nat (map f l).
Proof.
  induction l as [|y l IH]; [contradiction|]. intros _.
  destruct l as [|z l'].
  - exists y. split; [left; reflexivity|]. simpl. lia.
  - destruct IH as [x [Hx Hm]]; [discriminate|].
    cbn [map fold_right] in *.
    destruct (Nat.max_dec (f y) (Nat.max (f z)
                (fold_right Nat.max 0%nat (map f l')))) as [E | E].
    + exists y. split; [left; reflexivity|]. lia.
    + exists x. split; [right; exact Hx|]. lia.
Qed.

Lemma count_le_max (l : list string) (k : string) :
  (Pd.count k l <= Pd.max_count l)%nat.
Proof.
  destruct (in_dec string_dec k l) as [Hin | Hout].
  - apply (max_bound (fun k => Pd.count k l) l k Hin).
  - unfold Pd.count. rewrite (proj1 (count_occ_not_In string_dec l k) Hout).
    lia.
Qed.

Lemma mode_dominant (l : list string) :
  l <> [] -> Spec.dominant l (hd ""%string (Pd.mode l)).
Proof.
  intro Hl. unfold Pd.mode.
  set (cands := nodup string_dec
                  (filter (fun k => (Pd.count k l =? Pd.max_count l)%nat) l)).
  assert (Hcand : forall k, In k cands <->
                            In k l /\ Pd.count k l = Pd.max_count l).
  { intro k. unfold cands. rewrite nodup_In, filter_In, Nat.eqb_eq.
    reflexivity. }
  assert (Hne : cands <> []).
  { destruct (max_attained (fun k => Pd.count k l) l Hl) as [x [Hx Hm]].
    intro E. assert (Hin : In x cands) by (apply Hcand; auto).
    rewrite E in Hin. destruct Hin. }
  pose proof (hd_sort_in cands Hne) as Hhd.
  apply Hcand in Hhd. destruct Hhd as [Hin Hmax].
  split; [exact Hin|]. split.
  - intro k'. rewrite Hmax. apply count_le_max.
  - intros k' Hk'. apply hd_sort_least. apply Hcand.
    rewrite Hk', Hmax. split; [|reflexivity].
    apply (count_occ_In string_dec). fold (Pd.count k' l).
    rewrite Hk'.
    apply (count_occ_In string_dec) in Hin. exact Hin.
Qed.

(** *** Severity *)

Lemma severity_scores_name (s : Spec.Severity) :
  severity_scores (Spec.name s) = Some (Spec.rank s).
Proof. destruct s; reflexivity. Qed.

Lemma valid_some (l : list R) : Pd.valid (map Some l) = l.
Proof.
  induction l as [|x l IH]; simpl; [reflexivity|]. rewrite IH. reflexivity.
Qed.

Lemma zone_severity_bucket (a : R) :
  zone_severity (Some a) = Spec.name (Spec.bucket a).
Proof.
  unfold zone_severity, Spec.bucket, Np.ltb.
  destruct (Rlt_dec a (3 / 2)); [reflexivity|].
  destruct (Rlt_dec a (5 / 2)); [reflexivity|].
  destruct (Rlt_dec a (7 / 2)); reflexivity.
Qed.

Lemma make_zone_summarizes (c : Z) (members : list ThreatEvent)
      (sevs : list Spec.Severity) :
  members <> [] ->
  map Spec.name sevs = map ThreatEvent.severity members ->
  Spec.summarizes members sevs (make_zone c (map trow_of_event members)).
Proof.
  intros Hne Hsev. unfold Spec.summarizes, make_zone. cbn [Zone.center_lat
    Zone.center_lon Zone.severity Zone.dominant_threat Zone.radius
    Zone.threat_count].
  rewrite !map_map. cbn [trow_of_event TRow.lat TRow.lon TRow.severity
    TRow.type].
  split; [reflexivity|]. split; [reflexivity|]. split; [|split].
  - rewrite <- (map_map ThreatEvent.severity severity_scores), <- Hsev.
    rewrite (map_map Spec.name severity_scores).
    rewrite (map_ext _ (fun s => Some (Spec.rank s)) severity_scores_name).
    rewrite <- (map_map Spec.rank Some).
    unfold Pd.mean. rewrite valid_some.
    destruct (map Spec.rank sevs) as [|x l] eqn:E.
    + exfalso. destruct sevs; [|discriminate].
      destruct members; [contradiction|discriminate].
    + apply zone_severity_bucket.
  - apply mode_dominant. destruct members; [contradiction|discriminate].
  - split; [reflexivity|]. apply length_map.
Qed.


(** *** The frame and the events *)








(** The zone of [hot_spot]: the three kinds are equally frequent and the
    first in ascending order is reported, not the first recorded; the mean
    rank is 8/3. *)
Example hot_spot_zone :
  exists z,
    generate_threat_zones hot_spot = [z] /\
    Zone.dominant_threat z = "DEBRIS_FIELD"%string /\
    Zone.severity z = "HIGH"%string /\
    Zone.threat_count z = 3%nat.
Proof.
  eexists. split; [apply hot_spot_zones|].
  split; [reflexivity|]. split; [|reflexivity].
  destruct (make_zone_summarizes 0 (threat_events hot_spot)
              [Spec.LOW; Spec.HIGH; Spec.CRITICAL])
    as (_ & _ & Hsev & _); [discriminate|reflexivity|].
  change (threat_frame hot_spot)
    with (map trow_of_event (threat_events hot_spot)).
  rewrite Hsev. unfold Spec.bucket, Np.mean.
  cbn [map Spec.rank Np.sum length].
  replace ((1 + (3 + (4 + 0))) / INR 3)%R with (8 / 3)%R
    by (simpl; lra).
  destruct (Rlt_dec (8 / 3) (3 / 2)); [lra|].
  destruct (Rlt_dec (8 / 3) (5 / 2)); [lra|].
  destruct (Rlt_dec (8 / 3) (7 / 2)); [reflexivity|lra].
Qed.


(* ================================================================== *)
(** * Part III: further properties of the code                         *)
(* ================================================================== *)

(** ** The store *)

Lemma lastn_snoc {A : Type} (k : nat) (l : list A) (x : A) :
  Py.lastn (S k) (l ++ [x]) = Py.lastn k l ++ [x].
Proof.
  unfold Py.lastn. rewrite length_app, skipn_app. simpl length.
  replace (length l + 1 - S k)%nat with (length l - k)%nat by lia.
  replace (length l - k - length l)%nat with 0%nat by lia.
  reflexivity.
Qed.

Lemma last_opt_snoc {A : Type} (l : list A) (x : A) :
  Py.last_opt (l ++ [x]) = Some x.
Proof. unfold Py.last_opt. rewrite rev_app_distr. reflexivity. Qed.

Lemma last_opt_in {A : Type} (l : list A) (x : A) :
  Py.last_opt l = Some x -> In x l.
Proof.
  unfold Py.last_opt. destruct (rev l) as [|y r] eqn:E; [discriminate|].
  intro H. injection H as ->. apply in_rev. rewrite E. left. reflexivity.
Qed.

(** X1. After [update_satellite_position] the latest sample of the
    sample's satellite is that sample; the history of every other
    satellite and the stored events are untouched. *)
Theorem update_then_latest (self : ThreatAnalyzer)
        (position : SatellitePosition) :
  latest (update_satellite_position self position)
         (SatellitePosition.satellite_id position) = Some position /\
  (forall sat_id,
      sat_id <> SatellitePosition.satellite_id position ->
      Py.get (satellite_positions (update_satellite_position self position))
             sat_id =
      Py.get (satellite_positions self) sat_id) /\
  threat_events (update_satellite_position self position) =
  threat_events self.
Proof.
  split; [|split].
  - unfold latest. rewrite update_satellite_position_spec, get_set_same.
    rewrite lastn_snoc. apply last_opt_snoc.
  - intros sat_id H. apply update_history_other. auto.
  - reflexivity.
Qed.

Lemma in_lastn {A : Type} (k : nat) (l : list A) (x : A) :
  In x (Py.lastn k l) -> In x l.
Proof.
  unfold Py.lastn. intro H.
  rewrite <- (firstn_skipn (length l - k) l). apply in_or_app. right.
  exact H.
Qed.

Lemma record_filed (self : ThreatAnalyzer) (op : record_op) :
  filed self -> filed (record self op).
Proof.
  intro H. destruct op as [position | threat]; unfold record; [|exact H].
  intros sat_id h Hin. rewrite update_satellite_position_spec in Hin.
  apply in_set in Hin. destruct Hin as [Hin | [-> ->]]; [apply H; exact Hin|].
  split.
  - rewrite lastn_snoc. intro E. apply app_eq_nil in E.
    destruct E as [_ E]. discriminate.
  - intros p Hp. apply in_lastn in Hp. apply in_app_or in Hp.
    destruct Hp as [Hp | [<- | []]]; [|reflexivity].
    unfold history in Hp.
    destruct (Py.get (satellite_positions self)
                     (SatellitePosition.satellite_id position)) as [h0|]
      eqn:Eg; [|destruct Hp].
    apply get_in in Eg. apply (H _ _ Eg). exact Hp.
Qed.

(** X2. After any sequence of record operations on a new analyzer the keys
    of the position dictionary are distinct, every stored history is
    non-empty, so that every known satellite has a latest sample, and every
    sample is filed under its own satellite id. *)
Theorem stored_histories_well_filed (ops : list record_op) :
  let self := fold_left record ops init in
  wf_store self /\
  (forall sat_id h,
      In (sat_id, h) (satellite_positions self) ->
      (exists p, Py.last_opt h = Some p) /\
      forall p, In p h -> SatellitePosition.satellite_id p = sat_id).
Proof.
  cbv zeta.
  assert (H : forall ops self,
             wf_store self /\ filed self ->
             wf_store (fold_left record ops self) /\
             filed (fold_left record ops self)).
  { clear ops. induction ops as [|op ops IH]; intros self [Hw Hf];
      [split; assumption|].
    simpl. apply IH. split; [apply record_wf|apply record_filed]; assumption. }
  destruct (H ops init) as [Hw Hf].
  { split; [apply init_wf|]. intros sat_id h []. }
  split; [exact Hw|]. intros sat_id h Hin.
  destruct (Hf sat_id h Hin) as [Hne Hsat].
  split; [apply last_opt_some; exact Hne|exact Hsat].
Qed.

Lemma record_keys (self : ThreatAnalyzer) (op : record_op) :
  exists more,
    Py.keys (satellite_positions (record self op)) =
    Py.keys (satellite_positions self) ++ more.
Proof.
  destruct op as [position | threat]; unfold record.
  - rewrite update_satellite_position_spec.
    destruct (Py.contains (satellite_positions self)
                          (SatellitePosition.satellite_id position)) eqn:E.
    + exists []. rewrite keys_set_present by exact E.
      rewrite app_nil_r. reflexivity.
    + exists [SatellitePosition.satellite_id position].
      apply keys_set_absent. exact E.
  - exists []. rewrite app_nil_r. reflexivity.
Qed.

(** X3. Record operations never forget a satellite: after any sequence of
    them the satellites known before are still the first keys of the
    dictionary, in the same order, and a satellite that had a latest sample
    still has one. *)
Theorem satellites_never_forgotten (self : ThreatAnalyzer)
        (ops : list record_op) :
  (exists more,
      Py.keys (satellite_positions (fold_left record ops self)) =
      Py.keys (satellite_positions self) ++ more) /\
  (forall sat_id p,
      latest self sat_id = Some p ->
      exists q, latest (fold_left record ops self) sat_id = Some q).
Proof.
  revert self. induction ops as [|op ops IH]; intro self.
  - split; [exists []; rewrite app_nil_r; reflexivity|].
    intros sat_id p H. exists p. exact H.
  - simpl. destruct (IH (record self op)) as [[more Hk] Hl]. split.
    + destruct (record_keys self op) as [more0 Hk0].
      exists (more0 ++ more). rewrite Hk, Hk0, app_assoc. reflexivity.
    + intros sat_id p Hp.
      assert (Hq : exists q, latest (record self op) sat_id = Some q).
      { destruct op as [position | threat]; unfold record;
          [|exists p; exact Hp].
        destruct (Z.eq_dec sat_id (SatellitePosition.satellite_id position))
          as [-> | Hne].
        - exists position.
          unfold latest.
          rewrite update_satellite_position_spec, get_set_same.
          rewrite lastn_snoc. apply last_opt_snoc.
        - exists p. unfold latest.
          rewrite update_history_other by auto. exact Hp. }
      destruct Hq as [q Hq]. apply (Hl sat_id q Hq).
Qed.

Lemma add_events_spec (evs : list ThreatEvent) (self : ThreatAnalyzer) :
  (length (threat_events self) <= 1000)%nat ->
  threat_events (fold_left add_threat_event evs self) =
  Py.lastn 1000 (threat_events self ++ evs) /\
  satellite_positions (fold_left add_threat_event evs self) =
  satellite_positions self.
Proof.
  revert self. induction evs as [|e evs IH]; intros self Hlen; simpl.
  - rewrite app_nil_r, lastn_all by exact Hlen. split; reflexivity.
  - destruct (IH (add_threat_event self e)) as [He Hp].
    { rewrite add_threat_event_spec, lastn_length. lia. }
    split.
    + rewrite He, add_threat_event_spec, lastn_lastn_app, <- app_assoc.
      reflexivity.
    + rewrite Hp. reflexivity.
Qed.

(** X4. Adding a list of events one by one to a store that holds at most
    1000 events leaves the last 1000 of the former events followed by the
    new ones, and does not touch the positions; when the list is not empty
    the newest stored event is its last event. *)
Theorem add_events_keeps_newest (evs : list ThreatEvent)
        (self : ThreatAnalyzer) :
  (length (threat_events self) <= 1000)%nat ->
  threat_events (fold_left add_threat_event evs self) =
  Py.lastn 1000 (threat_events self ++ evs) /\
  satellite_positions (fold_left add_threat_event evs self) =
  satellite_positions self /\
  (forall e, Py.last_opt evs = Some e ->
             Py.last_opt (threat_events (fold_left add_threat_event evs self))
             = Some e).
Proof.
  intro Hlen. destruct (add_events_spec evs self Hlen) as [He Hp].
  split; [exact He|]. split; [exact Hp|].
  intros e Hl. rewrite He.
  assert (Hs : exists front, evs = front ++ [e]).
  { unfold Py.last_opt in Hl. destruct (rev evs) as [|x r] eqn:E;
      [discriminate|]. injection Hl as ->. exists (rev r).
    rewrite <- (rev_involutive evs), E. reflexivity. }
  destruct Hs as [front ->].
  rewrite app_assoc, (lastn_snoc 999). apply last_opt_snoc.
Qed.

Lemma add_events_keeps_newest_witness :
  Py.last_opt
    (threat_events
       (fold_left add_threat_event (threat_events hot_spot) init)) =
  Py.last_opt (threat_events hot_spot).
Proof.
  destruct (add_events_keeps_newest (threat_events hot_spot) init)
    as (_ & _ & H).
  - simpl. lia.
  - apply H. reflexivity.
Defined.

(** ** The 3D distance as a distance *)

Lemma dot_le_norms (a b c a' b' c' : R) :
  (a * a' + b * b' + c * c'
   <= sqrt (a * a + b * b + c * c) * sqrt (a' * a' + b' * b' + c' * c'))%R.
Proof.
  set (U := (a * a + b * b + c * c)%R).
  set (V := (a' * a' + b' * b' + c' * c')%R).
  set (d := (a * a' + b * b' + c * c')%R).
  assert (HU : (0 <= U)%R).
  { unfold U. pose proof (Rle_0_sqr a). pose proof (Rle_0_sqr b).
    pose proof (Rle_0_sqr c). unfold Rsqr in *. lra. }
  rewrite <- sqrt_mult_alt by exact HU.
  destruct (Rle_dec d 0) as [Hd | Hd].
  - apply Rle_trans with 0%R; [exact Hd|apply sqrt_pos].
  - assert (Hcs : (d * d <= U * V)%R).
    { pose proof (Rle_0_sqr (a * b' - b * a')) as H1.
      pose proof (Rle_0_sqr (a * c' - c * a')) as H2.
      pose proof (Rle_0_sqr (b * c' - c * b')) as H3.
      unfold Rsqr in H1, H2, H3.
      assert (E : (U * V - d * d =
                   (a * b' - b * a') * (a * b' - b * a')
                   + (a * c' - c * a') * (a * c' - c * a')
                   + (b * c' - c * b') * (b * c' - c * b'))%R)
        by (unfold U, V, d; ring).
      lra. }
    rewrite <- (sqrt_square d) by lra.
    apply sqrt_le_1_alt. exact Hcs.
Qed.

Lemma norm_triangle (a b c a' b' c' : R) :
  (sqrt ((a + a') ^ 2 + (b + b') ^ 2 + (c + c') ^ 2)
   <= sqrt (a ^ 2 + b ^ 2 + c ^ 2) + sqrt (a' ^ 2 + b' ^ 2 + c' ^ 2))%R.
Proof.
  set (U := (a ^ 2 + b ^ 2 + c ^ 2)%R).
  set (V := (a' ^ 2 + b' ^ 2 + c' ^ 2)%R).
  assert (HU : (0 <= U)%R).
  { unfold U. pose proof (pow2_ge_0 a). pose proof (pow2_ge_0 b).
    pose proof (pow2_ge_0 c). lra. }
  assert (HV : (0 <= V)%R).
  { unfold V. pose proof (pow2_ge_0 a'). pose proof (pow2_ge_0 b').
    pose proof (pow2_ge_0 c'). lra. }
  pose proof (sqrt_pos U) as HsU. pose proof (sqrt_pos V) as HsV.
  rewrite <- (sqrt_square (sqrt U + sqrt V)) by lra.
  apply sqrt_le_1_alt.
  pose proof (dot_le_norms a b c a' b' c') as Hdot.
  replace (a * a + b * b + c * c)%R with U in Hdot by (unfold U; ring).
  replace (a' * a' + b' * b' + c' * c')%R with V in Hdot by (unfold V; ring).
  pose proof (sqrt_sqrt U HU) as EU. pose proof (sqrt_sqrt V HV) as EV.
  replace ((sqrt U + sqrt V) * (sqrt U + sqrt V))%R
    with (sqrt U * sqrt U + sqrt V * sqrt V + 2 * (sqrt U * sqrt V))%R
    by ring.
  rewrite EU, EV.
  replace ((a + a') ^ 2 + (b + b') ^ 2 + (c + c') ^ 2)%R
    with (U + V + 2 * (a * a' + b * b' + c * c'))%R
    by (unfold U, V; ring).
  set (P := (sqrt U * sqrt V)%R) in *.
  set (d := (a * a' + b * b' + c * c')%R) in *.
  lra.
Qed.

(** X5. The computed 3D distance is never negative; two samples above the
    same ground point are separated by the absolute difference of their
    altitudes, and a sample is at distance 0 from itself. *)
Theorem distance_of_same_ground_point (pos1 pos2 : SatellitePosition) :
  (0 <= _calculate_3d_distance pos1 pos2)%R /\
  _calculate_3d_distance pos1 pos1 = 0%R /\
  (SatellitePosition.latitude pos1 = SatellitePosition.latitude pos2 ->
   SatellitePosition.longitude pos1 = SatellitePosition.longitude pos2 ->
   _calculate_3d_distance pos1 pos2 =
   Rabs (SatellitePosition.altitude pos2
         - SatellitePosition.altitude pos1)).
Proof.
  split; [apply distance_nonneg|]. split.
  - rewrite distance_radial by reflexivity.
    rewrite Rminus_diag. apply Rabs_R0.
  - apply distance_radial.
Qed.

Lemma distance_of_same_ground_point_witness :
  _calculate_3d_distance (above_origin 1 500 1) (above_origin 2 2000 1) =
  Rabs (2000 - 500).
Proof.
  destruct (distance_of_same_ground_point (above_origin 1 500 1)
                                          (above_origin 2 2000 1))
    as (_ & _ & H).
  apply H; reflexivity.
Defined.

(** X6. The computed 3D distance satisfies the triangle inequality: going
    through a third sample is never shorter. *)
Theorem distance_triangle (pos1 pos2 pos3 : SatellitePosition) :
  (_calculate_3d_distance pos1 pos3
   <= _calculate_3d_distance pos1 pos2 + _calculate_3d_distance pos2 pos3)%R.
Proof.
  unfold _calculate_3d_distance. cbv zeta.
  set (x1 := ((6371 + SatellitePosition.altitude pos1)
              * cos (Np.radians (SatellitePosition.latitude pos1))
              * cos (Np.radians (SatellitePosition.longitude pos1)))%R).
  set (y1 := ((6371 + SatellitePosition.altitude pos1)
              * cos (Np.radians (SatellitePosition.latitude pos1))
              * sin (Np.radians (SatellitePosition.longitude pos1)))%R).
  set (z1 := ((6371 + SatellitePosition.altitude pos1)
              * sin (Np.radians (SatellitePosition.latitude pos1)))%R).
  set (x2 := ((6371 + SatellitePosition.altitude pos2)
              * cos (Np.radians (SatellitePosition.latitude pos2))
              * cos (Np.radians (SatellitePosition.longitude pos2)))%R).
  set (y2 := ((6371 + SatellitePosition.altitude pos2)
              * cos (Np.radians (SatellitePosition.latitude pos2))
              * sin (Np.radians (SatellitePosition.longitude pos2)))%R).
  set (z2 := ((6371 + SatellitePosition.altitude pos2)
              * sin (Np.radians (SatellitePosition.latitude pos2)))%R).
  set (x3 := ((6371 + SatellitePosition.altitude pos3)
              * cos (Np.radians (SatellitePosition.latitude pos3))
              * cos (Np.radians (SatellitePosition.longitude pos3)))%R).
  set (y3 := ((6371 + SatellitePosition.altitude pos3)
              * cos (Np.radians (SatellitePosition.latitude pos3))
              * sin (Np.radians (SatellitePosition.longitude pos3)))%R).
  set (z3 := ((6371 + SatellitePosition.altitude pos3)
              * sin (Np.radians (SatellitePosition.latitude pos3)))%R).
  replace (x3 - x1)%R with ((x2 - x1) + (x3 - x2))%R by ring.
  replace (y3 - y1)%R with ((y2 - y1) + (y3 - y2))%R by ring.
  replace (z3 - z1)%R with ((z2 - z1) + (z3 - z2))%R by ring.
  apply norm_triangle.
Qed.

(** ** The proximity detector *)

(** X7. The proximity detector returns exactly one event for every other
    stored satellite whose latest sample is at a computed distance below
    100 km, and nothing else: never an event of the satellite against
    itself, never one for a satellite without a sample or at 100 km or
    more; so it returns at most one event per stored satellite. *)
Theorem proximity_events_exactly (format_float : nat -> R -> string)
        (self : ThreatAnalyzer) (sat_id : Z) (current_pos : SatellitePosition)
        (e : ThreatEvent) :
  (In e (_detect_proximity_threats format_float self sat_id current_pos) <->
   exists other h other_pos,
     In (other, h) (satellite_positions self) /\
     other <> sat_id /\
     Py.last_opt h = Some other_pos /\
     (_calculate_3d_distance current_pos other_pos < 100)%R /\
     e = proximity_event format_float sat_id other current_pos other_pos
           (_calculate_3d_distance current_pos other_pos)) /\
  (length (_detect_proximity_threats format_float self sat_id current_pos)
   <= length (satellite_positions self))%nat.
Proof.
  rewrite detect_proximity_threats_items. split.
  - rewrite in_flat_map. split.
    + intros [[other h] [Hin He]]. unfold proximity_item in He.
      simpl in He.
      destruct (other =? sat_id)%Z eqn:E; [destruct He|].
      apply Z.eqb_neq in E.
      destruct (Py.last_opt h) as [other_pos|] eqn:El; [|destruct He].
      cbv zeta in He.
      destruct (Np.ltb (_calculate_3d_distance current_pos other_pos) 100)
        eqn:Ed; [|destruct He].
      apply ltb_true in Ed. destruct He as [<- | []].
      exists other, h, other_pos. auto.
    + intros [other [h [other_pos (Hin & Hne & Hl & Hd & ->)]]].
      exists (other, h). split; [exact Hin|].
      unfold proximity_item. simpl.
      apply Z.eqb_neq in Hne. rewrite Hne, Hl. cbv zeta.
      apply ltb_true in Hd. rewrite Hd. left. reflexivity.
  - induction (satellite_positions self) as [|[other h] d IH];
      [simpl; lia|].
    simpl. rewrite length_app.
    assert (Hone : (length (proximity_item format_float sat_id current_pos
                              (other, h)) <= 1)%nat).
    { unfold proximity_item. simpl.
      destruct (other =? sat_id)%Z; [simpl; lia|].
      destruct (Py.last_opt h); [|simpl; lia].
      cbv zeta. destruct (Np.ltb _ 100); simpl; lia. }
    lia.
Qed.

(** ** The velocity detector *)

Lemma in_combine_diff_from (prev : Row.t) (df : list Row.t) (row : Row.t)
      (c : R) :
  In (row, Some c)
     (combine df (Pd.diff_from (Row.vel prev) (map Row.vel df))) ->
  exists i p,
    nth_error (prev :: df) i = Some p /\
    nth_error (prev :: df) (S i) = Some row /\
    c = (Row.vel row - Row.vel p)%R.
Proof.
  revert prev. induction df as [|r df IH]; intros prev Hin;
    [destruct Hin|].
  simpl in Hin. destruct Hin as [Hin | Hin].
  - injection Hin as <- <-. exists 0%nat, prev. auto.
  - destruct (IH r Hin) as [i [p (H1 & H2 & H3)]].
    exists (S i), p. auto.
Qed.

(** X8. Every event of the velocity detector is a VELOCITY_ANOMALY of
    severity MEDIUM for the analysed satellite that reports one row of the
    window, never the first: source and target are the coordinates of that
    row and the reported change is its speed minus the speed of the row
    before it. *)
Theorem velocity_event_reports_a_change
        (format_float : nat -> R -> string) (df : list Row.t) (sat_id : Z)
        (e : ThreatEvent) :
  In e (_detect_velocity_anomalies format_float df sat_id) ->
  exists i before row,
    nth_error df i = Some before /\
    nth_error df (S i) = Some row /\
    e = velocity_event format_float sat_id
          (row, Some (Row.vel row - Row.vel before)%R) /\
    ThreatEvent.threat_type e = "VELOCITY_ANOMALY"%string /\
    ThreatEvent.severity e = "MEDIUM"%string /\
    ThreatEvent.satellite_id e = Some sat_id /\
    ThreatEvent.source_lat e = Row.lat row /\
    ThreatEvent.source_lon e = Row.lon row /\
    ThreatEvent.target_lat e = Row.lat row /\
    ThreatEvent.target_lon e = Row.lon row.
Proof.
  unfold _detect_velocity_anomalies.
  destruct (length df <? 5)%nat; [intros []|].
  cbv zeta. intro H. apply in_map_iff in H.
  destruct H as [[row oc] [<- Hin]].
  apply filter_In in Hin. destruct Hin as [Hin Hmask]. simpl in Hmask.
  destruct oc as [c|]; [|discriminate].
  destruct df as [|r0 df]; [destruct Hin|].
  simpl in Hin. destruct Hin as [Hin | Hin]; [discriminate|].
  destruct (in_combine_diff_from r0 df row c Hin) as [i [p (H1 & H2 & ->)]].
  exists i, p, row. repeat split; assumption.
Qed.

Lemma velocity_event_reports_a_change_witness :
  exists e i before row,
    In e (_detect_velocity_anomalies plain_format
            (map row_of_pos spike_history) 7) /\
    nth_error (map row_of_pos spike_history) i = Some before /\
    nth_error (map row_of_pos spike_history) (S i) = Some row /\
    ThreatEvent.source_lat e = Row.lat row.
Proof.
  destruct (spike_velocity_events plain_format
              (map row_of_pos spike_history) 7 eq_refl)
    as (r6 & r7 & _ & _ & Hev).
  assert (Hin : In (velocity_event plain_format 7 (r6, Some (3 / 2)%R))
                   (_detect_velocity_anomalies plain_format
                      (map row_of_pos spike_history) 7))
    by (rewrite Hev; left; reflexivity).
  destruct (velocity_event_reports_a_change plain_format _ 7 _ Hin)
    as (i & before & row & H1 & H2 & _ & _ & _ & _ & H3 & _).
  exists (velocity_event plain_format 7 (r6, Some (3 / 2)%R)), i, before, row.
  auto.
Defined.

(** *** How many rows can be flagged *)

Lemma sum_map_nonneg {A : Type} (f : A -> R) (l : list A) :
  (forall x, 0 <= f x)%R -> (0 <= Np.sum (map f l))%R.
Proof.
  intro H. induction l as [|x l IH]; simpl; [lra|].
  specialize (H x). lra.
Qed.

Lemma sum_filter_le {A : Type} (f : A -> R) (p : A -> bool) (l : list A) :
  (forall x, 0 <= f x)%R ->
  (Np.sum (map f (filter p l)) <= Np.sum (map f l))%R.
Proof.
  intro H. induction l as [|x l IH]; simpl; [lra|].
  specialize (H x). destruct (p x); simpl; lra.
Qed.

Lemma sum_above {A : Type} (f : A -> R) (b : R) (l : list A) :
  (forall x, In x l -> b < f x)%R -> l <> [] ->
  (b * INR (length l) < Np.sum (map f l))%R.
Proof.
  intros H Hne. induction l as [|x l IH]; [contradiction|].
  cbn [length map Np.sum]. rewrite S_INR.
  pose proof (H x (or_introl eq_refl)) as Hx.
  destruct l as [|y l'].
  - simpl. lra.
  - assert (IH' : (b * INR (length (y :: l')) < Np.sum (map f (y :: l')))%R).
    { apply IH; [|discriminate]. intros z Hz. apply H. right. exact Hz. }
    lra.
Qed.

(** Fewer than a quarter of the values lie further than two standard
    deviations from any centre [m], the deviation being taken around
    [m]. *)
Lemma beyond_two_deviations (v : list R) (m : R) :
  (2 <= length v)%nat ->
  let s := sqrt (Np.sum (map (fun x => ((x - m) ^ 2)%R) v)
                 / INR (length v - 1)) in
  (4 * length (filter (fun x => Np.gtb (Rabs (x - m)) (2 * s)) v) + 2
   <= length v)%nat.
Proof.
  intros HN s.
  set (f := fun x : R => ((x - m) ^ 2)%R).
  set (Q := Np.sum (map f v)) in *.
  set (D := INR (length v - 1)) in *.
  set (F := filter (fun x => Np.gtb (Rabs (x - m)) (2 * s)) v).
  assert (Hf : forall x, (0 <= f x)%R) by (intro x; apply pow2_ge_0).
  assert (HD : (0 < D)%R) by (unfold D; apply lt_0_INR; lia).
  assert (HQ : (0 <= Q)%R) by (apply sum_map_nonneg; exact Hf).
  assert (HV : (0 <= Q / D)%R).
  { unfold Rdiv. apply Rmult_le_pos; [exact HQ|].
    left. apply Rinv_0_lt_compat. exact HD. }
  assert (Hs : (s * s = Q / D)%R) by (apply sqrt_sqrt; exact HV).
  assert (Hs0 : (0 <= s)%R) by apply sqrt_pos.
  destruct F as [|x0 F'] eqn:EF; [simpl; lia|].
  assert (Hflag : forall x, In x F -> (4 * (Q / D) < f x)%R).
  { intros x Hx. unfold F in Hx. apply filter_In in Hx.
    destruct Hx as [_ Hx]. unfold Np.gtb in Hx. apply ltb_true in Hx.
    unfold f. rewrite <- Hs.
    replace ((x - m) ^ 2)%R with (Rabs (x - m) * Rabs (x - m))%R.
    - assert (H2 : (0 <= 2 * s)%R) by lra.
      replace (4 * (s * s))%R with ((2 * s) * (2 * s))%R by ring.
      apply Rmult_le_0_lt_compat; assumption.
    - rewrite <- Rabs_mult. rewrite Rabs_pos_eq; [ring|].
      replace ((x - m) * (x - m))%R with ((x - m) ^ 2)%R by ring.
      apply pow2_ge_0. }
  assert (Habove : (4 * (Q / D) * INR (length F) < Np.sum (map f F))%R).
  { apply sum_above; [exact Hflag|]. rewrite EF. discriminate. }
  assert (Hle : (Np.sum (map f F) <= Q)%R)
    by (unfold F, Q; apply sum_filter_le; exact Hf).
  assert (HQD : (Q = (Q / D) * D)%R) by (field; lra).
  assert (Hlt : ((Q / D) * (4 * INR (length F)) < (Q / D) * D)%R) by lra.
  assert (Hpos : (0 < Q / D)%R).
  { destruct HV as [H | H]; [exact H|]. rewrite <- H in Hlt. lra. }
  apply Rmult_lt_reg_l in Hlt; [|exact Hpos].
  assert (Hnat : (4 * length F < length v - 1)%nat).
  { apply INR_lt. rewrite mult_INR. simpl INR at 1.
    unfold D in Hlt. lra. }
  rewrite <- EF. lia.
Qed.

Lemma diff_length (s : list R) : length (Pd.diff s) = length s.
Proof.
  destruct s as [|x s]; [reflexivity|]. simpl. f_equal.
  revert x. induction s as [|y s IH]; intro x; simpl; [reflexivity|].
  rewrite IH. reflexivity.
Qed.

Lemma valid_diff_length (s : list R) :
  length (Pd.valid (Pd.diff s)) = (length s - 1)%nat.
Proof.
  destruct s as [|x s]; [reflexivity|]. simpl. rewrite Nat.sub_0_r.
  revert x. induction s as [|y s IH]; intro x; simpl; [reflexivity|].
  rewrite IH. reflexivity.
Qed.

Lemma filter_combine_snd_length {A B : Type} (f : B -> bool)
      (l1 : list A) (l2 : list B) :
  length l1 = length l2 ->
  length (filter (fun p => f (snd p)) (combine l1 l2)) =
  length (filter f l2).
Proof.
  revert l2. induction l1 as [|a l1 IH]; intros [|b l2] H; simpl in *;
    try discriminate; [reflexivity|].
  destruct (f b); simpl; rewrite IH; auto.
Qed.

Lemma mask_valid_length (changes : list (option R)) (m s : R) :
  length (filter (fun c => velocity_mask c (Some m) (Some s)) changes) =
  length (filter (fun x => Np.gtb (Rabs (x - m)) (2 * s))
                 (Pd.valid changes)).
Proof.
  induction changes as [|[c|] changes IH]; simpl; [reflexivity| |exact IH].
  destruct (Np.gtb (Rabs (c - m)) (2 * s)); simpl; rewrite IH; reflexivity.
Qed.

(** X9. On a window of at least 5 rows the velocity detector flags fewer
    than a quarter of the speed changes: with [k] events, [4 k + 3] is at
    most the number of rows, so a window of 50 rows gives at most 11
    events. *)
Theorem velocity_anomalies_are_few
        (format_float : nat -> R -> string) (df : list Row.t) (sat_id : Z) :
  (5 <= length df)%nat ->
  (4 * length (_detect_velocity_anomalies format_float df sat_id) + 3
   <= length df)%nat.
Proof.
  intro Hlen. unfold _detect_velocity_anomalies.
  destruct (length df <? 5)%nat eqn:E; [apply Nat.ltb_lt in E; lia|].
  cbv zeta. rewrite length_map.
  set (changes := Pd.diff (map Row.vel df)).
  assert (Hc : length df = length changes)
    by (unfold changes; rewrite diff_length, length_map; reflexivity).
  rewrite (filter_combine_snd_length
             (fun c => velocity_mask c (Pd.mean changes) (Pd.std changes))
             df changes Hc).
  assert (Hv : length (Pd.valid changes) = (length df - 1)%nat)
    by (unfold changes; rewrite valid_diff_length, length_map; reflexivity).
  unfold Pd.mean, Pd.std.
  destruct (Pd.valid changes) as [|x v] eqn:Ev; [simpl in Hv; lia|].
  rewrite <- Ev in *.
  destruct (length (Pd.valid changes) <=? 1)%nat eqn:E1;
    [apply Nat.leb_le in E1; lia|].
  cbv zeta. rewrite mask_valid_length.
  pose proof (beyond_two_deviations (Pd.valid changes)
                (Np.mean (Pd.valid changes))) as H.
  cbv zeta in H. specialize (H ltac:(lia)). lia.
Qed.

Lemma velocity_anomalies_are_few_witness :
  (4 * length (_detect_velocity_anomalies plain_format
                 (map row_of_pos spike_history) 7) + 3
   <= length (map row_of_pos spike_history))%nat.
Proof.
  apply velocity_anomalies_are_few. simpl. lia.
Defined.

(** ** DBSCAN: which samples are noise *)

Section DbscanNoise.

Variable n : nat.
Variable nb : nat -> nat -> bool.

Hypothesis nb_refl : forall i, (i < n)%nat -> nb i i = true.
Hypothesis nb_sym : forall i j, nb i j = nb j i.

Local Abbreviation N := (Sk.neighborhood n nb).
Local Abbreviation core := (Sk.is_core n nb 3).
Local Abbreviation lab := Sk.label_of.
Local Abbreviation noise := (-1)%Z.
Local Abbreviation outer_inv := (outer_inv n nb).
Local Abbreviation loop_inv := (loop_inv n nb).
Local Abbreviation pushed := (pushed n nb).
Local Abbreviation steps_left := (steps_left n).

(** One turn of the outer loop keeps the labels already given and labels
    the sample it visits when that is a core sample. *)
Lemma visit_step (st : list Z * Z) (i : nat) :
  (i < n)%nat -> outer_inv st ->
  (forall j, lab (fst st) j <> noise ->
             lab (fst (Sk.visit n nb 3 st i)) j <> noise) /\
  (core i = true -> lab (fst (Sk.visit n nb 3 st i)) i <> noise).
Proof using nb_refl nb_sym.
  destruct st as [labels k].
  intros Hi (Hlen & Hk & Hrange & Hcl & Hsup & Hsize).
  unfold Sk.visit. cbn [fst].
  destruct (Sk.unlabelled labels i) eqn:Hu; cbn [negb orb].
  2:{ cbn [fst]. split; [auto|]. intros _.
      apply unlabelled_false. exact Hu. }
  destruct (core i) eqn:Hci; cbn [negb fst].
  2:{ split; [auto|discriminate]. }
  apply unlabelled_true in Hu.
  assert (Hc : k <> noise) by lia.
  set (labels' := Sk.set_label labels i k).
  assert (Hstep : Sk.expand n nb 3 (Sk.fuel_bound n) k labels [i] =
                  Sk.expand n nb 3 (n * S n + 1) k labels'
                            (pushed labels' i [])).
  { unfold Sk.fuel_bound.
    replace (n * S n + 2)%nat with (S (n * S n + 1)) by lia.
    cbn [Sk.expand].
    assert (Hu' : Sk.unlabelled labels i = true)
      by (apply unlabelled_true; exact Hu).
    rewrite Hu'. reflexivity. }
  rewrite Hstep.
  assert (Hli : (i < length labels)%nat) by (rewrite Hlen; exact Hi).
  assert (Hinv0 : loop_inv labels [i]).
  { repeat split; try assumption.
    - intros u v Hun Hlu Hcu Hv. left.
      destruct (Hcl u v Hun Hlu Hcu Hv) as [H | []]. exact H.
    - destruct H as [<- | []]. exact Hi.
    - destruct H as [<- | []]. intro E. congruence. }
  destruct (expand_spec n nb nb_refl nb_sym k [] Hc (n * S n + 1)%nat
                        labels' (pushed labels' i []))
    as (Hext & _ & _).
  - pose proof (steps_left_label n nb k labels i [] Hc Hli Hu) as Hlt.
    fold labels' in Hlt. unfold steps_left in *. simpl length in Hlt.
    pose proof (cluster_size_bound labels noise) as Hb.
    rewrite Hlen in Hb.
    assert (cluster_size labels noise * S n <= n * S n)%nat
      by (apply Nat.mul_le_mono_r; exact Hb).
    lia.
  - apply (inv_label n nb nb_refl nb_sym); assumption.
  - intros v [].
  - assert (Hset : extends k labels labels')
      by (apply extends_set; exact Hu).
    split.
    + intros j Hj.
      apply (extends_keeps k labels' _ j Hc Hext).
      apply (extends_keeps k labels labels' j Hc Hset Hj).
    + intros _. apply (extends_keeps k labels' _ i Hc Hext).
      unfold labels'. rewrite label_set_same by exact Hli. exact Hc.
Qed.

Lemma fold_visit_core (l : list nat) (st : list Z * Z) :
  (forall i, In i l -> (i < n)%nat) -> outer_inv st ->
  (forall j, lab (fst st) j <> noise ->
             lab (fst (fold_left (Sk.visit n nb 3) l st)) j <> noise) /\
  (forall i, In i l -> core i = true ->
             lab (fst (fold_left (Sk.visit n nb 3) l st)) i <> noise).
Proof using nb_refl nb_sym.
  revert st. induction l as [|i l IH]; intros st Hl Hst.
  - split; [auto|intros i []].
  - simpl.
    assert (Hi : (i < n)%nat) by (apply Hl; left; reflexivity).
    destruct (visit_step st i Hi Hst) as [Hkeep Hcore].
    destruct (IH (Sk.visit n nb 3 st i)) as [Hkeep' Hcore'].
    + intros j Hj. apply Hl. right. exact Hj.
    + apply (visit_inv n nb nb_refl nb_sym); assumption.
    + split.
      * intros j Hj. apply Hkeep', Hkeep, Hj.
      * intros j [<- | Hj] Hc; [apply Hkeep', Hcore, Hc|].
        apply Hcore'; assumption.
Qed.

(** A sample is noise exactly when neither it nor any sample within reach
    of it is a core sample. *)
Lemma dbscan_inner_noise (v : nat) :
  (v < n)%nat ->
  lab (Sk.dbscan_inner n nb 3) v = noise <->
  core v = false /\
  forall u, (u < n)%nat -> nb u v = true -> core u = false.
Proof using nb_refl nb_sym.
  intro Hv. unfold Sk.dbscan_inner.
  assert (Hseq : forall i, In i (seq 0 n) -> (i < n)%nat)
    by (intros i Hi; apply in_seq in Hi; lia).
  pose proof (fold_visit_inv n nb nb_refl nb_sym (seq 0 n)
                (repeat noise n, 0%Z) Hseq (initial_inv n nb)) as Hinv.
  destruct (fold_visit_core (seq 0 n) (repeat noise n, 0%Z) Hseq
              (initial_inv n nb)) as [_ Hcore].
  destruct (fold_left (Sk.visit n nb 3) (seq 0 n) (repeat noise n, 0%Z))
    as [labels k].
  destruct Hinv as (Hlen & _ & _ & Hcl & Hsup & _). cbn [fst] in *.
  assert (Hlabelled : forall u, (u < n)%nat -> core u = true ->
                                lab labels u <> noise).
  { intros u Hu Hc. apply Hcore; [apply in_seq; lia|exact Hc]. }
  split.
  - intro Hnoise. split.
    + destruct (core v) eqn:Hc; [|reflexivity].
      exfalso. apply (Hlabelled v Hv Hc). exact Hnoise.
    + intros u Hu Hnb. destruct (core u) eqn:Hc; [|reflexivity].
      exfalso.
      destruct (Hcl u v Hu (Hlabelled u Hu Hc) Hc) as [H | []].
      * apply in_neighborhood. auto.
      * contradiction.
  - intros [Hc Hnear].
    destruct (Z.eq_dec (lab labels v) noise) as [E | Hne]; [exact E|].
    exfalso. destruct (Hsup v Hv Hne Hc) as [u (Hu & Hcu & Hnb & _)].
    rewrite (Hnear u Hu Hnb) in Hcu. discriminate.
Qed.

End DbscanNoise.

Lemma DBSCAN_noise (eps : R) (X : list (list R)) (v : nat) :
  (0 <= eps)%R ->
  (v < length X)%nat ->
  Sk.label_of (Sk.DBSCAN eps 3 X) v = (-1)%Z <->
  (crowd eps X v < 3)%nat /\
  forall u, (u < length X)%nat -> Sk.within eps X u v = true ->
            (crowd eps X u < 3)%nat.
Proof.
  intros Heps Hv. unfold Sk.DBSCAN.
  rewrite (dbscan_inner_noise (length X) (Sk.within eps X)
             (fun i _ => within_refl eps X i Heps) (within_sym eps X) v Hv).
  assert (Hcore : forall u,
             Sk.is_core (length X) (Sk.within eps X) 3 u = false <->
             (crowd eps X u < 3)%nat).
  { intro u. unfold Sk.is_core, crowd. rewrite Nat.leb_gt. reflexivity. }
  rewrite Hcore. split; intros [H1 H2]; (split; [exact H1|]);
    intros u Hu Hw; apply Hcore; apply H2; assumption.
Qed.

(** ** The trajectory detector *)

Lemma scale_column_length (col : list R) :
  length (Sk.scale_column col) = length col.
Proof. unfold Sk.scale_column. cbv zeta. apply length_map. Qed.

Lemma zip3_length (a b c : list R) :
  length b = length a -> length c = length a ->
  length (Sk.zip3 a b c) = length a.
Proof.
  revert b c. induction a as [|x a IH]; intros [|y b] [|z c] Hb Hc;
    simpl in *; try discriminate; [reflexivity|].
  f_equal. apply IH; lia.
Qed.

Lemma trajectory_features_length (df : list Row.t) :
  length (trajectory_features df) = length df.
Proof.
  unfold trajectory_features.
  rewrite zip3_length; rewrite !scale_column_length, !length_map;
    reflexivity.
Qed.

Lemma trajectory_clusters_length (df : list Row.t) :
  length (trajectory_clusters df) = length df.
Proof.
  unfold trajectory_clusters.
  destruct (DBSCAN_clusters (1 / 2) (trajectory_features df)) as [H _];
    [lra|].
  rewrite H. apply trajectory_features_length.
Qed.

(** Reading the rows at the positions that hold a label is selecting the
    rows by the label. *)
Lemma rows_at_where_eq {A B : Type} (g : A -> B) (rows : list A)
      (labels : list Z) (v : Z) :
  length rows = length labels ->
  flat_map (fun idx => match nth_error rows idx with
                       | Some row => [g row]
                       | None => []
                       end)
           (Np.where_eq labels v) =
  map g (Np.select rows labels v).
Proof.
  unfold Np.where_eq, Np.select. revert labels.
  induction rows as [|r rows IH]; intros [|x labels] H; simpl in H;
    try discriminate; [reflexivity|].
  cbn [length seq filter combine nth].
  rewrite <- seq_shift, filter_map_swap.
  assert (Htail :
            flat_map (fun idx => match nth_error (r :: rows) idx with
                                 | Some row => [g row]
                                 | None => []
                                 end)
                     (map S (filter (fun a => (nth a labels 0 =? v)%Z)
                                    (seq 0 (length labels)))) =
            map g (map fst (filter (fun rl => (snd rl =? v)%Z)
                                   (combine rows labels)))).
  { rewrite flat_map_concat_map, map_map, <- flat_map_concat_map.
    cbn [nth_error]. apply IH. lia. }
  cbn [snd]. destruct (x =? v)%Z.
  - cbn [flat_map nth_error map fst]. rewrite Htail. reflexivity.
  - exact Htail.
Qed.

Lemma cluster_sizes_disjoint (labels : list Z) (c c' : Z) :
  c <> c' ->
  (cluster_size labels c + cluster_size labels c' <= length labels)%nat.
Proof.
  intro H. unfold cluster_size.
  induction labels as [|x l IH]; simpl; [lia|].
  destruct (x =? c)%Z eqn:E1, (x =? c')%Z eqn:E2; simpl; lia.
Qed.

Lemma cluster_size_all (labels : list Z) (c : Z) :
  (forall x, In x labels -> x = c) -> cluster_size labels c = length labels.
Proof.
  intro H. unfold cluster_size. rewrite filter_all; [reflexivity|].
  intros x Hx. apply Z.eqb_eq. apply H. exact Hx.
Qed.

Lemma detect_trajectory_rows (format_float : nat -> R -> string)
      (df : list Row.t) (sat_id : Z) :
  (10 <= length df)%nat ->
  _detect_trajectory_anomalies format_float df sat_id =
  map (trajectory_event format_float sat_id)
      (Np.select df (trajectory_clusters df) (-1)).
Proof.
  intro Hlen. unfold _detect_trajectory_anomalies.
  apply Nat.ltb_ge in Hlen. rewrite Hlen. cbv zeta.
  fold (trajectory_features df). fold (trajectory_clusters df).
  apply (rows_at_where_eq (trajectory_event format_float sat_id)).
  symmetry. apply trajectory_clusters_length.
Qed.

(** X10. On a window of at least 10 rows the trajectory detector returns,
    in window order, one TRAJECTORY_ANOMALY event for each row that DBSCAN
    labels as noise; since a cluster holds at least 3 rows, either every
    row of the window is reported or at least 3 rows are not. *)
Theorem trajectory_anomalies_are_the_noise_rows
        (format_float : nat -> R -> string) (df : list Row.t) (sat_id : Z) :
  (10 <= length df)%nat ->
  _detect_trajectory_anomalies format_float df sat_id =
  map (trajectory_event format_float sat_id)
      (Np.select df (trajectory_clusters df) (-1)) /\
  (length (_detect_trajectory_anomalies format_float df sat_id) = length df
   \/ (length (_detect_trajectory_anomalies format_float df sat_id) + 3
       <= length df)%nat).
Proof.
  intro Hlen. split; [apply detect_trajectory_rows; exact Hlen|].
  rewrite (detect_trajectory_rows format_float df sat_id Hlen).
  rewrite length_map, select_length
    by (symmetry; apply trajectory_clusters_length).
  pose proof (trajectory_clusters_length df) as Hl.
  destruct (DBSCAN_clusters (1 / 2) (trajectory_features df)) as [_ Hsize];
    [lra|]. fold (trajectory_clusters df) in Hsize.
  destruct (Forall_Exists_dec (fun x => x = (-1)%Z)
              (fun x => Z.eq_dec x (-1)) (trajectory_clusters df))
    as [Hall | Hex].
  - left. rewrite <- Hl. apply cluster_size_all.
    apply Forall_forall. exact Hall.
  - right. apply Exists_exists in Hex. destruct Hex as [c [Hc Hne]].
    pose proof (Hsize c Hc Hne) as H3.
    pose proof (cluster_sizes_disjoint (trajectory_clusters df) (-1) c
                  (not_eq_sym Hne)) as Hd.
    lia.
Qed.

Lemma trajectory_label_noise (df : list Row.t) (idx : nat) :
  (idx < length df)%nat ->
  Sk.label_of (trajectory_clusters df) idx = (-1)%Z <->
  (crowd (1 / 2) (trajectory_features df) idx < 3)%nat /\
  forall u, (u < length df)%nat ->
            Sk.within (1 / 2) (trajectory_features df) u idx = true ->
            (crowd (1 / 2) (trajectory_features df) u < 3)%nat.
Proof.
  intro H. unfold trajectory_clusters.
  rewrite <- (trajectory_features_length df) in *.
  apply DBSCAN_noise; [lra|exact H].
Qed.

(** X11. A row of the window is labelled as noise, and so reported by the
    trajectory detector, exactly when fewer than 3 rows of the window lie
    within 0.5 of it in standardized coordinates, itself included, and the
    same holds for every row within 0.5 of it. *)
Theorem trajectory_noise_is_sparse (df : list Row.t) (idx : nat) :
  (idx < length df)%nat ->
  Sk.label_of (trajectory_clusters df) idx = (-1)%Z <->
  (crowd (1 / 2) (trajectory_features df) idx < 3)%nat /\
  forall u, (u < length df)%nat ->
            Sk.within (1 / 2) (trajectory_features df) u idx = true ->
            (crowd (1 / 2) (trajectory_features df) u < 3)%nat.
Proof. apply trajectory_label_noise. Qed.

Lemma trajectory_anomalies_are_the_noise_rows_witness :
  length (_detect_trajectory_anomalies plain_format ten_rows 1) =
  length ten_rows \/
  (length (_detect_trajectory_anomalies plain_format ten_rows 1) + 3
   <= length ten_rows)%nat.
Proof.
  apply (trajectory_anomalies_are_the_noise_rows plain_format ten_rows 1).
  simpl. lia.
Defined.

Lemma trajectory_noise_is_sparse_witness :
  Sk.label_of (trajectory_clusters ten_rows) 0 = (-1)%Z <->
  (crowd (1 / 2) (trajectory_features ten_rows) 0 < 3)%nat /\
  forall u, (u < length ten_rows)%nat ->
            Sk.within (1 / 2) (trajectory_features ten_rows) u 0 = true ->
            (crowd (1 / 2) (trajectory_features ten_rows) u < 3)%nat.
Proof.
  apply (trajectory_noise_is_sparse ten_rows 0). simpl. lia.
Defined.

(** *** A steady trajectory *)

Lemma sum_constant (l : list R) (v : R) :
  Forall (fun x => x = v) l -> Np.sum l = (INR (length l) * v)%R.
Proof.
  induction 1 as [|x l Hx _ IH]; [simpl; lra|].
  cbn [Np.sum length]. rewrite S_INR, IH, Hx. ring.
Qed.

Lemma mean_constant (l : list R) (v : R) :
  l <> [] -> Forall (fun x => x = v) l -> Np.mean l = v.
Proof.
  intros Hne H. unfold Np.mean. rewrite (sum_constant l v H).
  field. apply not_0_INR. destruct l; [contradiction|discriminate].
Qed.

Lemma scale_constant (col : list R) (v : R) :
  Forall (fun x => x = v) col ->
  Forall (fun x => x = 0%R) (Sk.scale_column col).
Proof.
  intro H. destruct col as [|x0 col]; [constructor|].
  unfold Sk.scale_column. cbv zeta.
  rewrite (mean_constant (x0 :: col) v) by (discriminate || exact H).
  apply Forall_map. eapply Forall_impl; [|exact H].
  intros x ->. unfold Rdiv. rewrite Rminus_diag. apply Rmult_0_l.
Qed.

Lemma zip3_zeros (a b c : list R) (p : list R) :
  Forall (fun x => x = 0%R) a -> Forall (fun x => x = 0%R) b ->
  Forall (fun x => x = 0%R) c ->
  In p (Sk.zip3 a b c) -> p = [0; 0; 0]%R.
Proof.
  intro Ha. revert b c. induction Ha as [|x a Hx _ IH];
    intros b c Hb Hc Hin; [destruct Hin|].
  destruct Hb as [|y b Hy Hb]; [destruct Hin|].
  destruct Hc as [|z c Hz Hc]; [destruct Hin|].
  simpl in Hin. destruct Hin as [<- | Hin]; [subst; reflexivity|].
  apply (IH b c Hb Hc Hin).
Qed.

Lemma crowd_everyone (eps : R) (X : list (list R)) (i : nat) :
  (forall j, Sk.within eps X i j = true) -> crowd eps X i = length X.
Proof.
  intro H. unfold crowd, Sk.neighborhood.
  rewrite filter_all by (intros j _; apply H). apply length_seq.
Qed.

Lemma select_none {A : Type} (rows : list A) (labels : list Z) (v : Z) :
  length rows = length labels ->
  (forall j, (j < length labels)%nat -> Sk.label_of labels j <> v) ->
  Np.select rows labels v = [].
Proof.
  intros Hlen H. apply length_zero_iff_nil.
  rewrite select_length by exact Hlen.
  rewrite cluster_size_members. unfold members.
  rewrite filter_none; [reflexivity|].
  intros j Hj. apply in_seq in Hj. apply Z.eqb_neq. apply H. lia.
Qed.

(** X12. A window whose rows all have the same latitude, longitude and
    altitude gives no TRAJECTORY_ANOMALY event: every standardized feature
    is zero, all rows coincide and none is noise. *)
Theorem steady_trajectory_no_anomaly
        (format_float : nat -> R -> string) (df : list Row.t) (sat_id : Z)
        (la lo al : R) :
  (forall row, In row df ->
               Row.lat row = la /\ Row.lon row = lo /\ Row.alt row = al) ->
  _detect_trajectory_anomalies format_float df sat_id = [].
Proof.
  intro Hsame.
  destruct (Nat.lt_ge_cases (length df) 10) as [Hlt | Hge].
  { unfold _detect_trajectory_anomalies.
    apply Nat.ltb_lt in Hlt. rewrite Hlt. reflexivity. }
  rewrite (detect_trajectory_rows format_float df sat_id Hge).
  rewrite select_none; [reflexivity| |].
  - symmetry. apply trajectory_clusters_length.
  - intros j Hj Hnoise. rewrite trajectory_clusters_length in Hj.
    apply (trajectory_label_noise df j Hj) in Hnoise.
    destruct Hnoise as [Hcrowd _].
    rewrite crowd_everyone in Hcrowd.
    + rewrite trajectory_features_length in Hcrowd. lia.
    + intro u. apply (within_coincident (1 / 2) _ [0; 0; 0]%R); [lra|].
      intros p Hp. unfold trajectory_features in Hp.
      apply (zip3_zeros _ _ _ p) in Hp; [exact Hp| | |].
      * apply (scale_constant _ la). apply Forall_map, Forall_forall.
        intros row Hrow. apply (Hsame row Hrow).
      * apply (scale_constant _ lo). apply Forall_map, Forall_forall.
        intros row Hrow. apply (Hsame row Hrow).
      * apply (scale_constant _ al). apply Forall_map, Forall_forall.
        intros row Hrow. apply (Hsame row Hrow).
Qed.

Lemma steady_trajectory_no_anomaly_witness :
  _detect_trajectory_anomalies plain_format ten_rows 1 = [].
Proof.
  apply (steady_trajectory_no_anomaly plain_format ten_rows 1 0 0 500).
  intros row Hin. unfold ten_rows in Hin.
  apply in_map_iff in Hin. destruct Hin as [p [<- Hp]].
  apply in_map_iff in Hp. destruct Hp as [t [<- _]].
  repeat split.
Defined.

(** ** Threat zones: which events they count, and how many zones *)




Lemma insert_unique_sorted (x : Z) (l : list Z) :
  StronglySorted Z.lt l -> StronglySorted Z.lt (Np.insert_unique x l).
Proof.
  induction 1 as [|y l Hl IH Hy]; simpl.
  - constructor; constructor.
  - destruct (x <? y)%Z eqn:E1.
    + apply Z.ltb_lt in E1. constructor.
      * constructor; assumption.
      * constructor; [exact E1|].
        eapply Forall_impl; [|exact Hy]. intros z Hz. lia.
    + destruct (x =? y)%Z eqn:E2; [constructor; assumption|].
      apply Z.ltb_ge in E1. apply Z.eqb_neq in E2.
      constructor; [exact IH|].
      apply Forall_forall. intros z Hz.
      apply insert_unique_in in Hz. destruct Hz as [-> | Hz]; [lia|].
      rewrite Forall_forall in Hy. apply Hy. exact Hz.
Qed.

Lemma unique_sorted (l : list Z) : StronglySorted Z.lt (Np.unique l).
Proof.
  unfold Np.unique. induction l as [|x l IH]; simpl; [constructor|].
  apply insert_unique_sorted. exact IH.
Qed.

Lemma sorted_filter (f : Z -> bool) (l : list Z) :
  StronglySorted Z.lt l -> StronglySorted Z.lt (filter f l).
Proof.
  induction 1 as [|y l Hl IH Hy]; simpl; [constructor|].
  destruct (f y); [|exact IH]. constructor; [exact IH|].
  apply Forall_forall. intros z Hz. apply filter_In in Hz.
  rewrite Forall_forall in Hy. apply Hy. tauto.
Qed.

Lemma sorted_nodup (l : list Z) : StronglySorted Z.lt l -> NoDup l.
Proof.
  induction 1 as [|y l Hl IH Hy]; constructor; [|exact IH].
  intro Hin. rewrite Forall_forall in Hy. specialize (Hy y Hin). lia.
Qed.

(** Distinct labels share no sample. *)
Lemma cluster_sizes_sum (labels : list Z) (cs : list Z) :
  NoDup cs ->
  (list_sum (map (cluster_size labels) cs) <= length labels)%nat.
Proof.
  intro Hnd. unfold cluster_size.
  induction labels as [|x l IH]; simpl.
  - induction cs as [|c cs IHc]; simpl; [lia|].
    inversion Hnd; subst. auto.
  - assert (Hstep : forall cs0, NoDup cs0 ->
              (list_sum (map (fun c => length
                                (if (x =? c)%Z
                                 then x :: filter (fun l0 => (l0 =? c)%Z) l
                                 else filter (fun l0 => (l0 =? c)%Z) l)) cs0)
               <= (if in_dec Z.eq_dec x cs0 then 1 else 0)
                  + list_sum (map (fun c => length
                                     (filter (fun l0 => (l0 =? c)%Z) l)) cs0)
              )%nat).
    { clear. induction cs0 as [|c cs0 IH0]; intro Hnd0; simpl; [lia|].
      inversion Hnd0 as [|? ? Hni Hnd1]; subst. specialize (IH0 Hnd1).
      destruct (Z.eq_dec c x) as [-> | Hne].
      - rewrite Z.eqb_refl. simpl length.
        destruct (in_dec Z.eq_dec x cs0) as [Hin | _]; [contradiction|].
        lia.
      - assert (E : (x =? c)%Z = false) by (apply Z.eqb_neq; auto).
        rewrite E.
        destruct (in_dec Z.eq_dec x cs0); lia. }
    specialize (Hstep cs Hnd).
    destruct (in_dec Z.eq_dec x cs); lia.
Qed.

Lemma three_each (f : Z -> nat) (cs : list Z) :
  (forall c, In c cs -> (3 <= f c)%nat) ->
  (3 * length cs <= list_sum (map f cs))%nat.
Proof.
  induction cs as [|c cs IH]; intro H; simpl; [lia|].
  pose proof (H c (or_introl eq_refl)).
  assert (3 * length cs <= list_sum (map f cs))%nat
    by (apply IH; intros c' Hc'; apply H; right; exact Hc').
  lia.
Qed.

Lemma flat_map_zone_of (rows : list TRow.t) (clusters cs : list Z) :
  flat_map (zone_of rows clusters) cs =
  map (fun c => make_zone c (Np.select rows clusters c))
      (filter (fun c => negb (c =? -1)%Z) cs).
Proof.
  induction cs as [|c cs IH]; simpl; [reflexivity|].
  unfold zone_of at 1. destruct (c =? -1)%Z; simpl; rewrite IH; reflexivity.
Qed.

(** X14. The zones come one per cluster label other than noise, in
    ascending order of the labels, and three times their number is at most
    the number of events of the window, which is at most 100: there are
    never more than 33 zones. *)
Theorem zones_are_few (self : ThreatAnalyzer) :
  exists cs,
    StronglySorted Z.lt cs /\
    (forall c, In c cs -> In c (zone_clusters self) /\ c <> (-1)%Z) /\
    generate_threat_zones self =
    map (fun c => make_zone c (cluster_rows self c)) cs /\
    (3 * length (generate_threat_zones self)
     <= length (threat_frame self))%nat /\
    (length (threat_frame self) <= 100)%nat.
Proof.
  assert (H100 : (length (threat_frame self) <= 100)%nat).
  { unfold threat_frame. rewrite length_map, lastn_length. lia. }
  rewrite generate_threat_zones_items.
  destruct (length (threat_frame self) <? 3)%nat.
  { exists []. split; [constructor|]. split; [intros c []|].
    split; [reflexivity|]. split; [simpl; lia|exact H100]. }
  set (cs := filter (fun c => negb (c =? -1)%Z)
                    (Np.unique (zone_clusters self))).
  assert (Hcs : forall c, In c cs ->
                          In c (zone_clusters self) /\ c <> (-1)%Z).
  { intros c Hc. unfold cs in Hc. apply filter_In in Hc.
    destruct Hc as [Hc Hne]. apply (proj1 (unique_in _ _)) in Hc.
    split; [exact Hc|]. apply negb_true_iff, Z.eqb_neq in Hne. exact Hne. }
  assert (Hsorted : StronglySorted Z.lt cs)
    by (apply sorted_filter, unique_sorted).
  exists cs. split; [exact Hsorted|]. split; [exact Hcs|].
  rewrite flat_map_zone_of. fold cs. split; [reflexivity|].
  split; [|exact H100].
  rewrite length_map.
  destruct (zone_clusters_spec self) as [Hlen Hsize].
  rewrite <- Hlen.
  apply Nat.le_trans
    with (list_sum (map (cluster_size (zone_clusters self)) cs)).
  - apply three_each. intros c Hc. destruct (Hcs c Hc) as [Hin Hne].
    apply Hsize; assumption.
  - apply cluster_sizes_sum. apply sorted_nodup. exact Hsorted.
Qed.

Lemma valid_map_scores (rows : list TRow.t) :
  Pd.valid (map (fun r => severity_scores (TRow.severity r)) rows) =
  known_ranks rows.
Proof.
  unfold Pd.valid, known_ranks.
  induction rows as [|r rows IH]; simpl; [reflexivity|].
  rewrite IH. reflexivity.
Qed.

Lemma make_zone_severity (c : Z) (rows : list TRow.t) :
  (known_ranks rows = [] ->
   Zone.severity (make_zone c rows) = "CRITICAL"%string) /\
  (known_ranks rows <> [] ->
   Zone.severity (make_zone c rows) =
   Spec.name (Spec.bucket (Np.mean (known_ranks rows)))).
Proof.
  unfold make_zone. cbn [Zone.severity]. unfold Pd.mean.
  rewrite valid_map_scores.
  destruct (known_ranks rows) as [|x l].
  - split; [reflexivity|]. intro H. contradiction.
  - split; [discriminate|]. intros _. apply zone_severity_bucket.
Qed.

(** X15. The severity of a returned zone ignores the members whose
    severity is not one of LOW, MEDIUM, HIGH and CRITICAL: it is the bucket
    of the mean rank of the other members, and CRITICAL when no member has
    a known severity; the radius is 500 in every case. *)
Theorem zone_severity_ignores_unknown (self : ThreatAnalyzer) (z : Zone.t) :
  In z (generate_threat_zones self) ->
  exists c,
    In c (zone_clusters self) /\ c <> (-1)%Z /\
    z = make_zone c (cluster_rows self c) /\
    (known_ranks (cluster_rows self c) = [] ->
     Zone.severity z = "CRITICAL"%string) /\
    (known_ranks (cluster_rows self c) <> [] ->
     Zone.severity z =
     Spec.name (Spec.bucket (Np.mean (known_ranks (cluster_rows self c))))) /\
    Zone.radius z = 500%Z.
Proof.
  intro H. apply in_generate_threat_zones in H.
  destruct H as [_ [c (Hc & Hne & ->)]].
  exists c. split; [exact Hc|]. split; [exact Hne|].
  split; [reflexivity|].
  destruct (make_zone_severity c (cluster_rows self c)) as [H1 H2].
  split; [exact H1|]. split; [exact H2|reflexivity].
Qed.

Lemma unrated_spot_clusters : zone_clusters unrated_spot = [0; 0; 0]%Z.
Proof.
  unfold zone_clusters, Sk.DBSCAN.
  rewrite (dbscan_inner_ext _ _ (fun _ _ => true)).
  - reflexivity.
  - intros i j _. apply (within_coincident 5 _ [10; 20]%R); [lra|].
    intros p Hp. simpl in Hp. intuition.
Qed.

Lemma zone_severity_ignores_unknown_witness :
  exists z,
    In z (generate_threat_zones unrated_spot) /\
    Zone.severity z = "CRITICAL"%string.
Proof.
  assert (Hin : In (make_zone 0 (threat_frame unrated_spot))
                   (generate_threat_zones unrated_spot)).
  { rewrite generate_threat_zones_items, unrated_spot_clusters.
    left. reflexivity. }
  destruct (zone_severity_ignores_unknown unrated_spot _ Hin)
    as [c (Hc & _ & Hz & Hcrit & _)].
  exists (make_zone 0 (threat_frame unrated_spot)).
  split; [exact Hin|].
  rewrite unrated_spot_clusters in Hc.
  assert (E : c = 0%Z) by (simpl in Hc; intuition).
  subst c. apply Hcrit.
  unfold cluster_rows. rewrite unrated_spot_clusters. reflexivity.
Defined.

(** ** Communication paths: what a path is *)

Lemma in_latest_entries (d : Py.dict (list SatellitePosition)) (k : Z)
      (p : SatellitePosition) :
  In (k, p) (latest_entries d) ->
  exists h, In (k, h) d /\ Py.last_opt h = Some p.
Proof.
  unfold latest_entries. intro H. apply in_flat_map in H.
  destruct H as [[k0 h] [Hin He]]. simpl in He.
  destruct (Py.last_opt h) as [q|] eqn:El; [|destruct He].
  destruct He as [E | []]. injection E as -> ->. exists h. auto.
Qed.

Lemma in_pairs_paths_pair (cur : Py.dict SatellitePosition) (p : Path.t) :
  NoDup (Py.keys cur) ->
  In p (pairs_paths cur) ->
  exists e1 e2,
    In e1 cur /\ In e2 cur /\ fst e1 <> fst e2 /\ In p (path_of e1 e2).
Proof.
  unfold Py.keys. induction cur as [|e1 rest IH]; simpl; [intros _ []|].
  intros Hnd Hin. inversion Hnd as [|? ? Hni Hnd']; subst.
  apply in_app_or in Hin. destruct Hin as [Hin | Hin].
  - apply in_flat_map in Hin. destruct Hin as [e2 [He2 Hp]].
    exists e1, e2. split; [left; reflexivity|]. split; [right; exact He2|].
    split; [|exact Hp].
    intro E. apply Hni. rewrite E. apply in_map. exact He2.
  - destruct (IH Hnd' Hin) as [a [b (Ha & Hb & Hab & Hp)]].
    exists a, b. auto.
Qed.

Lemma pairs_paths_length (cur : Py.dict SatellitePosition) :
  (2 * length (pairs_paths cur) <= length cur * (length cur - 1))%nat.
Proof.
  induction cur as [|e1 rest IH]; simpl; [lia|].
  rewrite length_app, Nat.sub_0_r.
  assert (H : (length (flat_map (path_of e1) rest) <= length rest)%nat).
  { clear. induction rest as [|e2 rest IH]; simpl; [lia|].
    rewrite length_app. unfold path_of at 1. cbv zeta.
    destruct (Np.ltb _ 2000); simpl; lia. }
  destruct (length rest) as [|m]; [simpl in *; lia|].
  simpl in IH. rewrite Nat.sub_0_r in IH. nia.
Qed.

Lemma latest_entries_length (d : Py.dict (list SatellitePosition)) :
  (length (latest_entries d) <= length d)%nat.
Proof.
  unfold latest_entries. induction d as [|[k h] d IH]; simpl; [lia|].
  rewrite length_app. destruct (Py.last_opt h); simpl; lia.
Qed.

(** X16. In a store with distinct keys every returned path is active and
    joins two different stored satellites at their latest samples: it
    carries their coordinates and their computed distance, which is below
    2000, and its quality is the tier of that distance.  With [n] stored
    satellites there are at most [n (n - 1) / 2] paths. *)
Theorem paths_join_distinct_satellites (self : ThreatAnalyzer) :
  wf_store self ->
  (forall p,
      In p (generate_communication_paths self) ->
      exists pa pb,
        latest self (Path.source_id p) = Some pa /\
        latest self (Path.target_id p) = Some pb /\
        Path.source_id p <> Path.target_id p /\
        Path.active p = true /\
        Path.distance p = _calculate_3d_distance pa pb /\
        (Path.distance p < 2000)%R /\
        Path.quality p = link_quality (Path.distance p) /\
        Path.source_lat p = SatellitePosition.latitude pa /\
        Path.source_lon p = SatellitePosition.longitude pa /\
        Path.target_lat p = SatellitePosition.latitude pb /\
        Path.target_lon p = SatellitePosition.longitude pb) /\
  (2 * length (generate_communication_paths self)
   <= length (satellite_positions self)
      * (length (satellite_positions self) - 1))%nat.
Proof.
  intro Hwf. rewrite (generate_communication_paths_pairs self Hwf). split.
  - intros p Hp.
    apply in_pairs_paths_pair in Hp; [|apply latest_entries_nodup; exact Hwf].
    destruct Hp as [[a pa] [[b pb] (Ha & Hb & Hab & Hp)]].
    simpl in Hab. unfold path_of in Hp. cbv zeta in Hp. simpl in Hp.
    destruct (Np.ltb (_calculate_3d_distance pa pb) 2000) eqn:Ed;
      [|destruct Hp].
    apply ltb_true in Ed. destruct Hp as [<- | []]. simpl.
    assert (Hlatest : forall k q,
               In (k, q) (latest_entries (satellite_positions self)) ->
               latest self k = Some q).
    { intros k q Hin. apply in_latest_entries in Hin.
      destruct Hin as [h [Hin Hl]]. unfold latest.
      rewrite (in_get _ _ _ Hwf Hin). exact Hl. }
    exists pa, pb. rewrite (Hlatest a pa Ha), (Hlatest b pb Hb).
    repeat split; auto.
  - pose proof (pairs_paths_length
                  (latest_entries (satellite_positions self))) as H.
    pose proof (latest_entries_length (satellite_positions self)) as Hl.
    nia.
Qed.

Lemma paths_join_distinct_satellites_witness :
  (2 * length (generate_communication_paths two_far_apart) <= 2 * 1)%nat.
Proof.
  assert (Hwf : wf_store two_far_apart).
  { unfold wf_store. simpl. constructor; [|constructor; [|constructor]].
    - intros [H | []]. discriminate.
    - intros []. }
  destruct (paths_join_distinct_satellites two_far_apart Hwf) as [_ H].
  exact H.
Defined.

(** ** Recent threats *)

Lemma filter_filter_implies {A : Type} (f g : A -> bool) (l : list A) :
  (forall x, f x = true -> g x = true) ->
  filter f (filter g l) = filter f l.
Proof.
  intro H. induction l as [|x l IH]; simpl; [reflexivity|].
  destruct (g x) eqn:Eg; simpl.
  - rewrite IH. reflexivity.
  - destruct (f x) eqn:Ef; [|exact IH].
    rewrite (H x Ef) in Eg. discriminate.
Qed.

Lemma timedelta_hours_days (hours : Z) :
  timedelta_hours hours =
  if andb (-999999999 <=? hours / 24)%Z (hours / 24 <=? 999999999)%Z
  then Return (hours * 3600000000)%Z
  else Raise OverflowError.
Proof.
  unfold timedelta_hours. cbv zeta.
  replace (hours * 3600000000 / 86400000000)%Z with (hours / 24)%Z;
    [reflexivity|].
  change 86400000000%Z with (24 * 3600000000)%Z.
  symmetry. apply Z.div_mul_cancel_r; lia.
Qed.

Lemma get_recent_threats_window (aware : ThreatEvent -> bool)
      (now : datetime) (self : ThreatAnalyzer) (hours : Z) :
  (window_ok now hours ->
   get_recent_threats aware now self hours =
   recent_from aware (now - hours * 3600000000)%Z (threat_events self)) /\
  (~ window_ok now hours ->
   get_recent_threats aware now self hours = Raise OverflowError).
Proof.
  unfold get_recent_threats, window_ok. rewrite timedelta_hours_days.
  unfold datetime_sub. cbv zeta.
  destruct (-999999999 <=? hours / 24)%Z eqn:E1;
    [apply Z.leb_le in E1 | apply Z.leb_gt in E1];
    (destruct (hours / 24 <=? 999999999)%Z eqn:E2;
     [apply Z.leb_le in E2 | apply Z.leb_gt in E2]);
    cbn [andb];
    try (split; [intro H; lia | reflexivity]).
  destruct (datetime_min <=? now - hours * 3600000000)%Z eqn:E3;
    [apply Z.leb_le in E3 | apply Z.leb_gt in E3];
    (destruct (now - hours * 3600000000 <=? datetime_max)%Z eqn:E4;
     [apply Z.leb_le in E4 | apply Z.leb_gt in E4]);
    cbn [andb];
    try (split; [intro H; lia | reflexivity]).
  split; [reflexivity|]. intro H. exfalso. apply H. lia.
Qed.

Lemma recent_from_return (aware : ThreatEvent -> bool) (cutoff : datetime)
      (l recent : list ThreatEvent) :
  recent_from aware cutoff l = Return recent <->
  (forall e, In e l -> aware e = false) /\
  recent = filter (fun t => (cutoff <=? ThreatEvent.timestamp t)%Z) l.
Proof.
  revert recent. induction l as [|t l IH]; intro recent; simpl.
  - split.
    + intro H. injection H as <-. split; [intros e []|reflexivity].
    + intros [_ ->]. reflexivity.
  - destruct (aware t) eqn:Et.
    + split; [discriminate|]. intros [H _].
      rewrite (H t (or_introl eq_refl)) in Et. discriminate.
    + destruct (recent_from aware cutoff l) as [kept | e] eqn:Er.
      * destruct (proj1 (IH kept) eq_refl) as [Hn ->]. split.
        -- intro H. injection H as <-. split.
           ++ intros e [<- | He]; [exact Et | apply Hn; exact He].
           ++ destruct (cutoff <=? ThreatEvent.timestamp t)%Z; reflexivity.
        -- intros [_ ->].
           destruct (cutoff <=? ThreatEvent.timestamp t)%Z; reflexivity.
      * split; [discriminate|]. intros [Hn _]. exfalso.
        assert (H : @Raise (list ThreatEvent) e
                    = Return (filter
                                (fun t0 =>
                                   (cutoff <=? ThreatEvent.timestamp t0)%Z)
                                l)).
        { apply IH. split; [|reflexivity].
          intros e0 He0. apply Hn. right. exact He0. }
        discriminate.
Qed.

Lemma recent_from_aware (aware : ThreatEvent -> bool) (cutoff : datetime)
      (l : list ThreatEvent) (e : ThreatEvent) :
  In e l -> aware e = true ->
  recent_from aware cutoff l = Raise TypeError.
Proof.
  induction l as [|t l IH]; simpl; [intros []|].
  intros Hin He. destruct (aware t) eqn:Et; [reflexivity|].
  destruct Hin as [-> | Hin]; [congruence|].
  rewrite (IH Hin He). reflexivity.
Qed.

Lemma get_recent_threats_naive (aware : ThreatEvent -> bool)
      (now : datetime) (self : ThreatAnalyzer) (hours : Z) :
  window_ok now hours -> all_naive aware self ->
  get_recent_threats aware now self hours
  = Return (since now hours (threat_events self)).
Proof.
  intros Hw Hn.
  rewrite (proj1 (get_recent_threats_window aware now self hours) Hw).
  apply recent_from_return. split; [exact Hn|reflexivity].
Qed.

Lemma get_recent_threats_aware (aware : ThreatEvent -> bool)
      (now : datetime) (self : ThreatAnalyzer) (hours : Z)
      (e : ThreatEvent) :
  window_ok now hours -> In e (threat_events self) -> aware e = true ->
  get_recent_threats aware now self hours = Raise TypeError.
Proof.
  intros Hw Hin He.
  rewrite (proj1 (get_recent_threats_window aware now self hours) Hw).
  apply (recent_from_aware aware _ _ e Hin He).
Qed.

(** X17. [get_recent_threats] raises OverflowError exactly when the hours
    do not make a [timedelta] or the cutoff falls outside the years 1 to
    9999; otherwise it raises TypeError as soon as one stored timestamp,
    however old, carries a UTC offset; otherwise it returns the stored
    events at or after the cutoff, in stored order.  When it returns for
    a window, it returns for every shorter one, and that result is the
    longer one cut at the later cutoff. *)
Theorem recent_threats_window (aware : ThreatEvent -> bool)
        (now : datetime) (self : ThreatAnalyzer) (hours : Z) :
  (~ window_ok now hours ->
   get_recent_threats aware now self hours = Raise OverflowError) /\
  (window_ok now hours ->
   forall e, In e (threat_events self) -> aware e = true ->
             get_recent_threats aware now self hours = Raise TypeError) /\
  (window_ok now hours -> all_naive aware self ->
   get_recent_threats aware now self hours
   = Return (since now hours (threat_events self))) /\
  (forall wider recent,
      (0 <= hours <= wider)%Z -> (now <= datetime_max)%Z ->
      get_recent_threats aware now self wider = Return recent ->
      get_recent_threats aware now self hours
      = Return (since now hours recent)).
Proof.
  split; [apply get_recent_threats_window|].
  split; [intros Hw e; apply get_recent_threats_aware; exact Hw|].
  split; [apply get_recent_threats_naive|].
  intros wider recent Hh Hnow Hret.
  destruct (get_recent_threats_window aware now self wider) as [Hin Hout].
  assert (Hw : window_ok now wider).
  { unfold window_ok in *.
    destruct (Z_le_dec (-999999999) (wider / 24)),
             (Z_le_dec (wider / 24) 999999999),
             (Z_le_dec datetime_min (now - wider * 3600000000)),
             (Z_le_dec (now - wider * 3600000000) datetime_max);
      try (split; split; assumption);
      (rewrite Hout in Hret by lia; discriminate). }
  rewrite (Hin Hw) in Hret. apply recent_from_return in Hret.
  destruct Hret as [Hnaive ->].
  assert (Hw' : window_ok now hours).
  { unfold window_ok in *. destruct Hw as [[_ Hd] [Hc _]].
    assert (0 <= hours / 24)%Z by (apply Z.div_pos; lia).
    assert (hours / 24 <= wider / 24)%Z by (apply Z.div_le_mono; lia).
    unfold datetime_min, datetime_max in *. lia. }
  rewrite (get_recent_threats_naive aware now self hours Hw' Hnaive).
  f_equal. unfold since. symmetry. apply filter_filter_implies.
  intros x Hx. apply Z.leb_le in Hx. apply Z.leb_le. lia.
Qed.

Lemma recent_threats_window_witness :
  get_recent_threats (fun _ => false) 3%Z hot_spot 20000000%Z
  = Raise OverflowError /\
  get_recent_threats second_aware 3%Z hot_spot 24%Z = Raise TypeError /\
  get_recent_threats (fun _ => false) 3%Z hot_spot 0%Z
  = Return (since 3%Z 0%Z (since 3%Z 24%Z (threat_events hot_spot))).
Proof.
  assert (Hday : window_ok 3%Z 24%Z)
    by (unfold window_ok; repeat split; apply Z.leb_le; reflexivity).
  split; [|split].
  - destruct (recent_threats_window (fun _ => false) 3%Z hot_spot
                20000000%Z) as (H & _).
    apply H. unfold window_ok, datetime_min. intros [_ [Hc _]]. lia.
  - destruct (recent_threats_window second_aware 3%Z hot_spot 24%Z)
      as (_ & H & _).
    apply (H Hday (ThreatEvent.mk "SIM_2" 2%Z 10 20 31 41 "DEBRIS_FIELD"
                                  "HIGH" (Some 2%Z) ""));
      [right; left; reflexivity | reflexivity].
  - destruct (recent_threats_window (fun _ => false) 3%Z hot_spot 0%Z)
      as (_ & _ & _ & H).
    apply (H 24%Z); [lia | unfold datetime_max; lia|].
    destruct (recent_threats_window (fun _ => false) 3%Z hot_spot 24%Z)
      as (_ & _ & H24 & _).
    apply (H24 Hday). intros e _. reflexivity.
Defined.

(** ** Statistics *)

Lemma severity_counters (l : list ThreatEvent) :
  (count_severity "CRITICAL" l + count_severity "HIGH" l
   + count_severity "MEDIUM" l + count_severity "LOW" l <= length l)%nat /\
  ((forall e, In e l -> rated e) ->
   (count_severity "CRITICAL" l + count_severity "HIGH" l
    + count_severity "MEDIUM" l + count_severity "LOW" l = length l)%nat).
Proof.
  unfold count_severity.
  induction l as [|e l [IHle IHeq]]; [split; reflexivity|].
  assert (Hone :
    forall s : string,
      ((if String.eqb s "CRITICAL" then 1 else 0)
       + (if String.eqb s "HIGH" then 1 else 0)
       + (if String.eqb s "MEDIUM" then 1 else 0)
       + (if String.eqb s "LOW" then 1 else 0) <= 1)%nat /\
      (In s ["CRITICAL"; "HIGH"; "MEDIUM"; "LOW"]%string ->
       ((if String.eqb s "CRITICAL" then 1 else 0)
        + (if String.eqb s "HIGH" then 1 else 0)
        + (if String.eqb s "MEDIUM" then 1 else 0)
        + (if String.eqb s "LOW" then 1 else 0) = 1)%nat)).
  { intro s. split.
    - destruct (String.eqb s "CRITICAL") eqn:E1;
        [apply String.eqb_eq in E1; subst s; simpl; lia|].
      destruct (String.eqb s "HIGH") eqn:E2;
        [apply String.eqb_eq in E2; subst s; simpl; lia|].
      destruct (String.eqb s "MEDIUM") eqn:E3;
        [apply String.eqb_eq in E3; subst s; simpl; lia|].
      destruct (String.eqb s "LOW"); lia.
    - intros [<- | [<- | [<- | [<- | []]]]]; reflexivity. }
  destruct (Hone (ThreatEvent.severity e)) as [Hle Heq].
  cbn [filter].
  split.
  - destruct (String.eqb (ThreatEvent.severity e) "CRITICAL"),
             (String.eqb (ThreatEvent.severity e) "HIGH"),
             (String.eqb (ThreatEvent.severity e) "MEDIUM"),
             (String.eqb (ThreatEvent.severity e) "LOW");
      cbn [length] in *; lia.
  - intro Hall.
    specialize (Heq (Hall e (or_introl eq_refl))).
    specialize (IHeq (fun x Hx => Hall x (or_intror Hx))).
    destruct (String.eqb (ThreatEvent.severity e) "CRITICAL"),
             (String.eqb (ThreatEvent.severity e) "HIGH"),
             (String.eqb (ThreatEvent.severity e) "MEDIUM"),
             (String.eqb (ThreatEvent.severity e) "LOW");
      cbn [length] in *; lia.
Qed.

Lemma statistics_of_recent (aware : ThreatEvent -> bool) (now : datetime)
      (self : ThreatAnalyzer) (recent : list ThreatEvent) :
  get_recent_threats aware now self 24 = Return recent ->
  get_threat_statistics aware now self =
  Return
    (Stats.mk (length recent)
              (count_severity "CRITICAL" recent)
              (count_severity "HIGH" recent)
              (count_severity "MEDIUM" recent)
              (count_severity "LOW" recent)
              (fold_left count_type_step recent [])
              (length (satellite_positions self))
              (length (generate_threat_zones self))
              (length (generate_communication_paths self))).
Proof. intro H. unfold get_threat_statistics. rewrite H. reflexivity. Qed.

(** X18. With a clock at which the window of 24 hours can be computed,
    [get_threat_statistics] raises TypeError as soon as one stored
    timestamp carries a UTC offset.  When none does it returns, and in the
    statistics the four severity counters never add up to more than the
    total of the last 24 hours, and add up to it exactly when every recent
    event has one of the four severity names; the total is the number of
    recent events and the satellite count the number of keys of the
    position dictionary. *)
Theorem statistics_severity_counters (aware : ThreatEvent -> bool)
        (now : datetime) (self : ThreatAnalyzer) :
  window_ok now 24 ->
  (forall e, In e (threat_events self) -> aware e = true ->
             get_threat_statistics aware now self = Raise TypeError) /\
  (all_naive aware self ->
   exists stats,
     get_threat_statistics aware now self = Return stats /\
     let recent := since now 24 (threat_events self) in
     Stats.total_threats_24h stats = length recent /\
     (Stats.critical_threats stats + Stats.high_threats stats
      + Stats.medium_threats stats + Stats.low_threats stats
      <= Stats.total_threats_24h stats)%nat /\
     ((forall e, In e recent -> rated e) ->
      (Stats.critical_threats stats + Stats.high_threats stats
       + Stats.medium_threats stats + Stats.low_threats stats
       = Stats.total_threats_24h stats)%nat) /\
     Stats.active_satellites stats
     = length (Py.keys (satellite_positions self))).
Proof.
  intro Hw. split.
  - intros e Hin He. unfold get_threat_statistics.
    rewrite (get_recent_threats_aware aware now self 24 e Hw Hin He).
    reflexivity.
  - intro Hn. eexists. split.
    + apply statistics_of_recent.
      apply get_recent_threats_naive; assumption.
    + cbv zeta.
      cbn [Stats.total_threats_24h Stats.critical_threats
           Stats.high_threats Stats.medium_threats Stats.low_threats
           Stats.active_satellites].
      destruct (severity_counters (since now 24 (threat_events self)))
        as [Hle Heq].
      split; [reflexivity|]. split; [exact Hle|]. split; [exact Heq|].
      unfold Py.keys. rewrite length_map. reflexivity.
Qed.

Lemma statistics_severity_counters_witness :
  get_threat_statistics second_aware 3%Z hot_spot = Raise TypeError /\
  exists stats,
    get_threat_statistics (fun _ => false) 3%Z hot_spot = Return stats /\
    (Stats.critical_threats stats + Stats.high_threats stats
     + Stats.medium_threats stats + Stats.low_threats stats
     = Stats.total_threats_24h stats)%nat.
Proof.
  assert (Hday : window_ok 3%Z 24%Z)
    by (unfold window_ok; repeat split; apply Z.leb_le; reflexivity).
  split.
  - destruct (statistics_severity_counters second_aware 3%Z hot_spot Hday)
      as [H _].
    apply (H (ThreatEvent.mk "SIM_2" 2%Z 10 20 31 41 "DEBRIS_FIELD"
                             "HIGH" (Some 2%Z) ""));
      [right; left; reflexivity | reflexivity].
  - destruct (statistics_severity_counters (fun _ => false) 3%Z hot_spot
                Hday) as [_ H].
    destruct H as (stats & Hret & _ & _ & Heq & _);
      [intros e _; reflexivity|].
    exists stats. split; [exact Hret|]. apply Heq.
    intros e He. unfold since in He. apply filter_In in He.
    destruct He as [He _]. simpl in He.
    unfold rated. destruct He as [<- | [<- | [<- | []]]]; simpl; auto.
Defined.

(** ** The histogram by threat type *)

Lemma sget_none_keys {V : Type} (d : PyStr.dict V) (k : string) :
  PyStr.get d k = None <-> ~ In k (PyStr.keys d).
Proof.
  induction d as [|[k' v] d IH]; simpl; [tauto|].
  destruct (String.eqb k' k) eqn:E.
  - apply String.eqb_eq in E. split; [discriminate | intro H; tauto].
  - apply String.eqb_neq in E. rewrite IH. tauto.
Qed.

Lemma sget_set_same {V : Type} (d : PyStr.dict V) (k : string) (v : V) :
  PyStr.get (PyStr.set d k v) k = Some v.
Proof.
  induction d as [|[k' v'] d IH]; simpl.
  - rewrite String.eqb_refl. reflexivity.
  - destruct (String.eqb k' k) eqn:E; simpl; rewrite E; [reflexivity|exact IH].
Qed.

Lemma sget_set_other {V : Type} (d : PyStr.dict V) (k k0 : string) (v : V) :
  k <> k0 -> PyStr.get (PyStr.set d k v) k0 = PyStr.get d k0.
Proof.
  intro Hne. induction d as [|[k' v'] d IH]; simpl.
  - destruct (String.eqb k k0) eqn:E; [|reflexivity].
    apply String.eqb_eq in E. contradiction.
  - destruct (String.eqb k' k) eqn:E; simpl.
    + apply String.eqb_eq in E. subst k'.
      destruct (String.eqb k k0) eqn:E0; [|reflexivity].
      apply String.eqb_eq in E0. contradiction.
    + rewrite IH. reflexivity.
Qed.

Lemma sset_set {V : Type} (d : PyStr.dict V) (k : string) (v w : V) :
  PyStr.set (PyStr.set d k v) k w = PyStr.set d k w.
Proof.
  induction d as [|[k' v'] d IH]; simpl.
  - rewrite String.eqb_refl. reflexivity.
  - destruct (String.eqb k' k) eqn:E; simpl; rewrite E; [reflexivity|].
    rewrite IH. reflexivity.
Qed.

Lemma skeys_set_absent {V : Type} (d : PyStr.dict V) (k : string) (v : V) :
  PyStr.get d k = None ->
  PyStr.set d k v = d ++ [(k, v)].
Proof.
  induction d as [|[k' v'] d IH]; simpl; [reflexivity|].
  destruct (String.eqb k' k); [discriminate|].
  intro H. rewrite (IH H). reflexivity.
Qed.

Lemma skeys_set_present {V : Type} (d : PyStr.dict V) (k : string)
      (c v : V) :
  PyStr.get d k = Some c ->
  PyStr.keys (PyStr.set d k v) = PyStr.keys d.
Proof.
  unfold PyStr.keys.
  induction d as [|[k' v'] d IH]; simpl; [discriminate|].
  destruct (String.eqb k' k); simpl; [reflexivity|].
  intro H. f_equal. apply IH. exact H.
Qed.

Lemma svalues_set_present (d : PyStr.dict nat) (k : string) (c v : nat) :
  PyStr.get d k = Some c ->
  (list_sum (PyStr.values (PyStr.set d k v)) + c
   = list_sum (PyStr.values d) + v)%nat.
Proof.
  unfold PyStr.values.
  induction d as [|[k' v'] d IH]; simpl; [discriminate|].
  destruct (String.eqb k' k); simpl.
  - intro H. injection H as ->. lia.
  - intro H. specialize (IH H). lia.
Qed.

Lemma count_type_app (k : string) (l : list ThreatEvent) (e : ThreatEvent) :
  count_type k (l ++ [e]) =
  (count_type k l
   + if String.eqb (ThreatEvent.threat_type e) k then 1 else 0)%nat.
Proof.
  unfold count_type. rewrite filter_app, length_app. simpl.
  destruct (String.eqb (ThreatEvent.threat_type e) k); reflexivity.
Qed.

Lemma nodup_snoc {A : Type} (l : list A) (a : A) :
  NoDup l -> ~ In a l -> NoDup (l ++ [a]).
Proof.
  intros Hnd Hout. induction l as [|x l IH]; simpl.
  - constructor; [intros []|constructor].
  - inversion Hnd; subst. constructor.
    + rewrite in_app_iff. simpl. intros [H | [H | []]]; [contradiction|].
      apply Hout. left. symmetry. exact H.
    + apply IH; [assumption|]. intro H. apply Hout. right. exact H.
Qed.

Lemma count_type_step_histogram (d : PyStr.dict nat)
      (done : list ThreatEvent) (e : ThreatEvent) :
  histogram_of d done ->
  histogram_of (count_type_step d e) (done ++ [e]).
Proof.
  intros (Hget & Hsum & Hnd).
  unfold count_type_step. cbv zeta. unfold PyStr.contains.
  pose proof (Hget (ThreatEvent.threat_type e)) as Ht.
  destruct (PyStr.get d (ThreatEvent.threat_type e)) as [c|] eqn:Eg;
    cbn [negb].
  - (* the type is already a key *)
    rewrite Eg.
    destruct (count_type (ThreatEvent.threat_type e) done =? 0)%nat eqn:E0;
      [discriminate|].
    injection Ht as Hc. apply Nat.eqb_neq in E0.
    split; [|split].
    + intro k. rewrite count_type_app.
      destruct (String.eqb (ThreatEvent.threat_type e) k) eqn:Ek.
      * apply String.eqb_eq in Ek. subst k.
        rewrite sget_set_same.
        destruct (count_type (ThreatEvent.threat_type e) done + 1 =? 0)%nat
                 eqn:E1; [apply Nat.eqb_eq in E1; lia|].
        rewrite Hc. reflexivity.
      * apply String.eqb_neq in Ek.
        rewrite sget_set_other by exact Ek.
        rewrite Nat.add_0_r. apply Hget.
    + pose proof (svalues_set_present d _ c (c + 1) Eg) as Hs.
      rewrite length_app. simpl. lia.
    + rewrite (skeys_set_present d _ c (c + 1) Eg). exact Hnd.
  - (* a new type: set to 0, then incremented *)
    rewrite sget_set_same, sset_set. cbn [Nat.add].
    destruct (count_type (ThreatEvent.threat_type e) done =? 0)%nat eqn:E0;
      [|discriminate].
    apply Nat.eqb_eq in E0.
    split; [|split].
    + intro k. rewrite count_type_app.
      destruct (String.eqb (ThreatEvent.threat_type e) k) eqn:Ek.
      * apply String.eqb_eq in Ek. subst k.
        rewrite sget_set_same, E0. reflexivity.
      * apply String.eqb_neq in Ek.
        rewrite sget_set_other by exact Ek.
        rewrite Nat.add_0_r. apply Hget.
    + rewrite (skeys_set_absent d _ 1%nat Eg).
      unfold PyStr.values. rewrite map_app, list_sum_app, length_app.
      unfold PyStr.values in Hsum. simpl. lia.
    + rewrite (skeys_set_absent d _ 1%nat Eg).
      unfold PyStr.keys. rewrite map_app. simpl.
      apply nodup_snoc; [exact Hnd|].
      apply sget_none_keys. exact Eg.
Qed.

Lemma count_types_histogram (l done : list ThreatEvent)
      (d : PyStr.dict nat) :
  histogram_of d done ->
  histogram_of (fold_left count_type_step l d) (done ++ l).
Proof.
  revert d done. induction l as [|e l IH]; intros d done H; simpl.
  - rewrite app_nil_r. exact H.
  - replace (done ++ e :: l) with ((done ++ [e]) ++ l)
      by (rewrite <- app_assoc; reflexivity).
    apply IH. apply count_type_step_histogram. exact H.
Qed.

(** X19. With a clock at which the window of 24 hours can be computed and
    no stored timestamp carrying a UTC offset, [get_threat_statistics]
    returns, and [threat_by_type] is the histogram of the recent events: a
    threat type is a key exactly when a recent event has it, its value is
    the number of recent events of that type (never zero), no key occurs
    twice, and the values add up to [total_threats_24h]. *)
Theorem statistics_by_type_histogram (aware : ThreatEvent -> bool)
        (now : datetime) (self : ThreatAnalyzer) :
  window_ok now 24 -> all_naive aware self ->
  exists stats,
    get_threat_statistics aware now self = Return stats /\
    let recent := since now 24 (threat_events self) in
    (forall k,
        PyStr.get (Stats.threat_by_type stats) k =
        if (count_type k recent =? 0)%nat then None
        else Some (count_type k recent)) /\
    (forall k,
        In k (PyStr.keys (Stats.threat_by_type stats)) <->
        exists e, In e recent /\ ThreatEvent.threat_type e = k) /\
    NoDup (PyStr.keys (Stats.threat_by_type stats)) /\
    list_sum (PyStr.values (Stats.threat_by_type stats))
    = Stats.total_threats_24h stats.
Proof.
  intros Hw Hn. eexists. split.
  { apply statistics_of_recent. apply get_recent_threats_naive; assumption. }
  cbv zeta.
  cbn [Stats.threat_by_type Stats.total_threats_24h].
  set (recent := since now 24 (threat_events self)).
  assert (H : histogram_of (fold_left count_type_step recent []) recent).
  { apply (count_types_histogram recent [] []).
    split; [|split]; [intro k; reflexivity | reflexivity | constructor]. }
  destruct H as (Hget & Hsum & Hnd).
  split; [exact Hget|]. split; [|split; assumption].
  intro k. split.
  - intro Hin.
    destruct (PyStr.get (fold_left count_type_step recent []) k) eqn:Eg.
    + rewrite Hget in Eg.
      destruct (count_type k recent =? 0)%nat eqn:E0; [discriminate|].
      apply Nat.eqb_neq in E0. unfold count_type in E0.
      destruct (filter (fun t => String.eqb (ThreatEvent.threat_type t) k)
                       recent) as [|e r] eqn:Ef; [simpl in E0; lia|].
      assert (He : In e (e :: r)) by (left; reflexivity).
      rewrite <- Ef in He. apply filter_In in He. destruct He as [He Hk].
      exists e. split; [exact He|]. apply String.eqb_eq. exact Hk.
    + apply sget_none_keys in Eg. contradiction.
  - intros (e & He & Hk).
    destruct (in_dec string_dec k
                (PyStr.keys (fold_left count_type_step recent [])))
      as [Hin | Hout]; [exact Hin|].
    apply sget_none_keys in Hout. rewrite Hget in Hout.
    destruct (count_type k recent =? 0)%nat eqn:E0; [|discriminate].
    apply Nat.eqb_eq in E0. unfold count_type in E0.
    apply length_zero_iff_nil in E0.
    assert (Hf : In e (filter
                         (fun t => String.eqb (ThreatEvent.threat_type t) k)
                         recent)).
    { apply filter_In. split; [exact He|]. apply String.eqb_eq. exact Hk. }
    rewrite E0 in Hf. destruct Hf.
Qed.

Lemma statistics_by_type_histogram_witness :
  exists stats,
    get_threat_statistics (fun _ => false) 3%Z hot_spot = Return stats /\
    PyStr.get (Stats.threat_by_type stats) "DEBRIS_FIELD" = Some 1%nat /\
    PyStr.get (Stats.threat_by_type stats) "COMMUNICATION_LOSS" = None.
Proof.
  destruct (statistics_by_type_histogram (fun _ => false) 3%Z hot_spot)
    as (stats & Hret & Hget & _).
  - unfold window_ok; repeat split; apply Z.leb_le; reflexivity.
  - intros e _. reflexivity.
  - exists stats. split; [exact Hret|].
    rewrite !Hget. split; reflexivity.
Defined.

(** ** The position endpoint *)


Lemma flat_map_nil {A B : Type} (f : A -> list B) (l : list A) :
  (forall x, In x l -> f x = []) -> flat_map f l = [].
Proof.
  induction l as [|x l IH]; intro H; simpl; [reflexivity|].
  rewrite (H x (or_introl eq_refl)), IH; [reflexivity|].
  intros y Hy. apply H. right. exact Hy.
Qed.


Lemma update_keeps_events (self : ThreatAnalyzer)
      (position : SatellitePosition) :
  threat_events (update_satellite_position self position)
  = threat_events self.
Proof.
  unfold update_satellite_position. reflexivity.
Qed.

(** X20. A post that leaves every satellite with fewer than ten samples
    reports no threat: when every stored history has fewer than nine
    samples, the endpoint stores the sample, reports 0 new threats and
    leaves the list of events as it was. *)
Theorem quiet_post_reports_nothing (format_float : nat -> R -> string)
        (self : ThreatAnalyzer) (position : SatellitePosition) :
  (forall sat_id h,
      In (sat_id, h) (satellite_positions self) -> (length h < 9)%nat) ->
  post_satellite_position format_float self position
  = (update_satellite_position self position, 0%nat) /\
  threat_events (fst (post_satellite_position format_float self position))
  = threat_events self /\
  latest (fst (post_satellite_position format_float self position))
         (SatellitePosition.satellite_id position) = Some position.
Proof.
  intro Hshort.
  assert (Hnone :
    analyze_satellite_anomalies format_float
      (update_satellite_position self position) [position] = []).
  { rewrite analyze_items. apply flat_map_nil. intros [sat_id h] Hin.
    unfold detectors_for. cbn [fst snd].
    assert (Hlen : (length h < 10)%nat).
    { rewrite update_satellite_position_spec in Hin.
      apply in_set in Hin. destruct Hin as [Hin | [_ ->]].
      - specialize (Hshort _ _ Hin). lia.
      - rewrite lastn_length, length_app. cbn [length].
        assert (length (history self
                          (SatellitePosition.satellite_id position)) < 9)%nat.
        { unfold history.
          destruct (Py.get (satellite_positions self)
                           (SatellitePosition.satellite_id position))
            as [h0|] eqn:Eg; [|simpl; lia].
          apply get_in in Eg. exact (Hshort _ _ Eg). }
        lia. }
    apply Nat.ltb_lt in Hlen. rewrite Hlen. reflexivity. }
  assert (Hpost :
    post_satellite_position format_float self position
    = (update_satellite_position self position, 0%nat)).
  { unfold post_satellite_position. cbv zeta. rewrite Hnone. reflexivity. }
  split; [exact Hpost|]. rewrite Hpost. cbn [fst]. split.
  - apply update_keeps_events.
  - unfold latest. rewrite update_satellite_position_spec, get_set_same.
    rewrite (lastn_snoc 99). apply last_opt_snoc.
Qed.

Lemma quiet_post_reports_nothing_witness :
  post_satellite_position plain_format two_far_apart (above_origin 1 500 2)
  = (update_satellite_position two_far_apart (above_origin 1 500 2), 0%nat).
Proof.
  apply (quiet_post_reports_nothing plain_format two_far_apart
           (above_origin 1 500 2)).
  intros sat_id h [H | [H | []]]; injection H as <- <-; simpl; lia.
Defined.



(** ** The connection manager *)

Lemma remove_none (l : list nat) (x : nat) :
  ConnectionManager.remove l x = None <-> ~ In x l.
Proof.
  induction l as [|y l IH]; simpl; [tauto|].
  destruct (y =? x)%nat eqn:E.
  - apply Nat.eqb_eq in E. split; [discriminate|]. intro H. tauto.
  - apply Nat.eqb_neq in E.
    destruct (ConnectionManager.remove l x) as [t|].
    + split; [discriminate|]. intro H. exfalso. apply H. right.
      destruct (in_dec Nat.eq_dec x l) as [Hi | Hn]; [exact Hi|].
      apply IH in Hn. discriminate.
    + split; [|reflexivity]. intros _ [H | H]; [contradiction|].
      apply (proj1 IH); [reflexivity|exact H].
Qed.

Lemma remove_some (l : list nat) (x : nat) (l' : list nat) :
  ConnectionManager.remove l x = Some l' ->
  exists l1 l2, l = l1 ++ x :: l2 /\ ~ In x l1 /\ l' = l1 ++ l2.
Proof.
  revert l'. induction l as [|y l IH]; intro l'; simpl; [discriminate|].
  destruct (y =? x)%nat eqn:E.
  - apply Nat.eqb_eq in E. subst y. intro H. injection H as <-.
    exists [], l. simpl. tauto.
  - apply Nat.eqb_neq in E.
    destruct (ConnectionManager.remove l x) as [t|]; [|discriminate].
    intro H. injection H as <-.
    destruct (IH t eq_refl) as (l1 & l2 & -> & Hn & ->).
    exists (y :: l1), l2. simpl. repeat split; try reflexivity.
    intros [H | H]; [contradiction | exact (Hn H)].
Qed.

Lemma remove_snoc (l : list nat) (w : nat) :
  ~ In w l -> ConnectionManager.remove (l ++ [w]) w = Some l.
Proof.
  induction l as [|y l IH]; simpl; intro H.
  - rewrite Nat.eqb_refl. reflexivity.
  - destruct (y =? w)%nat eqn:E.
    + apply Nat.eqb_eq in E. exfalso. apply H. left. exact E.
    + rewrite IH; [reflexivity|]. intro Hi. apply H. right. exact Hi.
Qed.

Lemma dropped_spec (fails : nat -> bool) (l : list nat) (c : nat) :
  fails c = true ->
  (length (dropped l c) <= length l)%nat /\
  incl (dropped l c) l /\
  filter (fun x => negb (fails x)) (dropped l c)
  = filter (fun x => negb (fails x)) l.
Proof.
  intro Hf. unfold dropped.
  destruct (ConnectionManager.remove l c) as [t|] eqn:E.
  - apply remove_some in E. destruct E as (l1 & l2 & -> & _ & ->).
    split; [rewrite !length_app; simpl; lia|]. split.
    + intros x Hx. apply in_app_or in Hx. apply in_or_app.
      destruct Hx as [Hx | Hx]; [left; exact Hx | right; right; exact Hx].
    + rewrite !filter_app. simpl. rewrite Hf. reflexivity.
  - split; [lia|]. split; [apply incl_refl | reflexivity].
Qed.

Lemma nth_error_none_length {A : Type} (l : list A) (i : nat) :
  (length l <= i)%nat -> nth_error l i = None.
Proof. intro H. apply nth_error_None. exact H. Qed.

Lemma broadcast_from_fuel (fails : nat -> bool) (fuel fuel' i : nat)
      (l sent : list nat) :
  (length l <= i + fuel)%nat ->
  (length l <= i + fuel')%nat ->
  ConnectionManager.broadcast_from fails fuel i l sent
  = ConnectionManager.broadcast_from fails fuel' i l sent.
Proof.
  revert fuel' i l sent.
  induction fuel as [|fuel IH]; intros fuel' i l sent H H'.
  - simpl. destruct fuel' as [|fuel']; [reflexivity|]. simpl.
    rewrite nth_error_none_length by lia. reflexivity.
  - destruct fuel' as [|fuel']; simpl.
    + rewrite nth_error_none_length by lia. reflexivity.
    + destruct (nth_error l i) as [c|] eqn:En; [|reflexivity].
      destruct (fails c) eqn:Ef.
      * fold (dropped l c).
        destruct (dropped_spec fails l c Ef) as (Hlen & _ & _).
        apply IH; lia.
      * apply IH; lia.
Qed.

Lemma skipn_nth_error {A : Type} (l : list A) (i : nat) (c : A) :
  nth_error l i = Some c -> skipn i l = c :: skipn (S i) l.
Proof.
  revert i. induction l as [|x l IH]; intros [|i]; simpl; try discriminate.
  - intro H. injection H as ->. reflexivity.
  - intro H. apply IH. exact H.
Qed.

Lemma broadcast_from_alive (fails : nat -> bool) (fuel i : nat)
      (l sent : list nat) :
  (forall c, In c l -> fails c = false) ->
  (length l <= i + fuel)%nat ->
  ConnectionManager.broadcast_from fails fuel i l sent
  = (l, sent ++ skipn i l).
Proof.
  intro Hall. revert i sent.
  induction fuel as [|fuel IH]; intros i sent H; simpl.
  - rewrite skipn_all2 by lia. rewrite app_nil_r. reflexivity.
  - destruct (nth_error l i) as [c|] eqn:En.
    + rewrite (Hall c (nth_error_In _ _ En)).
      rewrite IH by lia. rewrite (skipn_nth_error _ _ _ En).
      rewrite <- app_assoc. reflexivity.
    + apply nth_error_None in En. rewrite skipn_all2 by lia.
      rewrite app_nil_r. reflexivity.
Qed.

Lemma broadcast_from_sound (fails : nat -> bool) (fuel i : nat)
      (l sent : list nat) :
  (exists new,
      snd (ConnectionManager.broadcast_from fails fuel i l sent)
      = sent ++ new /\
      forall c, In c new -> In c l /\ fails c = false) /\
  incl (fst (ConnectionManager.broadcast_from fails fuel i l sent)) l /\
  filter (fun x => negb (fails x))
         (fst (ConnectionManager.broadcast_from fails fuel i l sent))
  = filter (fun x => negb (fails x)) l.
Proof.
  revert i l sent. induction fuel as [|fuel IH]; intros i l sent; simpl.
  - split; [exists []; rewrite app_nil_r; split; [reflexivity|intros c []]|].
    split; [apply incl_refl | reflexivity].
  - destruct (nth_error l i) as [c|] eqn:En.
    + destruct (fails c) eqn:Ef.
      * fold (dropped l c).
        destruct (dropped_spec fails l c Ef) as (_ & Hincl & Hfilter).
        destruct (IH (S i) (dropped l c) sent)
          as ((new & Hs & Hnew) & Hi & Hfl).
        split; [|split].
        -- exists new. split; [exact Hs|]. intros x Hx.
           destruct (Hnew x Hx) as [Hin Hal]. split; [|exact Hal].
           apply Hincl. exact Hin.
        -- intros x Hx. apply Hincl. apply Hi. exact Hx.
        -- rewrite Hfl. exact Hfilter.
      * destruct (IH (S i) l (sent ++ [c])) as ((new & Hs & Hnew) & Hi & Hfl).
        split; [|split; assumption].
        exists (c :: new). split.
        -- rewrite Hs, <- app_assoc. reflexivity.
        -- intros x [<- | Hx]; [|apply Hnew; exact Hx].
           split; [exact (nth_error_In _ _ En) | exact Ef].
    + split; [exists []; rewrite app_nil_r; split; [reflexivity|intros c []]|].
      split; [apply incl_refl | reflexivity].
Qed.

Lemma broadcast_from_shift (fails : nat -> bool) (fuel i : nat) (c : nat)
      (l sent : list nat) :
  ~ In c l ->
  ConnectionManager.broadcast_from fails fuel (S i) (c :: l) sent
  = (c :: fst (ConnectionManager.broadcast_from fails fuel i l sent),
     snd (ConnectionManager.broadcast_from fails fuel i l sent)).
Proof.
  revert i l sent. induction fuel as [|fuel IH]; intros i l sent Hc;
    [reflexivity|].
  cbn [ConnectionManager.broadcast_from nth_error].
  destruct (nth_error l i) as [x|] eqn:En; [|reflexivity].
  assert (Hx : (c =? x)%nat = false).
  { apply Nat.eqb_neq. intros ->. apply Hc. exact (nth_error_In _ _ En). }
  destruct (fails x) eqn:Ef.
  - cbn [ConnectionManager.remove]. rewrite Hx.
    destruct (ConnectionManager.remove l x) as [t|] eqn:Er.
    + apply IH. apply remove_some in Er.
      destruct Er as (l1 & l2 & -> & _ & ->).
      intro H. apply Hc. apply in_app_or in H. apply in_or_app.
      destruct H as [H | H]; [left; exact H | right; right; exact H].
    + apply IH. exact Hc.
  - apply IH. exact Hc.
Qed.

Lemma broadcast_from_fail_step (fails : nat -> bool) (fuel i : nat)
      (l sent : list nat) (c : nat) :
  nth_error l i = Some c ->
  fails c = true ->
  ConnectionManager.broadcast_from fails (S fuel) i l sent
  = ConnectionManager.broadcast_from fails fuel (S i) (dropped l c) sent.
Proof.
  intros Hn Hf. cbn [ConnectionManager.broadcast_from].
  rewrite Hn, Hf. reflexivity.
Qed.

(** X22. When no send fails, [broadcast] sends the message to every
    connection once, in the order of the list, and leaves the list as it
    was. *)
Theorem broadcast_reaches_everyone (fails : nat -> bool) (l : list nat) :
  (forall c, In c l -> fails c = false) ->
  ConnectionManager.broadcast fails l = (l, l).
Proof.
  intro Hall. unfold ConnectionManager.broadcast.
  rewrite (broadcast_from_alive fails (length l) 0 l [] Hall) by lia.
  reflexivity.
Qed.

Lemma broadcast_reaches_everyone_witness :
  ConnectionManager.broadcast (fun c => (c =? 9)%nat) [1; 2; 3]%nat
  = ([1; 2; 3]%nat, [1; 2; 3]%nat).
Proof.
  apply (broadcast_reaches_everyone (fun c => (c =? 9)%nat) [1; 2; 3]%nat).
  intros c [<- | [<- | [<- | []]]]; reflexivity.
Defined.

(** X23. Whatever fails, [broadcast] sends only to connections of the
    list whose send succeeds, keeps every such connection in the list, in
    order and as often as it occurred, and adds no connection. *)
Theorem broadcast_keeps_live_connections (fails : nat -> bool)
        (l : list nat) :
  (forall c, In c (snd (ConnectionManager.broadcast fails l)) ->
             In c l /\ fails c = false) /\
  incl (fst (ConnectionManager.broadcast fails l)) l /\
  filter (fun x => negb (fails x)) (fst (ConnectionManager.broadcast fails l))
  = filter (fun x => negb (fails x)) l.
Proof.
  unfold ConnectionManager.broadcast.
  destruct (broadcast_from_sound fails (length l) 0 l [])
    as ((new & Hs & Hnew) & Hi & Hf).
  split; [|split; assumption].
  intros c Hc. rewrite Hs in Hc. apply Hnew. exact Hc.
Qed.

(** X24. A connection that follows a failing one is skipped: when the
    first send fails and the second connection is not repeated later in the
    list, the first is removed, the second stays in the list without being
    sent the message, whether or not its own send would fail, and the rest
    of the list is treated as a list of its own. *)
Theorem broadcast_skips_after_failure (fails : nat -> bool) (d c : nat)
        (rest : list nat) :
  fails d = true ->
  ~ In c rest ->
  ConnectionManager.broadcast fails (d :: c :: rest)
  = (c :: fst (ConnectionManager.broadcast fails rest),
     snd (ConnectionManager.broadcast fails rest)) /\
  ~ In c (snd (ConnectionManager.broadcast fails (d :: c :: rest))).
Proof.
  intros Hd Hc.
  assert (E : ConnectionManager.broadcast fails (d :: c :: rest)
              = (c :: fst (ConnectionManager.broadcast fails rest),
                 snd (ConnectionManager.broadcast fails rest))).
  { unfold ConnectionManager.broadcast. cbn [length].
    rewrite (broadcast_from_fail_step fails (S (length rest)) 0
               (d :: c :: rest) [] d eq_refl Hd).
    unfold dropped. cbn [ConnectionManager.remove]. rewrite Nat.eqb_refl.
    rewrite (broadcast_from_shift fails (S (length rest)) 0 c rest [] Hc).
    rewrite (broadcast_from_fuel fails (S (length rest)) (length rest) 0
               rest []) by lia.
    reflexivity. }
  split; [exact E|]. rewrite E. cbn [snd]. intro H.
  unfold ConnectionManager.broadcast in H.
  destruct (broadcast_from_sound fails (length rest) 0 rest [])
    as ((new & Hs & Hnew) & _ & _).
  rewrite Hs in H. apply Hnew in H. destruct H as [H _]. exact (Hc H).
Qed.

Lemma broadcast_skips_after_failure_witness :
  ConnectionManager.broadcast (fun c => (c =? 1)%nat) [1; 2; 3]%nat
  = ([2; 3]%nat, [3]%nat).
Proof.
  destruct (broadcast_skips_after_failure (fun c => (c =? 1)%nat) 1 2 [3]%nat)
    as [H _].
  - reflexivity.
  - simpl. lia.
  - exact H.
Defined.

(** X25. [disconnect] raises exactly for a connection that is not in the
    list; otherwise it takes out the first occurrence and nothing else; and
    disconnecting a connection that was just connected, and was not in the
    list before, gives the list back. *)
Theorem disconnect_undoes_connect (l : list nat) (w : nat) :
  (ConnectionManager.disconnect l w = None <-> ~ In w l) /\
  (forall l',
      ConnectionManager.disconnect l w = Some l' ->
      exists l1 l2, l = l1 ++ w :: l2 /\ ~ In w l1 /\ l' = l1 ++ l2) /\
  (~ In w l ->
   ConnectionManager.disconnect (ConnectionManager.connect l w) w = Some l).
Proof.
  unfold ConnectionManager.disconnect, ConnectionManager.connect.
  split; [apply remove_none|]. split; [apply remove_some|].
  apply remove_snoc.
Qed.

Lemma disconnect_undoes_connect_witness :
  ConnectionManager.disconnect
    (ConnectionManager.connect [1; 2]%nat 3%nat) 3%nat = Some [1; 2]%nat.
Proof.
  destruct (disconnect_undoes_connect [1; 2]%nat 3%nat) as (_ & _ & H).
  apply H. simpl. lia.
Defined.
